(** * Expense tracker: the ledger logic of [expense-tracker.tsx]

    A shallow embedding of the data transformations of the dashboard
    component: the expense and category collections, the add / remove /
    clear / add-category handlers, the filtered and sorted view [shown],
    the aggregates [total], [byCategory] and [byMonth], and the JSON
    export / import.

    JavaScript numbers are IEEE 754 binary64 values and are modelled by
    Rocq's primitive floats, which are the same format with the same
    round-to-nearest-even arithmetic.  Strings are sequences of 8-bit
    code units.  The host functions the component calls ([parseFloat],
    [Number], [toFixed], [trim], [split], the [Date] constructor,
    [Array.prototype.sort], [JSON.stringify] / [JSON.parse]) are written
    out after ECMA-262; [localeCompare], whose collation is chosen by the
    host, is a parameter. *)

From Stdlib Require Import Floats ZArith QArith String Ascii List Lia
  Sorting.Sorted Sorting.Permutation.
From stdpp Require Import gmap strings list pretty.
Import ListNotations.

Set Warnings "-inexact-float,-register-all".

Local Open Scope string_scope.
Local Open Scope Z_scope.

(** ** Numbers *)

Module JsNumber.

Definition number := float.

(** The double nearest to the rational [p / q] ([0 <= p], [0 < q]),
    ties to even.  The quotient is taken with 1200 extra binary digits
    and a sticky bit, so that the single rounding done by
    [binary_normalize] is the correct one over the whole binary64
    range, overflow and gradual underflow included. *)
Definition nearestDouble (p q : Z) : number :=
  let n := p * 2 ^ 1200 in
  let m := 2 * (n / q) + (if n mod q =? 0 then 0 else 1) in
  SF2Prim (binary_normalize prec emax m (-1201) false).

Definition withSign (neg : bool) (x : number) : number :=
  if neg then (- x)%float else x.

(** [isNaN(x)] *)
Definition isNaN (x : number) : bool := is_nan x.

(** ToBoolean on a number: [0], [-0] and [NaN] are falsy. *)
Definition truthy (x : number) : bool := negb (is_nan x || (x =? 0)%float).

(** [x || 0] *)
Definition orZero (x : number) : number := if truthy x then x else 0%float.

(** ToIntegerOrInfinity restricted to finite values: truncation toward
    zero; [None] for NaN and the infinities. *)
Definition truncate (x : number) : option Z :=
  match Prim2SF x with
  | S754_zero _ => Some 0
  | S754_finite s m e =>
      let a := if 0 <=? e then Zpos m * 2 ^ e else Zpos m / 2 ^ (- e) in
      Some (if s then - a else a)
  | _ => None
  end.

(** The number whose value is the integer [z] (rounded when it has
    more than 53 significant bits). *)
Definition ofZ (z : Z) : number :=
  withSign (z <? 0) (nearestDouble (Z.abs z) 1).

(** The exact value of a finite number, as a rational. *)
Definition valueQ (x : number) : option Q :=
  match Prim2SF x with
  | S754_zero _ => Some 0%Q
  | S754_finite s m e =>
      let a := if 0 <=? e then inject_Z (Zpos m * 2 ^ e)
               else Qmake (Zpos m) (Z.to_pos (2 ^ (- e))) in
      Some (if s then Qopp a else a)
  | _ => None
  end.

End JsNumber.
Export JsNumber.

(** ** Strings *)

Module JsString.

(** WhiteSpace and LineTerminator code units below 256. *)
Definition isWhiteSpace (c : ascii) : bool :=
  let n := nat_of_ascii c in
  ((9 <=? n) && (n <=? 13) || (n =? 32) || (n =? 160))%nat.

Definition isDigit (c : ascii) : bool :=
  let n := nat_of_ascii c in ((48 <=? n) && (n <=? 57))%nat.

Definition digitValue (c : ascii) : Z := Z.of_nat (nat_of_ascii c) - 48.

Fixpoint trimStart (s : string) : string :=
  match s with
  | String c r => if isWhiteSpace c then trimStart r else s
  | EmptyString => s
  end.

Fixpoint trimEnd (s : string) : string :=
  match s with
  | String c r =>
      match trimEnd r with
      | EmptyString => if isWhiteSpace c then EmptyString else String c EmptyString
      | r' => String c r'
      end
  | EmptyString => EmptyString
  end.

(** [s.trim()] *)
Definition trim (s : string) : string := trimEnd (trimStart s).

(** [s.split(sep)] for a one-character separator: the pieces between
    the separators, at least one piece. *)
Fixpoint split (sep : ascii) (s : string) : list string :=
  match s with
  | EmptyString => [EmptyString]
  | String c r =>
      if Ascii.eqb c sep then EmptyString :: split sep r
      else match split sep r with
           | p :: ps => String c p :: ps
           | [] => [String c EmptyString]
           end
  end.

Fixpoint startsWith (p s : string) : bool :=
  match p, s with
  | EmptyString, _ => true
  | String a p', String b s' => Ascii.eqb a b && startsWith p' s'
  | String _ _, EmptyString => false
  end.

Fixpoint dropStr (n : nat) (s : string) : string :=
  match n, s with
  | S n', String _ r => dropStr n' r
  | _, _ => s
  end.

Fixpoint takeStr (n : nat) (s : string) : string :=
  match n, s with
  | S n', String c r => String c (takeStr n' r)
  | _, _ => EmptyString
  end.

Fixpoint repeatChar (c : ascii) (n : nat) : string :=
  match n with
  | O => EmptyString
  | S n' => String c (repeatChar c n')
  end.

(** Decimal digits of a non-negative integer. *)
Definition digitsOf (n : Z) : string := pretty (Z.to_N n).

End JsString.
Export JsString.

(** ** Conversions between strings and numbers *)

Module JsConvert.

(** A scanned StrDecimalLiteral: an infinity, or [mant * 10 ^ exp10]. *)
Inductive literal :=
| LitInfinity (neg : bool)
| LitDecimal (neg : bool) (mant exp10 : Z).

(** MV of a literal, rounded to the nearest double. *)
Definition literalValue (l : literal) : number :=
  match l with
  | LitInfinity neg => withSign neg infinity
  | LitDecimal neg mant e =>
      withSign neg
        (if 0 <=? e then nearestDouble (mant * 10 ^ e) 1
         else nearestDouble mant (10 ^ (- e)))
  end.

(** Longest run of decimal digits at the front of [s]: the value
    accumulated onto [acc], how many digits were read, and the rest. *)
Fixpoint scanDigits (acc : Z) (cnt : nat) (s : string) : Z * nat * string :=
  match s with
  | String c r =>
      if isDigit c then scanDigits (10 * acc + digitValue c) (S cnt) r
      else (acc, cnt, s)
  | EmptyString => (acc, cnt, s)
  end.

Definition scanSign (s : string) : bool * string :=
  match s with
  | String "+"%char r => (false, r)
  | String "-"%char r => (true, r)
  | _ => (false, s)
  end.

(** ExponentPart, when one is there: [e] or [E], an optional sign and
    at least one digit. *)
Definition scanExponent (s : string) : Z * string :=
  match s with
  | String c r =>
      if Ascii.eqb c "e" || Ascii.eqb c "E" then
        let (eneg, r1) := scanSign r in
        let '(ev, n, r2) := scanDigits 0 0 r1 in
        match n with
        | O => (0, s)
        | _ => ((if eneg then - ev else ev), r2)
        end
      else (0, s)
  | EmptyString => (0, s)
  end.

(** The longest prefix of [s] that is a StrUnsignedDecimalLiteral, read
    with the sign [neg] found before it, and what follows it; [None]
    when no prefix is one. *)
Definition scanUnsigned (neg : bool) (s : string) : option (literal * string) :=
  if startsWith "Infinity" s then Some (LitInfinity neg, dropStr 8 s)
  else
    let '(ip, ni, s2) := scanDigits 0 0 s in
    let '(mant, nf, s3) :=
      match s2 with
      | String "."%char r => scanDigits ip 0 r
      | _ => (ip, O, s2)
      end in
    match ni, nf with
    | O, O => None
    | _, _ =>
        let (e, s4) := scanExponent s3 in
        Some (LitDecimal neg mant (e - Z.of_nat nf), s4)
    end.

(** The longest prefix of [s] that is a StrDecimalLiteral. *)
Definition scanDecimal (s : string) : option (literal * string) :=
  let (neg, s1) := scanSign s in scanUnsigned neg s1.

(** The global [parseFloat]: leading white space is skipped, the
    longest numeric prefix is read, anything after it is ignored. *)
Definition parseFloat (s : string) : number :=
  match scanDecimal (trimStart s) with
  | Some (l, _) => literalValue l
  | None => nan
  end.

Definition radixDigit (radix : Z) (c : ascii) : option Z :=
  let n := Z.of_nat (nat_of_ascii c) in
  let v := if (48 <=? n) && (n <=? 57) then n - 48
           else if (97 <=? n) && (n <=? 102) then n - 87
           else if (65 <=? n) && (n <=? 70) then n - 55
           else 16 in
  if v <? radix then Some v else None.

Fixpoint scanRadix (radix acc : Z) (s : string) : option Z :=
  match s with
  | EmptyString => Some acc
  | String c r =>
      match radixDigit radix c with
      | Some v => scanRadix radix (radix * acc + v) r
      | None => None
      end
  end.

Definition nonDecimal (radix : Z) (digits : string) : number :=
  match digits with
  | EmptyString => nan
  | _ => match scanRadix radix 0 digits with
         | Some v => nearestDouble v 1
         | None => nan
         end
  end.

(** [Number(s)] on a string (StringToNumber): the whole trimmed string
    has to be a numeric literal; the empty string is [0]. *)
Definition Number (s : string) : number :=
  let t := trim s in
  match t with
  | EmptyString => 0%float
  | _ =>
      if startsWith "0x" t || startsWith "0X" t then nonDecimal 16 (dropStr 2 t)
      else if startsWith "0o" t || startsWith "0O" t then nonDecimal 8 (dropStr 2 t)
      else if startsWith "0b" t || startsWith "0B" t then nonDecimal 2 (dropStr 2 t)
      else match scanDecimal t with
           | Some (l, EmptyString) => literalValue l
           | _ => nan
           end
  end.

(** Number::toString for a finite [x >= 1e21] with exact value [X]:
    the fewest digits [s] (at most 17) such that [s * 10 ^ u] reads
    back as [x], the candidate nearest to [X] when two qualify, written
    in exponent notation. *)
Definition readsBack (x : number) (v : Z) : bool :=
  (nearestDouble v 1 =? x)%float.

Definition shortest (x : number) (X : Z) (d k : nat) : option (Z * nat) :=
  let unit := 10 ^ Z.of_nat (d - k) in
  let lo := X / unit in
  let hi := lo + 1 in
  let okLo := readsBack x (lo * unit) in
  let okHi := readsBack x (hi * unit) in
  let pick (s : Z) := if s =? 10 ^ Z.of_nat k then (10 ^ Z.of_nat (k - 1), S d)
                      else (s, d) in
  match okLo, okHi with
  | true, false => Some (pick lo)
  | false, true => Some (pick hi)
  | true, true =>
      let dl := X - lo * unit in
      let dh := hi * unit - X in
      Some (pick (if dl <? dh then lo
                  else if dh <? dl then hi
                  else if Z.even lo then lo else hi))
  | false, false => None
  end.

Fixpoint shortestFrom (x : number) (X : Z) (d k fuel : nat) : Z * nat :=
  match fuel with
  | O => (X, d)
  | S fuel' =>
      match shortest x X d k with
      | Some r => r
      | None => shortestFrom x X d (S k) fuel'
      end
  end.

Definition toStringLarge (x : number) : string :=
  match truncate x with
  | Some X =>
      let d := String.length (digitsOf X) in
      let (s, n) := shortestFrom x X d 1 17 in
      let ds := digitsOf s in
      let e := "e+" +:+ digitsOf (Z.of_nat n - 1) in
      match ds with
      | String c EmptyString => String c e
      | String c r => String c ("." +:+ r +:+ e)
      | EmptyString => e
      end
  | None => "NaN"
  end.

(** The integer [n] for which [n / 10 ^ f] is as close to [m * 2 ^ e]
    as possible, the larger one when two are. *)
Definition scaledNearest (f : nat) (m : positive) (e : Z) : Z :=
  let p := 10 ^ Z.of_nat f in
  if 0 <=? e then p * Zpos m * 2 ^ e
  else (2 * p * Zpos m + 2 ^ (- e)) / 2 ^ (1 - e).

(** The digits of [n] with a point before the last [f] of them, zeros
    put in front until a digit stands before the point. *)
Definition fixedNotation (n : Z) (f : nat) : string :=
  let ds := digitsOf n in
  match f with
  | O => ds
  | _ =>
      let k := String.length ds in
      let ds := if (k <=? f)%nat then repeatChar "0" (f + 1 - k) +:+ ds else ds in
      let k := String.length ds in
      takeStr (k - f) ds +:+ "." +:+ dropStr (k - f) ds
  end.

(** [x.toFixed(f)] *)
Definition toFixed (x : number) (f : nat) : string :=
  match Prim2SF x with
  | S754_nan => "NaN"
  | S754_infinity s => if s then "-Infinity" else "Infinity"
  | S754_zero _ => fixedNotation 0 f
  | S754_finite s m e =>
      let sign := if s then "-" else "" in
      if (1e21 <=? abs x)%float then sign +:+ toStringLarge (abs x)
      else sign +:+ fixedNotation (scaledNearest f m e) f
  end.

(** Number::toString with radix 36 on an integer that a double holds
    exactly: the digits [0] to [9] and [a] to [z], the most significant
    first, after a minus sign when the integer is negative. *)
Definition radixChar (d : Z) : ascii :=
  ascii_of_nat (Z.to_nat (if d <? 10 then 48 + d else 87 + d)).

Fixpoint radixDigits (fuel : nat) (radix n : Z) (acc : string) : string :=
  match fuel with
  | O => acc
  | S fuel' =>
      let acc' := String (radixChar (n mod radix)) acc in
      if n / radix =? 0 then acc' else radixDigits fuel' radix (n / radix) acc'
  end.

Definition toString36 (n : Z) : string :=
  match n with
  | Z0 => "0"
  | Zpos p => radixDigits (Pos.size_nat p) 36 (Zpos p) ""
  | Zneg p => "-" +:+ radixDigits (Pos.size_nat p) 36 (Zpos p) ""
  end.

End JsConvert.
Export JsConvert.

(** ** Dates *)

Module JsDate.

(** A [Date] object is represented by its time value: milliseconds
    since the epoch, or NaN for an invalid date.  The component builds
    dates from year, month and day only and uses them through [>=],
    [<=] and [getTime]; the local time zone offset is taken to be zero,
    so local midnight is UTC midnight. *)
Definition Date := number.

Definition getTime (d : Date) : number := d.

Definition msPerDay : Z := 86400000.

(** DayFromYear(y): the day number of 1 January of year [y]. *)
Definition DayFromYear (y : Z) : Z :=
  365 * (y - 1970) + (y - 1969) / 4 - (y - 1901) / 100 + (y - 1601) / 400.

Definition InLeapYear (y : Z) : bool :=
  ((y mod 4 =? 0) && negb (y mod 100 =? 0)) || (y mod 400 =? 0).

(** Days from 1 January to the first of month [mn] (0 to 11). *)
Definition monthStart (leap : bool) (mn : Z) : Z :=
  nth (Z.to_nat mn) [0; 31; 59; 90; 120; 151; 181; 212; 243; 273; 304; 334] 0
  + (if leap && (2 <=? mn) then 1 else 0).

(** MakeDay(year, month, date) on integers: the months beyond a year
    carry into the year, the days beyond a month carry on. *)
Definition MakeDay (y m dt : Z) : Z :=
  let ym := y + m / 12 in
  let mn := m mod 12 in
  DayFromYear ym + monthStart (InLeapYear ym) mn + dt - 1.

(** TimeClip *)
Definition TimeClip (t : Z) : number :=
  if 8640000000000000 <? Z.abs t then nan else ofZ t.

(** [new Date(year, month, date)]: an argument that is NaN or infinite
    gives an invalid date, years 0 to 99 mean 1900 to 1999. *)
Definition newDate (year month date : number) : Date :=
  match truncate year, truncate month, truncate date with
  | Some y, Some m, Some dt =>
      let yr := if (0 <=? y) && (y <=? 99) then 1900 + y else y in
      TimeClip (MakeDay yr m dt * msPerDay)
  | _, _, _ => nan
  end.

End JsDate.
Export JsDate.

(** ** The component's helpers *)

(** [undefined] where a number is expected converts to NaN; it is what a
    missing piece of a destructured array is. *)
Definition undefinedNumber : number := nan.

(** What [Math.random().toString(36)] can be, [Math.random()] being a
    number from 0 up to 1, 1 left out: [0], or [0.] and digits of
    base 36 behind it. *)
Definition isDigit36 (c : ascii) : bool :=
  let n := nat_of_ascii c in
  (isDigit c || (97 <=? n) && (n <=? 122))%nat.

Fixpoint allDigits36 (s : string) : bool :=
  match s with
  | EmptyString => true
  | String c r => isDigit36 c && allDigits36 r
  end.

Definition fractionString (s : string) : bool :=
  match s with
  | String "0" EmptyString => true
  | String "0" (String "." (String c r)) => allDigits36 (String c r)
  | _ => false
  end.

(** [function uid()]:
    [return Math.random().toString(36).slice(2) + Date.now().toString(36);]
    What [Math.random] and the clock give is the host's: [random36] is
    the string [Math.random().toString(36)], [now] the time value that
    [Date.now()] returns. *)
Definition uid (random36 : string) (now : Z) : string :=
  dropStr 2 random36 +:+ toString36 now.

(** [function parseDate(d)]:
    [const [y, m, da] = d.split("-").map(Number); return new Date(y, m - 1, da);] *)
Definition parseDate (d : string) : Date :=
  let parts := map Number (split "-" d) in
  let y := nth 0 parts undefinedNumber in
  let m := nth 1 parts undefinedNumber in
  let da := nth 2 parts undefinedNumber in
  newDate y (m - 1)%float da.

(** [function monthKey(d)]:
    [const [y, m] = d.split("-"); return `${y}-${m}`;]
    A missing piece is [undefined] and prints as such. *)
Definition monthKey (d : string) : string :=
  let parts := split "-" d in
  let y := nth 0 parts "undefined" in
  let m := nth 1 parts "undefined" in
  y +:+ "-" +:+ m.

(** ** Data model *)

(** [type Expense = { id: string; date: string; amount: number;
    category: string; note?: string }] *)
Module Expense.
Record t := mk {
  id : string;
  date : string;
  amount : number;
  category : string;
  note : option string
}.
End Expense.
Abbreviation Expense := Expense.t.

Definition DEFAULT_CATEGORIES : list string :=
  ["Food"; "Transport"; "Bills"; "Shopping"; "Entertainment"; "Health";
   "Education"; "Other"].

Inductive SortKey := KeyDate | KeyAmount | KeyCategory.
Inductive SortDir := Asc | Desc.

(** The state hooks of the component: the two persisted collections,
    the fields of the entry form, the filters and the sort setting. *)
Record State := mkState {
  expenses : list Expense;
  categories : list string;
  date : string;
  amount : string;
  category : string;
  note : string;
  from : string;
  to : string;
  catFilter : string;
  sortKey : SortKey;
  sortDir : SortDir
}.

Definition setExpenses (f : list Expense -> list Expense) (st : State) : State :=
  mkState (f (expenses st)) (categories st) (date st) (amount st) (category st)
    (note st) (from st) (to st) (catFilter st) (sortKey st) (sortDir st).

Definition setCategories (f : list string -> list string) (st : State) : State :=
  mkState (expenses st) (f (categories st)) (date st) (amount st) (category st)
    (note st) (from st) (to st) (catFilter st) (sortKey st) (sortDir st).

Definition setAmount (v : string) (st : State) : State :=
  mkState (expenses st) (categories st) (date st) v (category st)
    (note st) (from st) (to st) (catFilter st) (sortKey st) (sortDir st).

Definition setNote (v : string) (st : State) : State :=
  mkState (expenses st) (categories st) (date st) (amount st) (category st)
    v (from st) (to st) (catFilter st) (sortKey st) (sortDir st).

Definition setCategory (v : string) (st : State) : State :=
  mkState (expenses st) (categories st) (date st) (amount st) v
    (note st) (from st) (to st) (catFilter st) (sortKey st) (sortDir st).

(** The state on mount: no expenses, the default categories, the form
    on [today] and the first category, no filter, newest first. *)
Definition initialState (today : string) : State :=
  mkState [] DEFAULT_CATEGORIES today "" "Food" "" "" "" "ALL" KeyDate Desc.

(** ** Mutations *)

(** A string is falsy exactly when it is empty. *)
Definition isEmpty (s : string) : bool := (s =? "")%string.

(** [function addExpense()].  [newId] is the string [uid()] returns,
    built from [Math.random()] and [Date.now()]. *)
Definition addExpense (newId : string) (st : State) : State :=
  let amt := parseFloat (amount st) in
  if isEmpty (date st) || isNaN amt || (amt <=? 0)%float || isEmpty (category st)
  then st
  else
    let e := Expense.mk newId (date st) (parseFloat (toFixed amt 2))
               (category st) (Some (trim (note st))) in
    setNote "" (setAmount "" (setExpenses (fun prev => e :: prev) st)).

(** [function removeExpense(id)] *)
Definition removeExpense (id : string) (st : State) : State :=
  setExpenses (fun prev => List.filter (fun e => negb (Expense.id e =? id)%string) prev) st.

(** [function clearAll()]; [confirmed] is the answer to the dialog. *)
Definition clearAll (confirmed : bool) (st : State) : State :=
  if confirmed then setExpenses (fun _ => []) st else st.

(** [categories.includes(c)] *)
Definition includes (l : list string) (c : string) : bool :=
  existsb (fun x => (x =? c)%string) l.

(** [function addCategory(newCat)] *)
Definition addCategory (newCat : string) (st : State) : State :=
  let c := trim newCat in
  if isEmpty c then st
  else if includes (categories st) c then st
  else setCategory c (setCategories (fun prev => (prev ++ [c])%list) st).


(** ** Arrays *)

(** [Array.prototype.sort] with a comparison function.  The function
    returns a number; [SortCompare] reads it as negative, positive or
    neither, NaN counting as zero.  For a consistent comparison function
    ECMA-262 fixes the result (the stable sorted permutation), and the
    insertion sort below computes it; for an inconsistent one the order
    is left to the implementation, of which this is one. *)
Section ArraySort.
Context {A : Type} (comparefn : A -> A -> number).

Definition SortCompare (x y : A) : comparison :=
  let v := comparefn x y in
  if (v <? 0)%float then Lt else if (0 <? v)%float then Gt else Eq.

Fixpoint insertSorted (x : A) (l : list A) : list A :=
  match l with
  | [] => [x]
  | y :: r =>
      match SortCompare x y with
      | Gt => y :: insertSorted x r
      | _ => x :: y :: r
      end
  end.

Fixpoint sortList (l : list A) : list A :=
  match l with
  | [] => []
  | x :: r => insertSorted x (sortList r)
  end.

(** The comparison function is consistent on the values of [l], in the
    words of ECMA-262: [=] is an equivalence, [<] and [>] are
    transitive. *)
Definition consistentOn (l : list A) : Prop :=
  forall a b c, In a l -> In b l -> In c l ->
    SortCompare a a = Eq /\
    (SortCompare a b = Eq -> SortCompare b a = Eq) /\
    (SortCompare a b = Eq -> SortCompare b c = Eq -> SortCompare a c = Eq) /\
    (SortCompare a b = Lt -> SortCompare b c = Lt -> SortCompare a c = Lt) /\
    (SortCompare a b = Gt -> SortCompare b c = Gt -> SortCompare a c = Gt).

(** [x] does not come after [y]. *)
Definition notAfter (x y : A) : Prop := SortCompare x y <> Gt.

(** [y] ties with [x]. *)
Definition ties (x y : A) : bool :=
  match SortCompare x y with Eq => true | _ => false end.

(** [r] is [l] sorted: in order, and the values that tie are those of
    [l], in the order they have in [l]. *)
Definition stableSortOf (l r : list A) : Prop :=
  Permutation l r /\
  StronglySorted notAfter r /\
  forall x, In x l -> List.filter (ties x) r = List.filter (ties x) l.

End ArraySort.

(** Array objects live in a heap and are handled through references:
    [slice] and [filter] allocate a new array, [sort] reorders the array
    it is called on. *)
Module JsArray.

Abbreviation ref := nat.
Abbreviation Heap T := (gmap nat (list T)).

Section Arrays.
Context {T : Type}.

Definition M (A : Type) : Type := Heap T -> A * Heap T.

Definition ret {A} (a : A) : M A := fun h => (a, h).

Definition bind {A B} (m : M A) (k : A -> M B) : M B :=
  fun h => let (a, h') := m h in k a h'.

Definition elements (a : ref) (h : Heap T) : list T := default [] (h !! a).

Definition newArray (v : list T) : M ref :=
  fun h => let r := fresh (dom h) in (r, <[r := v]> h).

(** [a.slice()] *)
Definition slice (a : ref) : M ref :=
  fun h => newArray (elements a h) h.

(** [a.filter(p)] *)
Definition filter (p : T -> bool) (a : ref) : M ref :=
  fun h => newArray (List.filter p (elements a h)) h.

(** [a.sort(comparefn)]: in place; the call returns [a] itself. *)
Definition sort (comparefn : T -> T -> number) (a : ref) : M ref :=
  fun h => (a, <[a := sortList comparefn (elements a h)]> h).

End Arrays.
Arguments M : clear implicits.
End JsArray.

Notation "'let*' x ':=' m 'in' k" := (JsArray.bind m (fun x => k))
  (at level 10, x name, m at level 100, k at level 200).

(** [Map<string, number>]: keys in insertion order; [set] on a key that
    is there keeps its place. *)
Module JsMap.

Definition Map := list (string * number).

Fixpoint get (m : Map) (k : string) : option number :=
  match m with
  | [] => None
  | (k', v) :: r => if (k' =? k)%string then Some v else get r k
  end.

Fixpoint set (m : Map) (k : string) (v : number) : Map :=
  match m with
  | [] => [(k, v)]
  | (k', v') :: r => if (k' =? k)%string then (k', v) :: r else (k', v') :: set r k v
  end.

Definition entries (m : Map) : list (string * number) := m.

(** [m.get(k) || 0] *)
Definition getOrZero (m : Map) (k : string) : number :=
  match get m k with
  | Some v => orZero v
  | None => 0%float
  end.

End JsMap.

(** ** The derived view and the aggregates *)

Section Host.

(** [a.localeCompare(b)]: negative, zero or positive, after the
    collation of the host's locale. *)
Variable localeCompare : string -> string -> number.

(** The comparison function given to [list.sort] in [shown]. *)
Definition compareFn (key : SortKey) (dir : SortDir) (a b : Expense) : number :=
  let cmp := 0%float in
  let cmp := match key with
             | KeyDate => (getTime (parseDate (Expense.date a))
                           - getTime (parseDate (Expense.date b)))%float
             | _ => cmp
             end in
  let cmp := match key with
             | KeyAmount => (Expense.amount a - Expense.amount b)%float
             | _ => cmp
             end in
  let cmp := match key with
             | KeyCategory => localeCompare (Expense.category a) (Expense.category b)
             | _ => cmp
             end in
  match dir with
  | Asc => cmp
  | Desc => (- cmp)%float
  end.

(** [const shown = useMemo(...)]: the program, on the array [expensesRef]. *)
Definition shown (st : State) (expensesRef : JsArray.ref)
  : JsArray.M Expense JsArray.ref :=
  let* list := JsArray.slice expensesRef in
  let* list := (if negb (isEmpty (from st))
                then JsArray.filter
                       (fun e => (parseDate (from st) <=? parseDate (Expense.date e))%float)
                       list
                else JsArray.ret list) in
  let* list := (if negb (isEmpty (to st))
                then JsArray.filter
                       (fun e => (parseDate (Expense.date e) <=? parseDate (to st))%float)
                       list
                else JsArray.ret list) in
  let* list := (if negb (catFilter st =? "ALL")%string
                then JsArray.filter
                       (fun e => (Expense.category e =? catFilter st)%string) list
                else JsArray.ret list) in
  let* sorted := JsArray.sort (compareFn (sortKey st) (sortDir st)) list in
  JsArray.ret list.

(** The elements of [shown] when the component's expenses are the only
    array there is. *)
Definition shownList (st : State) : list Expense :=
  let '(r, h) := shown st 0%nat {[ 0%nat := expenses st ]} in
  JsArray.elements r h.

End Host.

(** [const total = shown.reduce((s, e) => s + e.amount, 0)] *)
Definition total (shown : list Expense) : number :=
  fold_left (fun s e => (s + Expense.amount e)%float) shown 0%float.

(** The entries handed to the pie chart. *)
Module Slice.
Record t := mk { name : string; value : number }.
End Slice.

(** The accumulation both grouping aggregates do, for the key [key]. *)
Definition groupInto (key : Expense -> string) (shown : list Expense) : JsMap.Map :=
  fold_left
    (fun m e => JsMap.set m (key e) (JsMap.getOrZero m (key e) + Expense.amount e)%float)
    shown [].

(** [const byCategory = useMemo(...)] *)
Definition byCategory (shown : list Expense) : list Slice.t :=
  let m := groupInto Expense.category shown in
  let arr := map (fun '(name, value) => Slice.mk name value) (JsMap.entries m) in
  if (0 <? length arr)%nat then arr else [Slice.mk "No data" 1%float].

(** The points handed to the line chart. *)
Module Point.
Record t := mk { month : string; total : number }.
End Point.

(** [const byMonth = useMemo(...)] *)
Definition byMonth (localeCompare : string -> string -> number)
  (shown : list Expense) : list Point.t :=
  let m := groupInto (fun e => monthKey (Expense.date e)) shown in
  sortList (fun a b => localeCompare (Point.month a) (Point.month b))
    (map (fun '(k, v) => Point.mk k (parseFloat (toFixed v 2))) (JsMap.entries m)).

(** ** Export and import *)

(** JSON values.  A file (or a stored item) is represented by what
    [JSON.parse] makes of its text: a value of this type, or a
    SyntaxError; [JSON.stringify] is taken to that level as well, as the
    value its text parses to. *)
Inductive json :=
| JNull
| JBool (b : bool)
| JNum (n : number)
| JStr (s : string)
| JArr (items : list json)
| JObj (fields : list (string * json)).

Inductive FileContent :=
| Malformed
| Document (j : json).

(** A number as [JSON.stringify] writes it: NaN and the infinities
    become [null], and negative zero is written [0]. *)
Definition numberToJSON (x : number) : json :=
  match Prim2SF x with
  | S754_finite _ _ _ => JNum x
  | S754_zero _ => JNum 0%float
  | _ => JNull
  end.

(** An expense as [JSON.stringify] writes it: a property that is
    [undefined] is left out. *)
Definition expenseToJSON (e : Expense) : json :=
  JObj ([("id", JStr (Expense.id e));
         ("date", JStr (Expense.date e));
         ("amount", numberToJSON (Expense.amount e));
         ("category", JStr (Expense.category e))]
        ++ match Expense.note e with
           | Some n => [("note", JStr n)]
           | None => []
           end)%list.

(** [function exportJSON()]: the document written to the download,
    [JSON.stringify({ expenses, categories }, null, 2)]. *)
Definition exportJSON (st : State) : json :=
  JObj [("expenses", JArr (map expenseToJSON (expenses st)));
        ("categories", JArr (map JStr (categories st)))].

Fixpoint lookupField (fields : list (string * json)) (k : string) : option json :=
  match fields with
  | [] => None
  | (k', v) :: r => if (k' =? k)%string then Some v else lookupField r k
  end.

(** The values a parsed array must hold to be the [Expense[]] or the
    [string[]] the component takes it for. *)
Definition asString (j : json) : option string :=
  match j with JStr s => Some s | _ => None end.

Definition asExpense (j : json) : option Expense :=
  match j with
  | JObj fields =>
      if forallb (fun '(k, _) => includes ["id"; "date"; "amount"; "category"; "note"] k)
           fields
      then
        match lookupField fields "id", lookupField fields "date",
              lookupField fields "amount", lookupField fields "category" with
        | Some (JStr i), Some (JStr d), Some (JNum a), Some (JStr c) =>
            match lookupField fields "note" with
            | None => Some (Expense.mk i d a c None)
            | Some (JStr n) => Some (Expense.mk i d a c (Some n))
            | Some _ => None
            end
        | _, _, _, _ => None
        end
      else None
  | _ => None
  end.

Fixpoint allOf {A B} (f : A -> option B) (l : list A) : option (list B) :=
  match l with
  | [] => Some []
  | x :: r =>
      match f x, allOf f r with
      | Some y, Some ys => Some (y :: ys)
      | _, _ => None
      end
  end.

(** How a handler with a [try] block ends: normally, by an exception
    (what it did to the state before stays done), or by storing values
    that are not of the declared types, which a state typed as in the
    source cannot hold. *)
Module Handler.

Record World := mkWorld { state : State; alerts : list string }.

Inductive outcome (A : Type) :=
| Returned (a : A) (w : World)
| Thrown (w : World)
| Untyped.
Arguments Returned {A}.
Arguments Thrown {A}.
Arguments Untyped {A}.

Definition Eff (A : Type) : Type := World -> outcome A.

Definition ret {A} (a : A) : Eff A := fun w => Returned a w.

Definition bind {A B} (m : Eff A) (k : A -> Eff B) : Eff B :=
  fun w => match m w with
           | Returned a w' => k a w'
           | Thrown w' => Thrown w'
           | Untyped => Untyped
           end.

Definition throw {A} : Eff A := fun w => Thrown w.

Definition untyped {A} : Eff A := fun _ => Untyped.

Definition update (f : State -> State) : Eff unit :=
  fun w => Returned tt (mkWorld (f (state w)) (alerts w)).

(** [alert(msg)] *)
Definition alert (msg : string) : Eff unit :=
  fun w => Returned tt (mkWorld (state w) (alerts w ++ [msg])%list).

(** [try { body } catch { handler }] *)
Definition tryCatch (body handler : Eff unit) : Eff unit :=
  fun w => match body w with
           | Thrown w' => handler w'
           | o => o
           end.

Definition typed {A} (o : option A) : Eff A :=
  match o with
  | Some a => ret a
  | None => untyped
  end.

End Handler.

Notation "'try*' x ':=' m 'in' k" := (Handler.bind m (fun x => k))
  (at level 10, x name, m at level 100, k at level 200).
Notation "m ';;' k" := (Handler.bind m (fun _ => k))
  (at level 100, k at level 200, right associativity).

(** [JSON.parse(text)] *)
Definition JSON_parse (file : FileContent) : Handler.Eff json :=
  match file with
  | Malformed => Handler.throw
  | Document j => Handler.ret j
  end.

(** [obj.name]: a TypeError on [null]; [undefined] (here [None]) when
    the value has no such property. *)
Definition getProperty (obj : json) (name : string) : Handler.Eff (option json) :=
  match obj with
  | JNull => Handler.throw
  | JObj fields => Handler.ret (lookupField fields name)
  | _ => Handler.ret None
  end.

(** [if (Array.isArray(v)) store(v)] *)
Definition whenArray {A} (v : option json) (elem : json -> option A)
  (store : list A -> State -> State) : Handler.Eff unit :=
  match v with
  | Some (JArr items) =>
      try* l := Handler.typed (allOf elem items) in
      Handler.update (store l)
  | _ => Handler.ret tt
  end.

(** The [reader.onload] handler of [function importJSON(file)]. *)
Definition importJSON (file : FileContent) : Handler.Eff unit :=
  Handler.tryCatch
    (try* obj := JSON_parse file in
     try* es := getProperty obj "expenses" in
     whenArray es asExpense (fun l => setExpenses (fun _ => l)) ;;
     try* cs := getProperty obj "categories" in
     whenArray cs asString (fun l => setCategories (fun _ => l)))
    (Handler.alert "Invalid file").

(** [if (raw) store(JSON.parse(raw))]; [None] is an item that is not
    there (or is the empty string). *)
Definition whenStored {A} (raw : option FileContent) (elem : json -> option A)
  (store : list A -> State -> State) : Handler.Eff unit :=
  match raw with
  | None => Handler.ret tt
  | Some file =>
      try* v := JSON_parse file in
      match v with
      | JArr items =>
          try* l := Handler.typed (allOf elem items) in
          Handler.update (store l)
      | _ => Handler.untyped
      end
  end.

(** The effect run on mount, reading the two stored items. *)
Definition loadStorage (raw cats : option FileContent) : Handler.Eff unit :=
  Handler.tryCatch
    (whenStored raw asExpense (fun l => setExpenses (fun _ => l)) ;;
     whenStored cats asString (fun l => setCategories (fun _ => l)))
    (Handler.ret tt).

(** ** Runs of the component *)

(** What can happen to the component: the handlers above, and the
    inputs of the form and of the filter bar, which change neither
    collection. *)
Inductive Event :=
| EvAdd (newId : string)
| EvRemove (id : string)
| EvClear (confirmed : bool)
| EvAddCategory (newCat : string)
| EvImport (file : FileContent)
| EvLoad (raw cats : option FileContent)
| EvInput (date amount category note from to catFilter : string)
    (key : SortKey) (dir : SortDir).

Definition stateOf (o : Handler.outcome unit) : option State :=
  match o with
  | Handler.Returned _ w => Some (Handler.state w)
  | _ => None
  end.

Definition handle (ev : Event) (st : State) : option State :=
  match ev with
  | EvAdd newId => Some (addExpense newId st)
  | EvRemove id => Some (removeExpense id st)
  | EvClear confirmed => Some (clearAll confirmed st)
  | EvAddCategory newCat => Some (addCategory newCat st)
  | EvImport file => stateOf (importJSON file (Handler.mkWorld st []))
  | EvLoad raw cats => stateOf (loadStorage raw cats (Handler.mkWorld st []))
  | EvInput d a c n f t cf key dir =>
      Some (mkState (expenses st) (categories st) d a c n f t cf key dir)
  end.

(** The states the component reaches from its initial state through
    events that satisfy [allowed]. *)
Inductive reachable (allowed : Event -> State -> Prop) : State -> Prop :=
| reach_init today : reachable allowed (initialState today)
| reach_step st ev st' :
    reachable allowed st -> allowed ev st -> handle ev st = Some st' ->
    reachable allowed st'.

(** ** Notions the statements below are phrased in *)

(** The transaction of [l] found under an identifier. *)
Definition lookupById (id : string) (l : list Expense) : option Expense :=
  List.find (fun e => (Expense.id e =? id)%string) l.

Definition ids (l : list Expense) : list string := map Expense.id l.

(** The conjunction of the filter predicates that are switched on. *)
Definition matches (st : State) (e : Expense) : bool :=
  (isEmpty (from st) || (parseDate (from st) <=? parseDate (Expense.date e))%float)
  && (isEmpty (to st) || (parseDate (Expense.date e) <=? parseDate (to st))%float)
  && ((catFilter st =? "ALL")%string || (Expense.category e =? catFilter st)%string).

(** [x] rounded to [f] decimals: the double nearest to [n / 10 ^ f],
    for the integer [n] nearest to [x * 10 ^ f] (half away from zero). *)
Definition roundedTo (f : nat) (x : number) : number :=
  match Prim2SF x with
  | S754_finite s m e =>
      withSign s (nearestDouble (scaledNearest f m e) (10 ^ Z.of_nat f))
  | S754_zero _ => 0%float
  | _ => x
  end.

(** A string of decimal digits, and the number it writes after the
    digits already read as [acc]. *)
Fixpoint allDigits (s : string) : bool :=
  match s with
  | EmptyString => true
  | String c r => isDigit c && allDigits r
  end.

Fixpoint valueFrom (acc : Z) (s : string) : Z :=
  match s with
  | EmptyString => acc
  | String c r => valueFrom (10 * acc + digitValue c) r
  end.


(** The sum as [total] takes it: double additions, left to right from 0. *)
Definition floatSum (l : list number) : number :=
  fold_left (fun s a => (s + a)%float) l 0%float.

(** The sum as the grouping aggregates take it: the same, except that a
    running sum that is NaN counts as 0 for the next addition
    ([m.get(k) || 0]). *)
Definition runningSum (l : list number) : number :=
  fold_left (fun s a => (orZero s + a)%float) l 0%float.

(** The sum of the exact values, when every number is finite. *)
Fixpoint arithmeticSum (l : list number) : option Q :=
  match l with
  | [] => Some 0%Q
  | x :: r =>
      match valueQ x, arithmeticSum r with
      | Some q, Some s => Some (Qred (q + s))
      | _, _ => None
      end
  end.

(** The distinct strings of [l], each at its first occurrence. *)
Fixpoint distinct (l : list string) : list string :=
  match l with
  | [] => []
  | k :: r => k :: List.filter (fun k' => negb (k' =? k)%string) (distinct r)
  end.

(** The amounts of the transactions of [l] whose key is [k], in order. *)
Definition amountsOf (key : Expense -> string) (k : string) (l : list Expense)
  : list number :=
  map Expense.amount (List.filter (fun e => (key e =? k)%string) l).

(** One entry per distinct key, with the sum of its amounts. *)
Definition grouped (key : Expense -> string) (l : list Expense)
  : list (string * number) :=
  map (fun k => (k, runningSum (amountsOf key k l))) (distinct (map key l)).

(** A number [JSON.stringify] writes as itself: finite, and not
    negative zero. *)
Definition jsonNumber (x : number) : bool :=
  match Prim2SF x with
  | S754_finite _ _ _ => true
  | S754_zero s => negb s
  | _ => false
  end.

(** The expenses an import of [file], or a load of the stored item
    [raw], puts in place of the collection, when it does. *)
Definition arrayOfExpenses (j : option json) : option (list Expense) :=
  match j with
  | Some (JArr items) => allOf asExpense items
  | _ => None
  end.

Definition importedExpenses (file : FileContent) : option (list Expense) :=
  match file with
  | Document (JObj fields) => arrayOfExpenses (lookupField fields "expenses")
  | _ => None
  end.

Definition storedExpenses (raw : option FileContent) : option (list Expense) :=
  match raw with
  | Some (Document j) => arrayOfExpenses (Some j)
  | _ => None
  end.

(** Events whose identifiers are new: [uid()] returns a string no stored
    transaction has, and a file or stored item holds no identifier
    twice. *)
Definition freshIds (ev : Event) (st : State) : Prop :=
  match ev with
  | EvAdd newId => ~ In newId (ids (expenses st))
  | EvImport file => forall l, importedExpenses file = Some l -> List.NoDup (ids l)
  | EvLoad raw _ => forall l, storedExpenses raw = Some l -> List.NoDup (ids l)
  | _ => True
  end.

Definition anyEvent (ev : Event) (st : State) : Prop := True.

(** The two halves of [freshIds], each on its own.  Events whose adds
    take an identifier that no stored transaction has, files and stored
    items being taken as they come; and events whose files and stored
    items hold no identifier twice, every add taking the identifier
    that [uid] makes from what the host gives it, a fraction written in
    base 36 and a time value that is not negative. *)
Definition freshAdds (ev : Event) (st : State) : Prop :=
  match ev with
  | EvAdd newId => ~ In newId (ids (expenses st))
  | _ => True
  end.

Definition distinctFiles (ev : Event) (st : State) : Prop :=
  match ev with
  | EvAdd newId =>
      exists random36 now,
        fractionString random36 = true /\ 0 <= now /\ newId = uid random36 now
  | EvImport file => forall l, importedExpenses file = Some l -> List.NoDup (ids l)
  | EvLoad raw _ => forall l, storedExpenses raw = Some l -> List.NoDup (ids l)
  | _ => True
  end.

(** ** Sample data *)

(** The records of the component's development checks. *)
Definition sample : list Expense :=
  [ Expense.mk "1" "2025-09-01" 100%float "Food" None;
    Expense.mk "2" "2025-09-02" 50%float "Food" None;
    Expense.mk "3" "2025-09-02" 20%float "Transport" None ].

(** A state holding [l], with no filter, sorted by [key] in direction
    [dir]. *)
Definition viewOf (l : list Expense) (key : SortKey) (dir : SortDir) : State :=
  mkState l DEFAULT_CATEGORIES "2025-09-10" "" "Food" "" "" "" "ALL" key dir.

(** A collation that orders strings by code unit. *)
Definition codeUnitCompare (a b : string) : number :=
  match String.compare a b with
  | Lt => (-1)%float
  | Eq => 0%float
  | Gt => 1%float
  end.

(** The form filled in with an entry of 12.345 for lunch. *)
Definition entryForm : State :=
  mkState sample DEFAULT_CATEGORIES "2025-09-10" "12.345" "Food" " lunch "
    "" "" "ALL" KeyDate Desc.

(** The same with a negative amount, and with a date that does not
    parse. *)
Definition negativeForm : State :=
  mkState sample DEFAULT_CATEGORIES "2025-09-10" "-5" "Food" "" "" "" "ALL" KeyDate Desc.

Definition badDateForm : State :=
  mkState sample DEFAULT_CATEGORIES "tomorrow" "5" "Food" "" "" "" "ALL" KeyDate Desc.

(** Three expenses, the second with a date that does not parse. *)
Definition undated : list Expense :=
  [ Expense.mk "1" "2025-09-02" 10%float "Food" None;
    Expense.mk "2" "soon" 10%float "Food" None;
    Expense.mk "3" "2025-09-01" 10%float "Food" None ].

(** Amounts of very different sizes, on one day. *)
Definition large : list Expense :=
  [ Expense.mk "1" "2025-09-01" 10000000000000000%float "Bills" None;
    Expense.mk "2" "2025-09-01" 1%float "Food" None;
    Expense.mk "3" "2025-09-01" 1%float "Food" None ].

(** An expense whose amount has more than two decimals, as a file can
    hold one. *)
Definition tiny : list Expense :=
  [ Expense.mk "1" "2025-09-01" 0.004%float "Food" None ].

(** Two amounts of two decimals whose double sum is not one. *)
Definition dimes : list Expense :=
  [ Expense.mk "1" "2025-09-01" 0.1%float "Food" None;
    Expense.mk "2" "2025-09-02" 0.2%float "Food" None ].

(** Expenses over two months, the later month first. *)
Definition twoMonths : list Expense :=
  [ Expense.mk "1" "2025-10-03" 12.5%float "Food" None;
    Expense.mk "2" "2025-09-01" 100%float "Food" None;
    Expense.mk "3" "2025-10-04" 0.25%float "Bills" (Some "stamp") ].

(** A state with an amount that overflowed to infinity. *)
Definition overflowState : State :=
  mkState [ Expense.mk "1" "2025-09-01" infinity "Food" (Some "") ]
    DEFAULT_CATEGORIES "2025-09-10" "" "Food" "" "" "" "ALL" KeyDate Desc.

(** A file with the same identifier on two expenses. *)
Definition duplicateFile : FileContent :=
  Document
    (JObj [("expenses",
            JArr [ JObj [("id", JStr "1"); ("date", JStr "2025-09-01");
                         ("amount", JNum 100%float); ("category", JStr "Food")];
                   JObj [("id", JStr "1"); ("date", JStr "2025-09-02");
                         ("amount", JNum 50%float); ("category", JStr "Food")] ])]).

(** A stored item with the same identifier on two expenses. *)
Definition duplicateItem : FileContent :=
  Document
    (JArr [ JObj [("id", JStr "1"); ("date", JStr "2025-09-01");
                  ("amount", JNum 100%float); ("category", JStr "Food")];
            JObj [("id", JStr "1"); ("date", JStr "2025-09-02");
                  ("amount", JNum 50%float); ("category", JStr "Food")] ]).

(** [own h r h' v]: the array [r] was allocated after [h], holds [v] in
    [h'], and every array of [h] is in [h'] as it was. *)
Definition own {T} (h : JsArray.Heap T) (r : JsArray.ref) (h' : JsArray.Heap T)
  (v : list T) : Prop :=
  h !! r = None /\
  (forall a w, h !! a = Some w -> h' !! a = Some w) /\
  h' !! r = Some v.

(** The points of [byMonth] before they are sorted: one per distinct
    month key, with the sum of its amounts at two decimals. *)
Definition monthPoints (shown : list Expense) : list Point.t :=
  map (fun '(k, v) => Point.mk k (parseFloat (toFixed v 2)))
    (grouped (fun e => monthKey (Expense.date e)) shown).

Definition compareMonths (localeCompare : string -> string -> number)
  (a b : Point.t) : number :=
  localeCompare (Point.month a) (Point.month b).

(** The sort key is defined on the expenses of [l]: every date parses
    (key date), every amount is a number (key amount), the collation is
    consistent on the categories (key category). *)
Definition keyDefined (localeCompare : string -> string -> number)
  (key : SortKey) (l : list Expense) : Prop :=
  match key with
  | KeyDate =>
      forall e, In e l -> isNaN (getTime (parseDate (Expense.date e))) = false
  | KeyAmount => forall e, In e l -> isNaN (Expense.amount e) = false
  | KeyCategory => consistentOn localeCompare (map Expense.category l)
  end.

(** The sign of a number of the floating-point specification: negative,
    zero (or NaN), positive. *)
Definition sfSign (f : spec_float) : comparison :=
  match f with
  | S754_finite s _ _ | S754_infinity s => if s then Lt else Gt
  | _ => Eq
  end.

(** The outcome of a comparison, unordered read as a tie. *)
Definition compareClass (o : option comparison) : comparison :=
  match o with Some c => c | None => Eq end.

(** A key whose lexicographic order is the order of the numbers. *)
Definition orderKey (f : spec_float) : Z * Z * Z :=
  match f with
  | S754_zero _ | S754_nan => (0, 0, 0)
  | S754_infinity s => (if s then -2 else 2, 0, 0)
  | S754_finite s m e => if s then (-1, - e, - Zpos m) else (1, e, Zpos m)
  end.

Definition lex3 (a b : Z * Z * Z) : comparison :=
  let '(a1, a2, a3) := a in
  let '(b1, b2, b3) := b in
  match a1 ?= b1 with
  | Eq => match a2 ?= b2 with
          | Eq => a3 ?= b3
          | c => c
          end
  | c => c
  end.

(** ** The filter bar, the pie cells and the stored items *)

Definition setFrom (v : string) (st : State) : State :=
  mkState (expenses st) (categories st) (date st) (amount st) (category st)
    (note st) v (to st) (catFilter st) (sortKey st) (sortDir st).

Definition setTo (v : string) (st : State) : State :=
  mkState (expenses st) (categories st) (date st) (amount st) (category st)
    (note st) (from st) v (catFilter st) (sortKey st) (sortDir st).

Definition setCatFilter (v : string) (st : State) : State :=
  mkState (expenses st) (categories st) (date st) (amount st) (category st)
    (note st) (from st) (to st) v (sortKey st) (sortDir st).

Definition setSortDir (f : SortDir -> SortDir) (st : State) : State :=
  mkState (expenses st) (categories st) (date st) (amount st) (category st)
    (note st) (from st) (to st) (catFilter st) (sortKey st) (f (sortDir st)).

(** The direction button:
    [onClick={() => setSortDir(d => d === 'asc' ? 'desc' : 'asc')}] *)
Definition toggleSortDir (st : State) : State :=
  setSortDir (fun d => match d with Asc => Desc | Desc => Asc end) st.

(** The button that clears the filters:
    [onClick={() => { setFrom(""); setTo(""); setCatFilter("ALL"); }}] *)
Definition clearFilters (st : State) : State :=
  setCatFilter "ALL" (setTo "" (setFrom "" st)).

Definition PIE_COLORS : list string :=
  ["#0088FE"; "#00C49F"; "#FFBB28"; "#FF8042"; "#FF6384"; "#36A2EB";
   "#9966FF"; "#FF9F40"].

(** The fill of the pie cell of index [i]:
    [PIE_COLORS[i % PIE_COLORS.length]]; [None] is [undefined]. *)
Definition cellFill (i : nat) : option string :=
  nth_error PIE_COLORS (i mod length PIE_COLORS).

(** [byCategory.map((_, i) => <Cell fill={...} />)] *)
Definition pieFills (slices : list Slice.t) : list (option string) :=
  map cellFill (seq 0 (length slices)).

Definition STORAGE_KEY : string := "expenses_v1".
Definition CAT_STORAGE_KEY : string := "expense_categories_v1".

(** [localStorage]: the items by key.  As a file is, an item is
    represented by what [JSON.parse] makes of its text; an item that is
    the empty string, which [if (raw)] passes over, is represented as
    no item. *)
Abbreviation Storage := (gmap string FileContent).

(** [localStorage.getItem(k)] *)
Definition getItem (s : Storage) (k : string) : option FileContent := s !! k.

(** [localStorage.setItem(k, v)]; [full] is whether the store turns the
    item down, which is an exception. *)
Definition setItem (full : bool) (k : string) (v : FileContent) (s : Storage)
  : option Storage :=
  if full then None else Some (<[k := v]> s).

(** The effect on [expenses]:
    [try { localStorage.setItem(STORAGE_KEY, JSON.stringify(expenses)); } catch {}] *)
Definition saveExpenses (full : bool) (st : State) (s : Storage) : Storage :=
  match setItem full STORAGE_KEY
          (Document (JArr (map expenseToJSON (expenses st)))) s with
  | Some s' => s'
  | None => s
  end.

(** The effect on [categories]:
    [try { localStorage.setItem(CAT_STORAGE_KEY, JSON.stringify(categories)); } catch {}] *)
Definition saveCategories (full : bool) (st : State) (s : Storage) : Storage :=
  match setItem full CAT_STORAGE_KEY
          (Document (JArr (map JStr (categories st)))) s with
  | Some s' => s'
  | None => s
  end.

(** The effect run on mount, on the store [s]. *)
Definition loadFrom (s : Storage) : Handler.Eff unit :=
  loadStorage (getItem s STORAGE_KEY) (getItem s CAT_STORAGE_KEY).

(** ** Notions of the further properties *)

(** How often the character [c] occurs in [s]. *)
Fixpoint occurrences (c : ascii) (s : string) : nat :=
  match s with
  | EmptyString => O
  | String x r => ((if Ascii.eqb x c then 1 else 0) + occurrences c r)%nat
  end.

(** Events of the user at the form, the filter bar and the list:
    everything but an import and the load on mount. *)
Definition byHand (ev : Event) (st : State) : Prop :=
  match ev with
  | EvImport _ | EvLoad _ _ => False
  | _ => True
  end.

(** What the checks of [addExpense] and [addCategory] keep true. *)
Definition wellKept (st : State) : Prop :=
  (forall e, In e (expenses st) ->
     Expense.date e <> "" /\ Expense.category e <> "" /\ Expense.note e <> None) /\
  (exists added, categories st = (DEFAULT_CATEGORIES ++ added)%list) /\
  List.NoDup (categories st) /\
  ~ In "" (categories st).

(** No two expenses of [l] tie under the comparison [cmp], unless they
    are the same. *)
Definition noTies (cmp : Expense -> Expense -> number) (l : list Expense) : Prop :=
  forall a b, In a l -> In b l -> SortCompare cmp a b = Eq -> a = b.

(** What [if (Array.isArray(v)) store(v)] leaves in the place of [old]:
    the elements of [v] when it is an array (of values of the type the
    state declares, or nothing the state can hold), and [old] when [v]
    is anything else or is missing. *)
Definition replacedBy {A} (elem : json -> option A) (v : option json)
  (old : list A) : option (list A) :=
  match v with
  | Some (JArr items) => allOf elem items
  | _ => Some old
  end.

(** ** Notions of the calendar properties *)

(** The double whose value is the integer [z], for [z] of at most 53
    binary digits, as the floating-point specification holds it: 53
    digits and the exponent that goes with them. *)
Definition integerDouble (z : Z) : spec_float :=
  match z with
  | Z0 => S754_zero false
  | Zpos p =>
      S754_finite false (Z.to_pos (Zpos p * 2 ^ (53 - Zpos (digits2_pos p))))
        (Zpos (digits2_pos p) - 53)
  | Zneg p =>
      S754_finite true (Z.to_pos (Zpos p * 2 ^ (53 - Zpos (digits2_pos p))))
        (Zpos (digits2_pos p) - 53)
  end.

(** The time value [new Date(y, m - 1, d)] has for integers [y], [m]
    and [d]: the day MakeDay counts, in milliseconds; a year from 0 to
    99 stands for 1900 to 1999. *)
Definition dayTime (y m d : Z) : Z :=
  MakeDay (if (0 <=? y) && (y <=? 99) then 1900 + y else y) (m - 1) d * msPerDay.

(** A date as the date input writes it: four digits, two digits and two
    digits, with hyphens between. *)
Definition isoDate (y m d : string) : Prop :=
  allDigits y = true /\ String.length y = 4%nat /\
  allDigits m = true /\ String.length m = 2%nat /\
  allDigits d = true /\ String.length d = 2%nat.

Definition writeDate (y m d : string) : string :=
  y +:+ "-" +:+ m +:+ "-" +:+ d.

(** The days of month [m] (1 to 12) of year [y]. *)
Definition daysInMonth (y m : Z) : Z :=
  if m =? 2 then (if InLeapYear y then 29 else 28)
  else if (m =? 4) || (m =? 6) || (m =? 9) || (m =? 11) then 30
  else 31.

(** A day of the calendar, from the year 100 on. *)
Definition calendarDate (y m d : Z) : Prop :=
  100 <= y <= 9999 /\ 1 <= m <= 12 /\ 1 <= d <= daysInMonth y m.

(** * Proofs *)

(** ** Sorting *)

Section SortFacts.
Context {A : Type} (comparefn : A -> A -> number).

Local Abbreviation cmp := (SortCompare comparefn).
Local Abbreviation sorted := (StronglySorted (notAfter comparefn)).

Lemma insertSorted_perm (x : A) (l : list A) :
  Permutation (x :: l) (insertSorted comparefn x l).
Proof.
  induction l as [|y r IH]; cbn [insertSorted].
  - reflexivity.
  - destruct (cmp x y); try reflexivity.
    rewrite perm_swap. now apply perm_skip.
Qed.

Lemma sortList_perm (l : list A) : Permutation l (sortList comparefn l).
Proof.
  induction l as [|x r IH]; simpl.
  - constructor.
  - rewrite <- insertSorted_perm. now apply perm_skip.
Qed.

Lemma sortList_In (l : list A) (x : A) : In x (sortList comparefn l) <-> In x l.
Proof.
  split; apply Permutation_in; [symmetry|]; apply sortList_perm.
Qed.

Lemma consistentOn_incl (l d : list A) :
  incl l d -> consistentOn comparefn d -> consistentOn comparefn l.
Proof. intros Hi Hc a b c Ha Hb Hc'. apply Hc; now apply Hi. Qed.

Section Consistent.
Variable d : list A.
Hypothesis Hcons : consistentOn comparefn d.

Lemma cmp_refl a : In a d -> cmp a a = Eq.
Proof. intros Ha. now destruct (Hcons a a a Ha Ha Ha). Qed.

Lemma cmp_sym a b : In a d -> In b d -> cmp a b = Eq -> cmp b a = Eq.
Proof. intros Ha Hb. destruct (Hcons a b a Ha Hb Ha) as (_ & H & _). exact H. Qed.

Lemma cmp_eq_trans a b c :
  In a d -> In b d -> In c d -> cmp a b = Eq -> cmp b c = Eq -> cmp a c = Eq.
Proof. intros Ha Hb Hc. destruct (Hcons a b c Ha Hb Hc) as (_ & _ & H & _). exact H. Qed.

Lemma cmp_lt_trans a b c :
  In a d -> In b d -> In c d -> cmp a b = Lt -> cmp b c = Lt -> cmp a c = Lt.
Proof. intros Ha Hb Hc. destruct (Hcons a b c Ha Hb Hc) as (_ & _ & _ & H & _). exact H. Qed.

Lemma cmp_gt_trans a b c :
  In a d -> In b d -> In c d -> cmp a b = Gt -> cmp b c = Gt -> cmp a c = Gt.
Proof. intros Ha Hb Hc. destruct (Hcons a b c Ha Hb Hc) as (_ & _ & _ & _ & H). exact H. Qed.

Lemma cmp_gt_lt a b : In a d -> In b d -> cmp a b = Gt -> cmp b a = Lt.
Proof.
  intros Ha Hb Hgt. destruct (cmp b a) eqn:Hba; [ | reflexivity | ].
  - rewrite (cmp_sym b a Hb Ha Hba) in Hgt. discriminate.
  - pose proof (cmp_gt_trans a b a Ha Hb Ha Hgt Hba) as H.
    rewrite (cmp_refl a Ha) in H. discriminate.
Qed.

Lemma cmp_lt_gt a b : In a d -> In b d -> cmp a b = Lt -> cmp b a = Gt.
Proof.
  intros Ha Hb Hlt. destruct (cmp b a) eqn:Hba; [ | | reflexivity ].
  - rewrite (cmp_sym b a Hb Ha Hba) in Hlt. discriminate.
  - pose proof (cmp_lt_trans a b a Ha Hb Ha Hlt Hba) as H.
    rewrite (cmp_refl a Ha) in H. discriminate.
Qed.

Lemma notAfter_total a b :
  In a d -> In b d -> cmp a b = Gt -> notAfter comparefn b a.
Proof.
  intros Ha Hb Hgt. unfold notAfter. rewrite (cmp_gt_lt a b Ha Hb Hgt). discriminate.
Qed.

Lemma notAfter_trans a b c :
  In a d -> In b d -> In c d ->
  notAfter comparefn a b -> notAfter comparefn b c -> notAfter comparefn a c.
Proof.
  unfold notAfter. intros Ha Hb Hc Hab Hbc Hac.
  pose proof (cmp_gt_lt a c Ha Hc Hac) as Hca.
  destruct (cmp a b) eqn:E1; [ | | now apply Hab ];
  destruct (cmp b c) eqn:E2; try now apply Hbc.
  - rewrite (cmp_eq_trans a b c Ha Hb Hc E1 E2) in Hac. discriminate.
  - pose proof (cmp_lt_trans b c a Hb Hc Ha E2 Hca) as H.
    rewrite (cmp_sym a b Ha Hb E1) in H. discriminate.
  - pose proof (cmp_lt_trans c a b Hc Ha Hb Hca E1) as H.
    rewrite (cmp_sym b c Hb Hc E2) in H. discriminate.
  - rewrite (cmp_lt_trans a b c Ha Hb Hc E1 E2) in Hac. discriminate.
Qed.

Lemma insertSorted_sorted (x : A) (l : list A) :
  In x d -> incl l d -> sorted l -> sorted (insertSorted comparefn x l).
Proof.
  intros Hx Hl Hs. induction Hs as [|y r Hr IH Hy]; cbn [insertSorted].
  - repeat constructor.
  - assert (In y d) as Hyd by (apply Hl; now left).
    assert (incl r d) as Hrd by (intros z Hz; apply Hl; now right).
    destruct (cmp x y) eqn:E.
    + constructor; [now constructor|].
      assert (notAfter comparefn x y) as Hxy
        by (unfold notAfter; rewrite E; discriminate).
      constructor; [exact Hxy|].
      rewrite List.Forall_forall in Hy |- *. intros z Hz.
      exact (notAfter_trans x y z Hx Hyd (Hrd z Hz) Hxy (Hy z Hz)).
    + constructor; [now constructor|].
      assert (notAfter comparefn x y) as Hxy
        by (unfold notAfter; rewrite E; discriminate).
      constructor; [exact Hxy|].
      rewrite List.Forall_forall in Hy |- *. intros z Hz.
      exact (notAfter_trans x y z Hx Hyd (Hrd z Hz) Hxy (Hy z Hz)).
    + constructor; [now apply IH|].
      apply (Permutation_Forall (insertSorted_perm x r)).
      constructor; [|exact Hy].
      now apply notAfter_total.
Qed.

Lemma sortList_sorted (l : list A) : incl l d -> sorted (sortList comparefn l).
Proof.
  induction l as [|x r IH]; intros Hl; simpl.
  - constructor.
  - apply insertSorted_sorted.
    + apply Hl. now left.
    + intros z Hz. apply Hl. right. exact (proj1 (sortList_In r z) Hz).
    + apply IH. intros z Hz. apply Hl. now right.
Qed.

Lemma ties_excl z x y :
  In z d -> In x d -> In y d ->
  cmp x y = Gt -> ties comparefn z x = true -> ties comparefn z y = false.
Proof.
  unfold ties. intros Hz Hx Hy Hgt Hzx.
  destruct (cmp z x) eqn:E1; try discriminate.
  destruct (cmp z y) eqn:E2; try reflexivity.
  rewrite (cmp_eq_trans x z y Hx Hz Hy (cmp_sym z x Hz Hx E1) E2) in Hgt.
  discriminate.
Qed.

Lemma insertSorted_ties z x (l : list A) :
  In z d -> In x d -> incl l d ->
  List.filter (ties comparefn z) (insertSorted comparefn x l)
  = List.filter (ties comparefn z) (x :: l).
Proof.
  intros Hz Hx. induction l as [|y r IH]; intros Hl; [reflexivity|].
  assert (In y d) as Hyd by (apply Hl; now left).
  assert (incl r d) as Hrd by (intros w Hw; apply Hl; now right).
  cbn [insertSorted]. destruct (cmp x y) eqn:E; try reflexivity.
  cbn [List.filter]. rewrite (IH Hrd). cbn [List.filter].
  destruct (ties comparefn z x) eqn:Tx.
  - now rewrite (ties_excl z x y Hz Hx Hyd E Tx).
  - reflexivity.
Qed.

Lemma sortList_ties z (l : list A) :
  In z d -> incl l d ->
  List.filter (ties comparefn z) (sortList comparefn l)
  = List.filter (ties comparefn z) l.
Proof.
  intros Hz. induction l as [|x r IH]; intros Hl; [reflexivity|].
  assert (In x d) as Hxd by (apply Hl; now left).
  assert (incl r d) as Hrd by (intros w Hw; apply Hl; now right).
  cbn [sortList]. rewrite insertSorted_ties; auto.
  - cbn [List.filter]. now rewrite (IH Hrd).
  - intros w Hw. apply Hrd. exact (proj1 (sortList_In r w) Hw).
Qed.

End Consistent.

(** Sorting with a consistent comparison function gives the stable
    sorted permutation. *)
Lemma sortList_stable (l : list A) :
  consistentOn comparefn l -> stableSortOf comparefn l (sortList comparefn l).
Proof.
  intros Hc. split; [apply sortList_perm|]. split.
  - apply (sortList_sorted l Hc). intros x Hx. exact Hx.
  - intros x Hx. apply (sortList_ties l Hc); auto. intros y Hy. exact Hy.
Qed.

End SortFacts.

(** ** The heap program [shown] *)

Section HeapFacts.
Context {T : Type}.
Implicit Types (h : JsArray.Heap T) (a r : JsArray.ref) (v : list T).

Lemma newArray_fresh v h :
  h !! fst (JsArray.newArray v h) = None.
Proof.
  unfold JsArray.newArray. cbn [fst].
  apply not_elem_of_dom_1. apply is_fresh.
Qed.

Lemma own_alloc h0 h v :
  (forall a w, h0 !! a = Some w -> h !! a = Some w) ->
  own h0 (fst (JsArray.newArray v h)) (snd (JsArray.newArray v h)) v.
Proof.
  intros Hpre. pose proof (newArray_fresh v h) as Hf.
  unfold JsArray.newArray in *. cbn [fst snd] in *.
  set (r := fresh (dom h)) in *. split; [|split].
  - destruct (h0 !! r) as [w|] eqn:E; [|reflexivity].
    apply Hpre in E. congruence.
  - intros a w Ha. rewrite lookup_insert_ne; [now apply Hpre|].
    intros ->. apply Hpre in Ha. congruence.
  - apply lookup_insert_eq.
Qed.

Lemma own_slice h a v :
  h !! a = Some v ->
  own h (fst (JsArray.slice a h)) (snd (JsArray.slice a h)) v.
Proof.
  intros Ha. unfold JsArray.slice, JsArray.elements. rewrite Ha. cbn [default].
  apply own_alloc. auto.
Qed.

Lemma own_filter h0 h r v (p : T -> bool) :
  own h0 r h v ->
  own h0 (fst (JsArray.filter p r h)) (snd (JsArray.filter p r h)) (List.filter p v).
Proof.
  intros (_ & Hpre & Hr). unfold JsArray.filter, JsArray.elements.
  rewrite Hr. cbn [default]. now apply own_alloc.
Qed.

Lemma own_sort h0 h r v (comparefn : T -> T -> number) :
  own h0 r h v ->
  fst (JsArray.sort comparefn r h) = r /\
  own h0 r (snd (JsArray.sort comparefn r h)) (sortList comparefn v).
Proof.
  intros (Hnew & Hpre & Hr). unfold JsArray.sort, JsArray.elements.
  rewrite Hr. cbn [default fst snd]. split; [reflexivity|]. split; [exact Hnew|split].
  - intros a w Ha. rewrite lookup_insert_ne; [now apply Hpre|].
    intros ->. congruence.
  - apply lookup_insert_eq.
Qed.

Lemma own_filter_when h0 h r v (c : bool) (p : T -> bool) :
  own h0 r h v ->
  let res := (if c then JsArray.filter p r else JsArray.ret r) h in
  own h0 (fst res) (snd res) (List.filter (fun e => negb c || p e) v).
Proof.
  intros Hown. destruct c; cbn [negb orb].
  - now apply own_filter.
  - cbn. rewrite (List.forallb_filter_id (fun _ => true) v).
    + exact Hown.
    + now apply forallb_forall.
Qed.

End HeapFacts.

Lemma bind_run {T A B} (m : JsArray.M T A) (k : A -> JsArray.M T B) h :
  JsArray.bind m k h = k (fst (m h)) (snd (m h)).
Proof. unfold JsArray.bind. now destruct (m h). Qed.

Lemma filter_filter {A} (p q : A -> bool) (l : list A) :
  List.filter q (List.filter p l) = List.filter (fun x => p x && q x) l.
Proof.
  induction l as [|x r IH]; [reflexivity|]. cbn [List.filter].
  destruct (p x); cbn [List.filter andb]; [destruct (q x)|]; now rewrite IH.
Qed.

Section ViewFacts.
Variable localeCompare : string -> string -> number.

(** What [shown] leaves in the heap: a new array with the matching
    expenses, sorted; everything else as it was. *)
Lemma shown_own (st : State) (r : JsArray.ref) (h : JsArray.Heap Expense)
  (exps : list Expense) :
  h !! r = Some exps ->
  own h (fst (shown localeCompare st r h)) (snd (shown localeCompare st r h))
    (sortList (compareFn localeCompare (sortKey st) (sortDir st))
       (List.filter (matches st) exps)).
Proof.
  intros Hr. unfold shown. rewrite !bind_run.
  pose proof (own_slice h r exps Hr) as H.
  apply (own_filter_when h _ _ _ (negb (isEmpty (from st)))
    (fun e => (parseDate (from st) <=? parseDate (Expense.date e))%float)) in H.
  apply (own_filter_when h _ _ _ (negb (isEmpty (to st)))
    (fun e => (parseDate (Expense.date e) <=? parseDate (to st))%float)) in H.
  apply (own_filter_when h _ _ _ (negb (catFilter st =? "ALL")%string)
    (fun e => (Expense.category e =? catFilter st)%string)) in H.
  apply (own_sort h _ _ _ (compareFn localeCompare (sortKey st) (sortDir st))) in H
    as [_ H].
  rewrite !filter_filter in H.
  erewrite List.filter_ext in H; [exact H|].
  intros e. unfold matches. rewrite !negb_involutive. apply Bool.andb_assoc.
Qed.

Lemma shownList_eq (st : State) :
  shownList localeCompare st
  = sortList (compareFn localeCompare (sortKey st) (sortDir st))
      (List.filter (matches st) (expenses st)).
Proof.
  unfold shownList.
  pose proof (shown_own st 0%nat {[ 0%nat := expenses st ]} (expenses st)
                (lookup_singleton_eq _ _)) as (_ & _ & H).
  destruct (shown localeCompare st 0%nat _) as [r' h'].
  cbn [fst snd] in H. unfold JsArray.elements. now rewrite H.
Qed.

End ViewFacts.

(** ** Grouping *)

Lemma includes_In (l : list string) (c : string) : includes l c = true <-> In c l.
Proof.
  unfold includes. rewrite existsb_exists. split.
  - intros (x & Hx & E). apply String.eqb_eq in E. now subst.
  - intros H. exists c. split; [exact H|apply String.eqb_refl].
Qed.

Lemma includes_false (l : list string) (c : string) :
  includes l c = false <-> ~ In c l.
Proof.
  rewrite <- includes_In. destruct (includes l c); split; congruence.
Qed.

Lemma includes_app (l1 l2 : list string) (c : string) :
  includes (l1 ++ l2) c = includes l1 c || includes l2 c.
Proof. apply existsb_app. Qed.

Lemma distinct_snoc (l : list string) (k : string) :
  distinct (l ++ [k]) = if includes l k then distinct l else (distinct l ++ [k])%list.
Proof.
  induction l as [|x r IH]; [reflexivity|].
  cbn [app distinct includes existsb]. fold (includes r k). rewrite IH.
  destruct (String.eqb_spec x k) as [->|Hne]; cbn [orb].
  - destruct (includes r k); [reflexivity|].
    rewrite List.filter_app. cbn [List.filter]. rewrite String.eqb_refl.
    cbn [negb]. now rewrite app_nil_r.
  - destruct (includes r k); [reflexivity|].
    rewrite List.filter_app. cbn [List.filter].
    destruct (String.eqb_spec k x) as [->|_]; [congruence|reflexivity].
Qed.

Lemma distinct_In (l : list string) (k : string) : In k (distinct l) <-> In k l.
Proof.
  induction l as [|x r IH]; [reflexivity|]. cbn [distinct].
  destruct (String.eqb_spec k x) as [->|Hne].
  - split; intros _; now left.
  - split; (intros [E|H]; [congruence|right]).
    + apply List.filter_In in H. now apply IH.
    + apply List.filter_In. split; [now apply IH|].
      destruct (String.eqb_spec k x); [contradiction|reflexivity].
Qed.

Lemma distinct_NoDup (l : list string) : List.NoDup (distinct l).
Proof.
  induction l as [|x r IH]; cbn [distinct]; constructor.
  - rewrite List.filter_In, String.eqb_refl. cbn. intuition congruence.
  - now apply List.NoDup_filter.
Qed.

Lemma runningSum_snoc (l : list number) (a : number) :
  runningSum (l ++ [a]) = (orZero (runningSum l) + a)%float.
Proof. unfold runningSum. now rewrite fold_left_app. Qed.

Lemma amountsOf_snoc key k (l : list Expense) (e : Expense) :
  amountsOf key k (l ++ [e])
  = (amountsOf key k l ++ (if (key e =? k)%string then [Expense.amount e] else []))%list.
Proof.
  unfold amountsOf. rewrite List.filter_app, map_app. cbn [List.filter].
  now destruct (key e =? k)%string.
Qed.

Lemma amountsOf_absent key k (l : list Expense) :
  includes (map key l) k = false -> amountsOf key k l = [].
Proof.
  unfold amountsOf. induction l as [|x r IH]; [reflexivity|].
  cbn [map includes existsb List.filter]. fold (includes (map key r) k).
  intros H. apply orb_false_elim in H as [H1 H2]. rewrite H1. now apply IH.
Qed.

Lemma keys_set (m : JsMap.Map) (k : string) (v : number) :
  map fst (JsMap.set m k v)
  = if includes (map fst m) k then map fst m else (map fst m ++ [k])%list.
Proof.
  induction m as [|[k' v'] r IH]; [reflexivity|].
  cbn [JsMap.set map fst includes existsb]. fold (includes (map fst r) k).
  destruct (k' =? k)%string; cbn [orb map fst]; [reflexivity|].
  rewrite IH. now destruct (includes (map fst r) k).
Qed.

Lemma get_set (m : JsMap.Map) (k k' : string) (v : number) :
  JsMap.get (JsMap.set m k v) k'
  = if (k =? k')%string then Some v else JsMap.get m k'.
Proof.
  induction m as [|[k0 v0] r IH]; cbn [JsMap.set JsMap.get].
  - reflexivity.
  - destruct (String.eqb_spec k0 k) as [->|Hne]; cbn [JsMap.get].
    + now destruct (k =? k')%string.
    + rewrite IH. destruct (String.eqb_spec k0 k') as [->|Hne'].
      * destruct (String.eqb_spec k k') as [->|_]; [congruence|reflexivity].
      * reflexivity.
Qed.

Lemma groupInto_snoc key (l : list Expense) (e : Expense) :
  groupInto key (l ++ [e])
  = JsMap.set (groupInto key l) (key e)
      (JsMap.getOrZero (groupInto key l) (key e) + Expense.amount e)%float.
Proof. unfold groupInto. now rewrite fold_left_app. Qed.

Lemma groupInto_keys key (l : list Expense) :
  map fst (groupInto key l) = distinct (map key l).
Proof.
  induction l as [|e r IH] using rev_ind; [reflexivity|].
  rewrite groupInto_snoc, keys_set, map_app. cbn [map]. rewrite distinct_snoc, IH.
  assert (includes (distinct (map key r)) (key e) = includes (map key r) (key e)) as ->.
  { destruct (includes (map key r) (key e)) eqn:E.
    - apply includes_In, distinct_In, includes_In, E.
    - apply includes_false. rewrite distinct_In. now apply includes_false. }
  reflexivity.
Qed.

Lemma groupInto_get key (l : list Expense) (k : string) :
  JsMap.get (groupInto key l) k
  = if includes (map key l) k then Some (runningSum (amountsOf key k l)) else None.
Proof.
  induction l as [|e r IH] using rev_ind; [reflexivity|].
  rewrite groupInto_snoc, get_set, map_app, includes_app, amountsOf_snoc.
  cbn [map includes existsb]. rewrite orb_false_r.
  destruct (String.eqb_spec (key e) k) as [->|Hne].
  - rewrite orb_true_r, runningSum_snoc. unfold JsMap.getOrZero. rewrite IH.
    destruct (includes (map key r) k) eqn:E; [reflexivity|].
    now rewrite (amountsOf_absent key k r E).
  - rewrite orb_false_r, app_nil_r. exact IH.
Qed.

Lemma map_from_keys (m : JsMap.Map) :
  List.NoDup (map fst m) ->
  m = map (fun k => (k, default 0%float (JsMap.get m k))) (map fst m).
Proof.
  induction m as [|[k v] r IH]; [reflexivity|].
  cbn [map fst]. intros Hnd. apply List.NoDup_cons_iff in Hnd as [Hk Hr].
  cbn [JsMap.get]. rewrite String.eqb_refl. cbn [default]. f_equal.
  rewrite (IH Hr) at 1. apply map_ext_in. intros k' Hk'.
  destruct (String.eqb_spec k k') as [->|_]; [contradiction|reflexivity].
Qed.

(** The single pass over the map computes the sums group by group. *)
Lemma groupInto_grouped key (l : list Expense) :
  JsMap.entries (groupInto key l) = grouped key l.
Proof.
  unfold JsMap.entries, grouped.
  rewrite (map_from_keys (groupInto key l)) at 1.
  - rewrite groupInto_keys. apply map_ext_in. intros k Hk.
    rewrite groupInto_get.
    apply (proj1 (distinct_In _ _)) in Hk. apply (proj2 (includes_In _ _)) in Hk.
    now rewrite Hk.
  - rewrite groupInto_keys. apply distinct_NoDup.
Qed.

(** ** Numbers *)

Lemma positive_not_le_zero (x : number) :
  (0 <? x)%float = true -> (x <=? 0)%float = false.
Proof.
  rewrite ltb_spec, leb_spec.
  change (Prim2SF 0) with (S754_zero false).
  destruct (Prim2SF x) as [s|s| |s m e]; cbn; try discriminate; try reflexivity.
  all: destruct s; try discriminate; reflexivity.
Qed.

Lemma positive_not_nan (x : number) : (0 <? x)%float = true -> isNaN x = false.
Proof.
  unfold isNaN, is_nan. rewrite ltb_spec, FloatAxioms.eqb_spec.
  change (Prim2SF 0) with (S754_zero false).
  unfold SFltb, SFeqb.
  destruct (Prim2SF x) as [s|s| |s m e] eqn:E; cbn [SFcompare]; try discriminate.
  - destruct s; [discriminate|reflexivity].
  - destruct s; [discriminate|]. intros _.
    unfold Pos.compare. now rewrite Z.compare_refl, Pos.compare_cont_refl.
Qed.

Lemma jsonNumber_toJSON (x : number) : jsonNumber x = true -> numberToJSON x = JNum x.
Proof.
  unfold jsonNumber, numberToJSON. intros H.
  destruct (Prim2SF x) as [s|s| |s m e] eqn:E; try discriminate; [|reflexivity].
  destruct s; [discriminate|]. f_equal.
  rewrite <- (SF2Prim_Prim2SF x), E. reflexivity.
Qed.

(** ** Doubles that are integers *)

Lemma digits2_pos_bounds (m : positive) :
  2 ^ (Zpos (digits2_pos m) - 1) <= Zpos m < 2 ^ Zpos (digits2_pos m).
Proof.
  induction m as [m IH|m IH|]; cbn [digits2_pos].
  - rewrite Pos2Z.inj_succ, Z.pow_succ_r by lia.
    replace (Z.succ (Zpos (digits2_pos m)) - 1)
      with (Z.succ (Zpos (digits2_pos m) - 1)) by lia.
    rewrite Z.pow_succ_r by lia. lia.
  - rewrite Pos2Z.inj_succ, Z.pow_succ_r by lia.
    replace (Z.succ (Zpos (digits2_pos m)) - 1)
      with (Z.succ (Zpos (digits2_pos m) - 1)) by lia.
    rewrite Z.pow_succ_r by lia. lia.
  - cbn. lia.
Qed.

Lemma iter_pos_nat {A} (f : A -> A) (p : positive) (x : A) :
  SpecFloat.iter_pos f p x = Nat.iter (Pos.to_nat p) f x.
Proof.
  revert x. induction p as [p IH|p IH|]; intros x; cbn [SpecFloat.iter_pos].
  - rewrite !IH, Pos2Nat.inj_xI.
    replace (S (2 * Pos.to_nat p)) with (Pos.to_nat p + (Pos.to_nat p + 1))%nat by lia.
    rewrite !Nat.iter_add. reflexivity.
  - rewrite !IH, Pos2Nat.inj_xO.
    replace (2 * Pos.to_nat p)%nat with (Pos.to_nat p + Pos.to_nat p)%nat by lia.
    now rewrite Nat.iter_add.
  - reflexivity.
Qed.

Lemma shr_1_even (k : Z) :
  0 <= k ->
  shr_1 (Build_shr_record (2 * k) false false) = Build_shr_record k false false.
Proof. intros H. destruct k as [|p|p]; [reflexivity|reflexivity|lia]. Qed.

Lemma iter_shr_1_exact (n : nat) (k : Z) :
  0 <= k ->
  Nat.iter n shr_1 (Build_shr_record (k * 2 ^ Z.of_nat n) false false)
  = Build_shr_record k false false.
Proof.
  revert k. induction n as [|n IH]; intros k Hk.
  - cbn [Nat.iter]. now rewrite Z.mul_1_r.
  - rewrite Nat.iter_succ_r.
    replace (k * 2 ^ Z.of_nat (S n)) with (2 * (k * 2 ^ Z.of_nat n))
      by (rewrite Nat2Z.inj_succ, Z.pow_succ_r by lia; lia).
    rewrite shr_1_even by (apply Z.mul_nonneg_nonneg; [exact Hk|apply Z.pow_nonneg; lia]).
    now apply IH.
Qed.

Lemma digits2_pos_unique (m : positive) (d : Z) :
  2 ^ (d - 1) <= Zpos m < 2 ^ d -> Zpos (digits2_pos m) = d.
Proof.
  intros [Hlo Hhi]. pose proof (digits2_pos_bounds m) as [Blo Bhi].
  set (b := Zpos (digits2_pos m)) in *.
  assert (0 < b) by (subst b; lia).
  destruct (Z.lt_trichotomy b d) as [Hlt|[Heq|Hgt]]; [|exact Heq|].
  - exfalso. assert (2 ^ b <= 2 ^ (d - 1)) by (apply Z.pow_le_mono_r; lia). lia.
  - exfalso. assert (0 <= d).
    { destruct (Z.lt_ge_cases d 0) as [Hn|Hn]; [|exact Hn].
      rewrite (Z.pow_neg_r 2 d Hn) in Hhi. lia. }
    assert (2 ^ d <= 2 ^ (b - 1)) by (apply Z.pow_le_mono_r; lia). lia.
Qed.








(** ** Reading back what [toFixed] writes *)

Lemma append_cons (x : ascii) (a b : string) : String x a +:+ b = String x (a +:+ b).
Proof. reflexivity. Qed.

Lemma append_assoc (a b c : string) : (a +:+ b) +:+ c = a +:+ (b +:+ c).
Proof.
  induction a as [|x a IH]; [reflexivity|]. rewrite !append_cons. now f_equal.
Qed.

Lemma append_nil_r (a : string) : a +:+ "" = a.
Proof.
  induction a as [|x a IH]; [reflexivity|]. rewrite append_cons. now f_equal.
Qed.

Lemma length_append (a b : string) :
  String.length (a +:+ b) = (String.length a + String.length b)%nat.
Proof.
  induction a as [|x a IH]; [reflexivity|]. rewrite append_cons.
  cbn [String.length]. now rewrite IH.
Qed.

Lemma allDigits_append (a b : string) :
  allDigits (a +:+ b) = allDigits a && allDigits b.
Proof.
  induction a as [|x a IH]; [reflexivity|]. rewrite append_cons.
  cbn [allDigits]. now rewrite IH, andb_assoc.
Qed.

Lemma valueFrom_append (acc : Z) (a b : string) :
  valueFrom acc (a +:+ b) = valueFrom (valueFrom acc a) b.
Proof.
  revert acc. induction a as [|x a IH]; intros acc; [reflexivity|].
  rewrite append_cons. cbn [valueFrom]. apply IH.
Qed.

Lemma scanDigits_digits (acc : Z) (cnt : nat) (p r : string) :
  allDigits p = true ->
  scanDigits acc cnt (p +:+ r)
  = scanDigits (valueFrom acc p) (cnt + String.length p) r.
Proof.
  revert acc cnt. induction p as [|c p IH]; intros acc cnt H.
  - change ("" +:+ r) with r. cbn [valueFrom String.length]. now rewrite Nat.add_0_r.
  - cbn [allDigits] in H. apply andb_prop in H as [Hc Hp].
    rewrite append_cons. cbn [scanDigits]. rewrite Hc, (IH _ _ Hp). cbn [valueFrom String.length].
    f_equal. lia.
Qed.

Lemma pretty_N_char_digit (d : N) :
  (d < 10)%N ->
  isDigit (pretty_N_char d) = true /\ digitValue (pretty_N_char d) = Z.of_N d.
Proof.
  intros H.
  assert (d = 0 \/ d = 1 \/ d = 2 \/ d = 3 \/ d = 4 \/ d = 5 \/ d = 6 \/ d = 7
          \/ d = 8 \/ d = 9)%N as Hd by lia.
  repeat (destruct Hd as [->|Hd]; [split; reflexivity|]). subst. split; reflexivity.
Qed.

Lemma pretty_N_go_digits (x : N) (s : string) :
  exists p, pretty_N_go x s = p +:+ s /\ allDigits p = true /\
            valueFrom 0 p = Z.of_N x /\ (0 < x -> p <> "")%N.
Proof.
  revert s. induction (N.lt_wf_0 x) as [x _ IH]. intros s.
  destruct (N.eq_dec x 0%N) as [->|Hx].
  - exists "". rewrite pretty_N_go_0. repeat split. lia.
  - assert (0 < x)%N as Hpos by lia.
    rewrite (pretty_N_go_step x s Hpos).
    destruct (IH (x / 10)%N (N.div_lt x 10 Hpos eq_refl)
                (String (pretty_N_char (x mod 10)) s)) as (p & Hp & Hd & Hv & _).
    destruct (pretty_N_char_digit (x mod 10)%N) as [Hc1 Hc2];
      [now apply N.mod_lt|].
    exists (p +:+ String (pretty_N_char (x mod 10)) "").
    rewrite Hp, append_assoc. split; [reflexivity|]. split; [|split].
    + rewrite allDigits_append, Hd. cbn [allDigits andb]. now rewrite Hc1.
    + rewrite valueFrom_append, Hv. cbn [valueFrom]. rewrite Hc2.
      rewrite (N.div_mod x 10) at 3 by lia. lia.
    + intros _. destruct p; discriminate.
Qed.

Lemma digitsOf_digits (n : Z) :
  0 <= n ->
  allDigits (digitsOf n) = true /\ valueFrom 0 (digitsOf n) = n /\ digitsOf n <> "".
Proof.
  intros Hn. unfold digitsOf, pretty, pretty_N.
  destruct (decide (Z.to_N n = 0%N)) as [E|E].
  - assert (n = 0) as -> by lia. repeat split. discriminate.
  - destruct (pretty_N_go_digits (Z.to_N n) "") as (p & Hp & Hd & Hv & Hne).
    rewrite Hp, append_nil_r. split; [exact Hd|]. split; [lia|]. apply Hne. lia.
Qed.

Lemma takeStr_dropStr (i : nat) (s : string) : takeStr i s +:+ dropStr i s = s.
Proof.
  revert s. induction i as [|i IH]; intros [|c s]; try reflexivity.
  cbn [takeStr dropStr]. rewrite append_cons. now f_equal.
Qed.

Lemma length_takeStr (i : nat) (s : string) :
  (i <= String.length s)%nat -> String.length (takeStr i s) = i.
Proof.
  revert s. induction i as [|i IH]; intros [|c s] H; cbn in *; try reflexivity; try lia.
  f_equal. apply IH. lia.
Qed.

Lemma allDigits_repeat (j : nat) : allDigits (repeatChar "0" j) = true.
Proof. induction j as [|j IH]; [reflexivity|]. cbn [repeatChar allDigits]. now rewrite IH. Qed.

Lemma valueFrom_repeat (j : nat) : valueFrom 0 (repeatChar "0" j) = 0.
Proof. induction j as [|j IH]; [reflexivity|]. cbn [repeatChar valueFrom]. exact IH. Qed.

Lemma length_repeat (c : ascii) (j : nat) : String.length (repeatChar c j) = j.
Proof. induction j as [|j IH]; [reflexivity|]. cbn [repeatChar String.length]. now f_equal. Qed.

(** A digit is no white space, no sign and not the start of [Infinity]. *)
Lemma digit_first (c : ascii) (r : string) :
  isDigit c = true ->
  trimStart (String c r) = String c r /\
  scanSign (String c r) = (false, String c r) /\
  startsWith "Infinity" (String c r) = false.
Proof.
  destruct c as [[] [] [] [] [] [] [] []]; try discriminate; intros _;
    repeat split; reflexivity.
Qed.

(** What is read from the digits [a], a point and the digits [b]. *)
Lemma scanUnsigned_point (neg : bool) (a b : string) :
  a <> "" -> allDigits a = true -> allDigits b = true ->
  scanUnsigned neg (a +:+ "." +:+ b)
  = Some (LitDecimal neg (valueFrom 0 (a +:+ b)) (0 - Z.of_nat (String.length b)), "").
Proof.
  intros Ha Hda Hdb. unfold scanUnsigned.
  assert (startsWith "Infinity" (a +:+ "." +:+ b) = false) as ->.
  { destruct a as [|c a]; [contradiction|].
    cbn [allDigits] in Hda. apply andb_prop in Hda as [Hc _].
    rewrite append_cons. now apply digit_first. }
  rewrite (scanDigits_digits _ _ a _ Hda).
  change ("." +:+ b) with (String "." b). cbn [scanDigits].
  change (isDigit ".") with false. cbv iota.
  rewrite <- (append_nil_r b) at 1.
  rewrite (scanDigits_digits _ _ b "" Hdb). cbn [scanDigits].
  rewrite valueFrom_append. cbn [Nat.add].
  destruct a as [|c a]; [contradiction|]. cbn [String.length].
  reflexivity.
Qed.

Lemma parseFloat_point (neg : bool) (a b : string) :
  a <> "" -> allDigits a = true -> allDigits b = true ->
  parseFloat ((if neg then "-" else "") +:+ a +:+ "." +:+ b)
  = literalValue
      (LitDecimal neg (valueFrom 0 (a +:+ b)) (0 - Z.of_nat (String.length b))).
Proof.
  intros Ha Hda Hdb. unfold parseFloat, scanDecimal. destruct neg.
  - change ("-" +:+ a +:+ "." +:+ b) with (String "-" (a +:+ "." +:+ b)).
    cbn [trimStart]. change (isWhiteSpace "-") with false. cbv iota.
    cbn [scanSign]. now rewrite (scanUnsigned_point true a b Ha Hda Hdb).
  - change ("" +:+ a +:+ "." +:+ b) with (a +:+ "." +:+ b).
    destruct a as [|c a]; [contradiction|].
    pose proof Hda as Hda'. cbn [allDigits] in Hda'. apply andb_prop in Hda' as [Hc _].
    rewrite append_cons.
    destruct (digit_first c (a +:+ "." +:+ b) Hc) as (-> & -> & _).
    rewrite <- append_cons.
    now rewrite (scanUnsigned_point false (String c a) b Ha Hda Hdb).
Qed.

Lemma scaledNearest_nonneg (f : nat) (m : positive) (e : Z) : 0 <= scaledNearest f m e.
Proof.
  unfold scaledNearest. destruct (0 <=? e) eqn:E.
  - apply Z.leb_le in E. apply Z.mul_nonneg_nonneg; [|now apply Z.pow_nonneg].
    apply Z.mul_nonneg_nonneg; [apply Z.pow_nonneg|]; lia.
  - apply Z.leb_gt in E. apply Z.div_pos.
    + assert (0 <= 10 ^ Z.of_nat f) by (apply Z.pow_nonneg; lia).
      assert (0 <= 2 ^ (- e)) by (apply Z.pow_nonneg; lia). nia.
    + apply Z.pow_pos_nonneg; lia.
Qed.

(** [toFixed]'s notation of [n] hundredths reads back as the double
    nearest to [n / 100]. *)
Lemma parseFloat_fixedNotation (neg : bool) (n : Z) :
  0 <= n ->
  parseFloat ((if neg then "-" else "") +:+ fixedNotation n 2)
  = withSign neg (nearestDouble n 100).
Proof.
  intros Hn. destruct (digitsOf_digits n Hn) as (Hd & Hv & Hne).
  unfold fixedNotation.
  set (ds := if (String.length (digitsOf n) <=? 2)%nat
             then repeatChar "0" (2 + 1 - String.length (digitsOf n)) +:+ digitsOf n
             else digitsOf n).
  assert (allDigits ds = true /\ valueFrom 0 ds = n /\ (3 <= String.length ds)%nat)
    as (Hd' & Hv' & Hl').
  { subst ds. destruct (Nat.leb_spec (String.length (digitsOf n)) 2) as [Hk|Hk].
    - rewrite allDigits_append, allDigits_repeat, Hd, valueFrom_append,
        valueFrom_repeat, Hv, length_append, length_repeat.
      repeat split. lia.
    - repeat split; [exact Hd|exact Hv|lia]. }
  set (k := String.length ds) in *.
  pose proof (takeStr_dropStr (k - 2) ds) as Hsplit.
  pose proof (length_takeStr (k - 2) ds ltac:(lia)) as Hla.
  assert (String.length (dropStr (k - 2) ds) = 2%nat) as Hlb.
  { pose proof (f_equal String.length Hsplit) as Hlen.
    rewrite length_append, Hla in Hlen. fold k in Hlen. lia. }
  pose proof Hd' as Hdd. rewrite <- Hsplit, allDigits_append in Hdd.
  apply andb_prop in Hdd as [Hda Hdb].
  rewrite parseFloat_point; auto.
  - rewrite Hsplit, Hv', Hlb. reflexivity.
  - intros E. rewrite E in Hla. cbn in Hla. lia.
Qed.

(** [parseFloat(x.toFixed(2))] is [x] rounded to two decimals, for
    every [x] below [1e21] in size. *)
Lemma parseFloat_toFixed (x : number) :
  (1e21 <=? abs x)%float = false ->
  parseFloat (toFixed x 2) = roundedTo 2 x.
Proof.
  intros Hsmall. unfold toFixed, roundedTo.
  destruct (Prim2SF x) as [s|s| |s m e] eqn:E.
  - vm_compute. reflexivity.
  - rewrite <- (SF2Prim_Prim2SF x), E. destruct s; vm_compute; reflexivity.
  - rewrite <- (SF2Prim_Prim2SF x), E. vm_compute. reflexivity.
  - rewrite Hsmall.
    rewrite (parseFloat_fixedNotation s _ (scaledNearest_nonneg 2 m e)).
    reflexivity.
Qed.

(** ** Reading back what [toString] writes from [1e21] on *)





(** [shortestFrom] gives digits that read back as [x], for a finite [x]
    other than zero whose exact value [X] has [d] digits. *)
Section Shortest.

Variables (x : number) (s0 : bool) (m0 : positive) (e0 : Z).
Hypothesis Hx : Prim2SF x = S754_finite s0 m0 e0.
Variables (X : Z) (d : nat).
Hypothesis HX : 10 ^ Z.of_nat (d - 1) <= X < 10 ^ Z.of_nat d.



Hypothesis Hexact : nearestDouble X 1 = x.
Hypothesis Hd : d = String.length (digitsOf X).


End Shortest.






(** ** Export, import and load *)

Lemma asExpense_toJSON (e : Expense) :
  jsonNumber (Expense.amount e) = true -> asExpense (expenseToJSON e) = Some e.
Proof.
  intros H. unfold expenseToJSON. rewrite (jsonNumber_toJSON _ H).
  destruct e as [i d a c [n|]]; reflexivity.
Qed.

Lemma allOf_map {A B} (f : A -> option B) (g : B -> A) (l : list B) :
  List.Forall (fun x => f (g x) = Some x) l -> allOf f (map g l) = Some l.
Proof.
  induction 1 as [|x r Hx _ IH]; [reflexivity|].
  cbn [map allOf]. now rewrite Hx, IH.
Qed.

Lemma allOf_strings (l : list string) : allOf asString (map JStr l) = Some l.
Proof. apply allOf_map. apply List.Forall_forall. reflexivity. Qed.

Lemma allOf_expenses (l : list Expense) :
  List.Forall (fun e => jsonNumber (Expense.amount e) = true) l ->
  allOf asExpense (map expenseToJSON l) = Some l.
Proof.
  intros H. apply allOf_map. eapply List.Forall_impl; [|exact H].
  intros e. apply asExpense_toJSON.
Qed.

Lemma set_same (st : State) :
  setCategories (fun _ => categories st) (setExpenses (fun _ => expenses st) st) = st.
Proof. now destruct st. Qed.

(** Importing the exported document puts both collections in place. *)
Lemma importJSON_exportJSON (st : State) (w : Handler.World) :
  List.Forall (fun e => jsonNumber (Expense.amount e) = true) (expenses st) ->
  importJSON (Document (exportJSON st)) w
  = Handler.Returned tt
      (Handler.mkWorld
         (setCategories (fun _ => categories st)
            (setExpenses (fun _ => expenses st) (Handler.state w)))
         (Handler.alerts w)).
Proof.
  intros H. unfold importJSON, exportJSON, Handler.tryCatch, Handler.bind.
  cbn [JSON_parse Handler.ret getProperty lookupField String.eqb Ascii.eqb Bool.eqb
       whenArray].
  unfold Handler.bind, Handler.typed.
  rewrite (allOf_expenses _ H). cbn [Handler.ret Handler.update Handler.state Handler.alerts].
  cbn [lookupField String.eqb Ascii.eqb Bool.eqb whenArray].
  unfold Handler.bind, Handler.typed.
  rewrite allOf_strings. reflexivity.
Qed.

(** An import changes the expenses only by putting the file's in place. *)
Lemma whenArray_expenses (v : option json) (w : Handler.World) (st' : State) :
  stateOf (whenArray v asExpense (fun l => setExpenses (fun _ => l)) w) = Some st' ->
  categories st' = categories (Handler.state w) /\
  (expenses st' = expenses (Handler.state w) \/ arrayOfExpenses v = Some (expenses st')).
Proof.
  destruct v as [[| | | |items|]|]; cbn; try (intros [= <-]; auto).
  unfold Handler.bind, Handler.typed.
  destruct (allOf asExpense items) as [l|]; cbn; [|discriminate].
  intros [= <-]. auto.
Qed.

Lemma whenArray_categories (v : option json) (w : Handler.World) (st' : State) :
  stateOf (whenArray v asString (fun l => setCategories (fun _ => l)) w) = Some st' ->
  expenses st' = expenses (Handler.state w).
Proof.
  destruct v as [[| | | |items|]|]; cbn; try (intros [= <-]; auto).
  unfold Handler.bind, Handler.typed.
  destruct (allOf asString items) as [l|]; cbn; [|discriminate].
  now intros [= <-].
Qed.

Lemma whenArray_returns {A} (v : option json) (elem : json -> option A)
  (store : list A -> State -> State) (w w' : Handler.World) :
  whenArray v elem store w <> Handler.Thrown w'.
Proof.
  destruct v as [[| | | |items|]|]; cbn; try discriminate.
  unfold Handler.bind, Handler.typed.
  destruct (allOf elem items); cbn; discriminate.
Qed.

Lemma importJSON_expenses (file : FileContent) (st st' : State) :
  stateOf (importJSON file (Handler.mkWorld st [])) = Some st' ->
  expenses st' = expenses st \/ importedExpenses file = Some (expenses st').
Proof.
  unfold importJSON, Handler.tryCatch, Handler.bind.
  destruct file as [|j]; cbn [JSON_parse Handler.throw Handler.ret].
  { cbn. intros [= <-]. now left. }
  destruct j as [| | | |items|fields];
    cbn [getProperty Handler.throw Handler.ret whenArray importedExpenses];
    try (cbn; intros [= <-]; now left).
  destruct (whenArray (lookupField fields "expenses") asExpense _ _) as [[] w1|w1|] eqn:E1;
    [|now apply whenArray_returns in E1|cbn; discriminate].
  destruct (whenArray (lookupField fields "categories") asString _ w1)
    as [[] w2|w2|] eqn:E2;
    [|now apply whenArray_returns in E2|cbn; discriminate].
  - cbn [stateOf]. intros [= <-].
    assert (stateOf (whenArray (lookupField fields "categories") asString
              (fun l => setCategories (fun _ => l)) w1) = Some (Handler.state w2)) as H2
      by now rewrite E2.
    apply whenArray_categories in H2. rewrite H2.
    assert (stateOf (whenArray (lookupField fields "expenses") asExpense
              (fun l => setExpenses (fun _ => l)) (Handler.mkWorld st []))
            = Some (Handler.state w1)) as H1 by now rewrite E1.
    apply whenArray_expenses in H1 as [_ H1]. exact H1.
Qed.

Lemma whenStored_expenses (raw : option FileContent) (w : Handler.World) :
  match whenStored raw asExpense (fun l => setExpenses (fun _ => l)) w with
  | Handler.Returned _ w' =>
      expenses (Handler.state w') = expenses (Handler.state w)
      \/ storedExpenses raw = Some (expenses (Handler.state w'))
  | Handler.Thrown w' => w' = w
  | Handler.Untyped => True
  end.
Proof.
  destruct raw as [[|j]|]; cbn; auto.
  destruct j as [| | | |items|]; cbn; auto.
  unfold Handler.bind, Handler.typed.
  destruct (allOf asExpense items) as [l|]; cbn; auto.
Qed.

Lemma whenStored_categories (cats : option FileContent) (w : Handler.World) :
  match whenStored cats asString (fun l => setCategories (fun _ => l)) w with
  | Handler.Returned _ w' => expenses (Handler.state w') = expenses (Handler.state w)
  | Handler.Thrown w' => w' = w
  | Handler.Untyped => True
  end.
Proof.
  destruct cats as [[|j]|]; cbn; auto.
  destruct j as [| | | |items|]; cbn; auto.
  unfold Handler.bind, Handler.typed.
  destruct (allOf asString items) as [l|]; cbn; auto.
Qed.

Lemma loadStorage_expenses (raw cats : option FileContent) (st st' : State) :
  stateOf (loadStorage raw cats (Handler.mkWorld st [])) = Some st' ->
  expenses st' = expenses st \/ storedExpenses raw = Some (expenses st').
Proof.
  unfold loadStorage, Handler.tryCatch, Handler.bind.
  pose proof (whenStored_expenses raw (Handler.mkWorld st [])) as H1.
  destruct (whenStored raw asExpense _ _) as [[] w1|w1|].
  - pose proof (whenStored_categories cats w1) as H2.
    destruct (whenStored cats asString _ w1) as [[] w2|w2|]; cbn.
    + intros [= <-]. rewrite H2. exact H1.
    + intros [= <-]. subst w2. exact H1.
    + discriminate.
  - subst w1. cbn. intros [= <-]. now left.
  - cbn. discriminate.
Qed.

(** ** Identifiers *)

Lemma NoDup_ids_filter (p : Expense -> bool) (l : list Expense) :
  List.NoDup (ids l) -> List.NoDup (ids (List.filter p l)).
Proof.
  unfold ids. induction l as [|e r IH]; [trivial|].
  cbn [map List.filter]. intros H. apply List.NoDup_cons_iff in H as [Hn Hr].
  destruct (p e); [|now apply IH].
  cbn [map]. constructor; [|now apply IH].
  intros Hin. apply Hn. apply in_map_iff in Hin as (x & Hx & Hf).
  apply in_map_iff. exists x. split; [exact Hx|].
  now apply List.filter_In in Hf.
Qed.

Lemma addExpense_expenses (newId : string) (st : State) :
  expenses (addExpense newId st) = expenses st \/
  exists e, Expense.id e = newId /\ expenses (addExpense newId st) = e :: expenses st.
Proof.
  unfold addExpense.
  destruct (isEmpty (date st) || isNaN (parseFloat (amount st))
            || (parseFloat (amount st) <=? 0)%float || isEmpty (category st)).
  - now left.
  - right. eexists. split; [|reflexivity]. reflexivity.
Qed.

Lemma addCategory_expenses (newCat : string) (st : State) :
  expenses (addCategory newCat st) = expenses st.
Proof.
  unfold addCategory.
  destruct (isEmpty (trim newCat)); [reflexivity|].
  destruct (includes (categories st) (trim newCat)); reflexivity.
Qed.

Lemma handle_unique (ev : Event) (st st' : State) :
  freshIds ev st -> handle ev st = Some st' ->
  List.NoDup (ids (expenses st)) -> List.NoDup (ids (expenses st')).
Proof.
  intros Hfresh Hh Hnd. destruct ev; cbn [handle freshIds] in *.
  - injection Hh as <-.
    destruct (addExpense_expenses newId st) as [->|(e & <- & ->)]; [exact Hnd|].
    cbn. now constructor.
  - injection Hh as <-. now apply NoDup_ids_filter.
  - injection Hh as <-. destruct confirmed; [constructor|exact Hnd].
  - injection Hh as <-. now rewrite addCategory_expenses.
  - apply importJSON_expenses in Hh as [->|Hh]; [exact Hnd|]. now apply Hfresh.
  - apply loadStorage_expenses in Hh as [->|Hh]; [exact Hnd|]. now apply Hfresh.
  - injection Hh as <-. exact Hnd.
Qed.

(** ** The order of doubles and the sign of a difference *)

Lemma shr_1_m (r : shr_record) :
  0 <= shr_m r -> shr_m (shr_1 r) = shr_m r / 2.
Proof.
  destruct r as [m b s]. cbn [shr_m shr_1]. intros Hm.
  destruct m as [|[p|p|]|p]; cbn [shr_m].
  - reflexivity.
  - rewrite Pos2Z.inj_xI. apply Z.div_unique with 1; lia.
  - rewrite Pos2Z.inj_xO. apply Z.div_unique with 0; lia.
  - reflexivity.
  - lia.
Qed.

Lemma iter_shr_1_m (p : positive) (r : shr_record) :
  0 <= shr_m r -> shr_m (SpecFloat.iter_pos shr_1 p r) = shr_m r / 2 ^ Zpos p.
Proof.
  revert r. induction p as [p IH|p IH|]; intros r Hr; cbn [SpecFloat.iter_pos].
  - assert (0 < 2 ^ Zpos p) as Hp by (apply Z.pow_pos_nonneg; lia).
    assert (0 <= shr_m (shr_1 r)) as H1
      by (rewrite shr_1_m by exact Hr; apply Z.div_pos; lia).
    assert (0 <= shr_m (SpecFloat.iter_pos shr_1 p (shr_1 r))) as H2
      by (rewrite IH by exact H1; apply Z.div_pos; lia).
    rewrite (IH _ H2), (IH _ H1), shr_1_m by exact Hr.
    rewrite !Z.div_div by lia.
    assert (2 ^ Zpos (xI p) = 2 * 2 ^ Zpos p * 2 ^ Zpos p) as ->; [|now rewrite Z.mul_assoc].
    rewrite <- Z.mul_assoc, <- Z.pow_add_r, <- Z.pow_succ_r by lia. f_equal. lia.

  - assert (0 < 2 ^ Zpos p) as Hp by (apply Z.pow_pos_nonneg; lia).
    assert (0 <= shr_m (SpecFloat.iter_pos shr_1 p r)) as H1
      by (rewrite IH by exact Hr; apply Z.div_pos; lia).
    rewrite (IH _ H1), (IH _ Hr).
    rewrite !Z.div_div by lia.
    assert (2 ^ Zpos (xO p) = 2 ^ Zpos p * 2 ^ Zpos p) as ->; [|reflexivity].
    rewrite <- Z.pow_add_r by lia. f_equal. lia.
  - rewrite shr_1_m by exact Hr. reflexivity.
Qed.

Lemma fexp_ge_emin (e : Z) : emin <= fexp prec emax e.
Proof. unfold fexp. apply Z.le_max_r. Qed.

Lemma shr_fexp_pos (m : positive) (e : Z) :
  emin <= e ->
  0 < shr_m (fst (shr_fexp prec emax (Zpos m) e loc_Exact)) /\
  emin <= snd (shr_fexp prec emax (Zpos m) e loc_Exact).
Proof.
  intros He. unfold shr_fexp, shr. cbn [Zdigits2 shr_record_of_loc].
  pose proof (digits2_pos_bounds m) as [Hlo _].
  set (d := Zpos (digits2_pos m)) in *.
  destruct (fexp prec emax (d + e) - e) as [|p|p] eqn:En; cbn [fst snd shr_m];
    try (split; lia).
  rewrite iter_shr_1_m by (cbn; lia). cbn [shr_m].
  assert (Zpos p = d - prec /\ prec < d) as [Hp Hd].
  { unfold fexp, SpecFloat.emin, prec, emax in *. lia. }
  split; [|lia].
  apply Z.div_str_pos. split; [apply Z.pow_pos_nonneg; lia|].
  apply Z.le_trans with (2 ^ (d - 1)); [|exact Hlo].
  apply Z.pow_le_mono_r; unfold prec in *; lia.
Qed.

Lemma round_nearest_even_pos (m : Z) (l : location) :
  0 < m -> 0 < round_nearest_even m l.
Proof.
  intros Hm. destruct l as [|[]]; cbn [round_nearest_even]; try lia.
  destruct (Z.even m); lia.
Qed.

Lemma binary_round_aux_sign (sx : bool) (m : positive) (e : Z) :
  emin <= e ->
  sfSign (binary_round_aux prec emax sx (Zpos m) e loc_Exact) = if sx then Lt else Gt.
Proof.
  intros He. unfold binary_round_aux.
  destruct (shr_fexp_pos m e He) as [H1 H1e].
  destruct (shr_fexp prec emax (Zpos m) e loc_Exact) as [r1 e1]. cbn [fst snd] in *.
  pose proof (round_nearest_even_pos (shr_m r1) (loc_of_shr_record r1) H1) as H2.
  destruct (round_nearest_even (shr_m r1) (loc_of_shr_record r1)) as [|m2|m2];
    try lia.
  destruct (shr_fexp_pos m2 e1 H1e) as [H3 _].
  destruct (shr_fexp prec emax (Zpos m2) e1 loc_Exact) as [r2 e2]. cbn [fst snd] in *.
  destruct (shr_m r2) as [|m3|m3]; try lia.
  destruct (e2 <=? emax - prec); reflexivity.
Qed.

Lemma binary_round_sign (sx : bool) (m : positive) (e : Z) :
  emin <= e ->
  sfSign (binary_round prec emax sx m e) = if sx then Lt else Gt.
Proof.
  intros He. unfold binary_round, shl_align.
  destruct (fexp prec emax (Zpos (digits2_pos m) + e) - e) eqn:E;
    apply binary_round_aux_sign; try exact He.
  pose proof (fexp_ge_emin (Zpos (digits2_pos m) + e)). lia.
Qed.

Lemma binary_normalize_sign (d e : Z) :
  emin <= e -> sfSign (binary_normalize prec emax d e false) = (d ?= 0).
Proof.
  intros He. destruct d as [|m|m]; cbn [binary_normalize].
  - reflexivity.
  - now rewrite binary_round_sign.
  - now rewrite binary_round_sign.
Qed.

Lemma iter_xO_value (m d : positive) : Zpos (Pos.iter xO m d) = Zpos m * 2 ^ Zpos d.
Proof.
  induction d as [|d IH] using Pos.peano_ind.
  - cbn. lia.
  - rewrite Pos.iter_succ, Pos2Z.inj_xO, IH, Pos2Z.inj_succ, Z.pow_succ_r by lia. lia.
Qed.

Lemma shl_align_value (m : positive) (e ez : Z) :
  ez <= e -> Zpos (fst (shl_align m e ez)) = Zpos m * 2 ^ (e - ez).
Proof.
  intros H. unfold shl_align.
  destruct (ez - e) as [|p|p] eqn:E; cbn [fst].
  - replace (e - ez) with 0 by lia. lia.
  - lia.
  - rewrite iter_xO_value. f_equal. f_equal. lia.
Qed.

(** A canonical mantissa has at most 53 binary digits, exactly 53 above
    the least exponent. *)
Lemma bounded_digits (m : positive) (e : Z) :
  bounded prec emax m e = true ->
  emin <= e /\ Zpos m < 2 ^ prec /\ (emin < e -> 2 ^ (prec - 1) <= Zpos m).
Proof.
  unfold bounded, canonical_mantissa. intros H.
  apply andb_prop in H as [H _]. apply Z.eqb_eq in H.
  pose proof (digits2_pos_bounds m) as [Hlo Hhi].
  set (d := Zpos (digits2_pos m)) in *.
  unfold fexp, SpecFloat.emin, prec, emax in *.
  assert (0 < d) by (subst d; lia).
  split; [lia|]. split.
  - apply Z.lt_le_trans with (2 ^ d); [exact Hhi|].
    apply Z.pow_le_mono_r; lia.
  - intros He. assert (d = 53) as Hd by lia. rewrite Hd in Hlo. exact Hlo.
Qed.

(** Of two canonical positive numbers the one with the smaller exponent
    is the smaller. *)
Lemma bounded_lt (mx my : positive) (ex ey : Z) :
  bounded prec emax mx ex = true -> bounded prec emax my ey = true ->
  ex < ey -> Zpos mx < Zpos my * 2 ^ (ey - ex).
Proof.
  intros Hx Hy Hlt.
  destruct (bounded_digits mx ex Hx) as (Hex & Hmx & _).
  destruct (bounded_digits my ey Hy) as (_ & _ & Hmy).
  specialize (Hmy ltac:(lia)).
  assert (2 ^ 1 <= 2 ^ (ey - ex)) as Hp by (apply Z.pow_le_mono_r; lia).
  change (2 ^ 1) with 2 in Hp.
  assert (2 ^ prec = 2 * 2 ^ (prec - 1)) as Hpp by reflexivity.
  nia.
Qed.

(** The sign of a difference is the order of its terms. *)
Lemma SFsub_sign (x y : spec_float) :
  valid_binary x = true -> valid_binary y = true ->
  sfSign (SF64sub x y) = compareClass (SFcompare x y).
Proof.
  intros Hx Hy. unfold SF64sub.
  destruct x as [sx|sx| |sx mx ex], y as [sy|sy| |sy my ey];
    try reflexivity;
    try (destruct sx; try destruct sy; reflexivity);
    try (destruct sy; reflexivity).
  cbn [valid_binary SpecFloat.valid_binary] in Hx, Hy.
  destruct (bounded_digits mx ex Hx) as (Hex & _ & _).
  destruct (bounded_digits my ey Hy) as (Hey & _ & _).
  cbn [SFsub]. rewrite binary_normalize_sign by lia.
  rewrite !shl_align_value by lia.
  cbn [SFcompare compareClass].
  destruct (Z.compare_spec ex ey) as [->|Hlt|Hgt].
  - rewrite Z.min_id, Z.sub_diag, !Z.mul_1_r.
    change (Pos.compare_cont Eq mx my) with (Pos.compare mx my).
    destruct sx, sy; cbn [cond_Zopp].
    + destruct (Pos.compare_spec mx my); cbn [CompOpp];
        [apply Z.compare_eq_iff|apply Z.compare_gt_iff|apply Z.compare_lt_iff]; lia.
    + apply Z.compare_lt_iff. lia.
    + apply Z.compare_gt_iff. lia.
    + destruct (Pos.compare_spec mx my);
        [apply Z.compare_eq_iff|apply Z.compare_lt_iff|apply Z.compare_gt_iff]; lia.
  - rewrite Z.min_l, Z.sub_diag, Z.mul_1_r by lia.
    pose proof (bounded_lt mx my ex ey Hx Hy Hlt).
    destruct sx, sy; cbn [cond_Zopp];
      [apply Z.compare_gt_iff|apply Z.compare_lt_iff|apply Z.compare_gt_iff
      |apply Z.compare_lt_iff]; lia.
  - rewrite Z.min_r, Z.sub_diag, Z.mul_1_r by lia.
    pose proof (bounded_lt my mx ey ex Hy Hx Hgt).
    destruct sx, sy; cbn [cond_Zopp];
      [apply Z.compare_lt_iff|apply Z.compare_lt_iff|apply Z.compare_gt_iff
      |apply Z.compare_gt_iff]; lia.
Qed.

Lemma SFltb_zero_r (f : spec_float) :
  SFltb f (S754_zero false) = match sfSign f with Lt => true | _ => false end.
Proof. destruct f as [s|s| |s m e]; try destruct s; reflexivity. Qed.

Lemma SFltb_zero_l (f : spec_float) :
  SFltb (S754_zero false) f = match sfSign f with Gt => true | _ => false end.
Proof. destruct f as [s|s| |s m e]; try destruct s; reflexivity. Qed.

Lemma lex3_Lt (a1 a2 a3 b1 b2 b3 : Z) :
  lex3 (a1, a2, a3) (b1, b2, b3) = Lt
  <-> a1 < b1 \/ (a1 = b1 /\ (a2 < b2 \/ (a2 = b2 /\ a3 < b3))).
Proof.
  cbn [lex3].
  destruct (Z.compare_spec a1 b1); [|split; [lia|reflexivity]|split; [discriminate|lia]].
  destruct (Z.compare_spec a2 b2); [|split; [lia|reflexivity]|split; [discriminate|lia]].
  rewrite Z.compare_lt_iff. lia.
Qed.

Lemma lex3_Gt (a1 a2 a3 b1 b2 b3 : Z) :
  lex3 (a1, a2, a3) (b1, b2, b3) = Gt
  <-> b1 < a1 \/ (a1 = b1 /\ (b2 < a2 \/ (a2 = b2 /\ b3 < a3))).
Proof.
  cbn [lex3].
  destruct (Z.compare_spec a1 b1); [|split; [discriminate|lia]|split; [lia|reflexivity]].
  destruct (Z.compare_spec a2 b2); [|split; [discriminate|lia]|split; [lia|reflexivity]].
  rewrite Z.compare_gt_iff. lia.
Qed.

Lemma lex3_Eq (a1 a2 a3 b1 b2 b3 : Z) :
  lex3 (a1, a2, a3) (b1, b2, b3) = Eq <-> a1 = b1 /\ a2 = b2 /\ a3 = b3.
Proof.
  cbn [lex3].
  destruct (Z.compare_spec a1 b1); [|split; [discriminate|lia]|split; [discriminate|lia]].
  destruct (Z.compare_spec a2 b2); [|split; [discriminate|lia]|split; [discriminate|lia]].
  rewrite Z.compare_eq_iff. lia.
Qed.

Lemma SFcompare_key (x y : spec_float) :
  x <> S754_nan -> y <> S754_nan ->
  SFcompare x y = Some (lex3 (orderKey x) (orderKey y)).
Proof.
  intros Hx Hy.
  destruct x as [sx|sx| |sx mx ex], y as [sy|sy| |sy my ey]; try contradiction;
    try (destruct sx; try destruct sy; reflexivity);
    try (destruct sy; reflexivity).
  destruct sx, sy; try reflexivity; cbn [SFcompare orderKey lex3]; f_equal.
  change (-1 ?= -1) with Eq. cbv iota. rewrite Z.compare_opp.
  rewrite (Z.compare_antisym ex ey).
  destruct (ex ?= ey); reflexivity.
Qed.

Lemma lex3_antisym (a b : Z * Z * Z) : lex3 b a = CompOpp (lex3 a b).
Proof.
  destruct a as [[a1 a2] a3], b as [[b1 b2] b3].
  destruct (lex3 (a1, a2, a3) (b1, b2, b3)) eqn:E; cbn [CompOpp].
  - apply lex3_Eq in E. apply lex3_Eq. lia.
  - apply lex3_Lt in E. apply lex3_Gt. lia.
  - apply lex3_Gt in E. apply lex3_Lt. lia.
Qed.

Lemma nan_or_not (f : spec_float) : f = S754_nan \/ f <> S754_nan.
Proof. destruct f; (left; reflexivity) || (right; discriminate). Qed.

Lemma SFcompare_antisym (x y : spec_float) :
  SFcompare y x = option_map CompOpp (SFcompare x y).
Proof.
  destruct (nan_or_not x) as [-> | Hx].
  { destruct y as [|[]| |[]]; reflexivity. }
  destruct (nan_or_not y) as [-> | Hy].
  { destruct x as [|[]| |[]]; reflexivity. }
  rewrite (SFcompare_key x y Hx Hy), (SFcompare_key y x Hy Hx).
  cbn [option_map]. f_equal. apply lex3_antisym.
Qed.

(** The sign of [x - y] is the order of [x] and [y]: the difference of two
    distinct doubles is never rounded to zero. *)
Lemma sub_ltb_zero (x y : float) : ((x - y) <? 0)%float = (x <? y)%float.
Proof.
  rewrite !ltb_spec, sub_spec.
  change (Prim2SF 0) with (S754_zero false).
  rewrite SFltb_zero_r, SFsub_sign by apply Prim2SF_valid.
  unfold SFltb. destruct (SFcompare (Prim2SF x) (Prim2SF y)) as [[]|]; reflexivity.
Qed.

Lemma zero_ltb_sub (x y : float) : (0 <? (x - y))%float = (y <? x)%float.
Proof.
  rewrite !ltb_spec, sub_spec.
  change (Prim2SF 0) with (S754_zero false).
  rewrite SFltb_zero_l, SFsub_sign by apply Prim2SF_valid.
  unfold SFltb. rewrite (SFcompare_antisym (Prim2SF x) (Prim2SF y)).
  destruct (SFcompare (Prim2SF x) (Prim2SF y)) as [[]|]; reflexivity.
Qed.

Lemma opp_ltb_zero (v : float) : (- v <? 0)%float = (0 <? v)%float.
Proof.
  rewrite !ltb_spec, opp_spec.
  change (Prim2SF 0) with (S754_zero false).
  destruct (Prim2SF v) as [[]|[]| |[] m e]; reflexivity.
Qed.

Lemma zero_ltb_opp (v : float) : (0 <? - v)%float = (v <? 0)%float.
Proof.
  rewrite !ltb_spec, opp_spec.
  change (Prim2SF 0) with (S754_zero false).
  destruct (Prim2SF v) as [[]|[]| |[] m e]; reflexivity.
Qed.

Lemma ltb_irrefl_zero (v : float) :
  (v <? 0)%float = true -> (0 <? v)%float = false.
Proof.
  rewrite !ltb_spec.
  change (Prim2SF 0) with (S754_zero false).
  destruct (Prim2SF v) as [[]|[]| |[] m e]; intros H; try reflexivity;
    discriminate H.
Qed.

Lemma not_nan_spec (x : float) : is_nan x = false -> Prim2SF x <> S754_nan.
Proof.
  intros H E. 
  assert (V := SF2Prim_Prim2SF x). rewrite E in V. cbn in V. subst x.
  discriminate H.
Qed.

(** [x < y] on doubles that are numbers, read on their keys. *)
Lemma ltb_key (x y : float) :
  is_nan x = false -> is_nan y = false ->
  (x <? y)%float = true
  <-> lex3 (orderKey (Prim2SF x)) (orderKey (Prim2SF y)) = Lt.
Proof.
  intros Hx Hy. rewrite ltb_spec. unfold SFltb.
  rewrite (SFcompare_key _ _ (not_nan_spec x Hx) (not_nan_spec y Hy)).
  destruct (lex3 _ _); split; congruence.
Qed.

(** ** Consistent comparison functions *)

Section KeyDifference.
Context {A : Type} (key : A -> number).

Lemma SortCompare_difference (a b : A) :
  SortCompare (fun a b => key a - key b)%float a b
  = if (key a <? key b)%float then Lt
    else if (key b <? key a)%float then Gt else Eq.
Proof. unfold SortCompare. rewrite sub_ltb_zero, zero_ltb_sub. reflexivity. Qed.

(** A difference of keys that are numbers is a consistent comparison. *)
Lemma difference_consistent (l : list A) :
  (forall a, In a l -> isNaN (key a) = false) ->
  consistentOn (fun a b => key a - key b)%float l.
Proof.
  intros N a b c Ha Hb Hc.
  rewrite !SortCompare_difference.
  pose proof (N a Ha) as Na. pose proof (N b Hb) as Nb.
  pose proof (N c Hc) as Nc. unfold isNaN in Na, Nb, Nc.
  pose proof (ltb_key _ _ Na Na) as Haa.
  pose proof (ltb_key _ _ Na Nb) as Hab.
  pose proof (ltb_key _ _ Nb Na) as Hba.
  pose proof (ltb_key _ _ Nb Nc) as Hbc.
  pose proof (ltb_key _ _ Nc Nb) as Hcb.
  pose proof (ltb_key _ _ Na Nc) as Hac.
  pose proof (ltb_key _ _ Nc Na) as Hca.
  destruct (orderKey (Prim2SF (key a))) as [[a1 a2] a3].
  destruct (orderKey (Prim2SF (key b))) as [[b1 b2] b3].
  destruct (orderKey (Prim2SF (key c))) as [[c1 c2] c3].
  rewrite lex3_Lt in Haa, Hab, Hba, Hbc, Hcb, Hac, Hca.
  repeat split.
  - destruct (key a <? key a)%float; [|reflexivity].
    pose proof (proj1 Haa eq_refl). lia.
  - destruct (key a <? key b)%float; [discriminate|].
    destruct (key b <? key a)%float; [discriminate|]. reflexivity.
  - destruct (key a <? key b)%float eqn:E1; [discriminate|].
    destruct (key b <? key a)%float eqn:E2; [discriminate|].
    destruct (key b <? key c)%float eqn:E3; [discriminate|].
    destruct (key c <? key b)%float eqn:E4; [discriminate|].
    intros _ _.
    destruct (key a <? key c)%float.
    { exfalso. pose proof (proj1 Hac eq_refl).
      assert (~ (a1 < b1 \/ a1 = b1 /\ (a2 < b2 \/ a2 = b2 /\ a3 < b3)))
        by (intros X; apply Hab in X; discriminate X).
      assert (~ (b1 < a1 \/ b1 = a1 /\ (b2 < a2 \/ b2 = a2 /\ b3 < a3)))
        by (intros X; apply Hba in X; discriminate X).
      assert (~ (b1 < c1 \/ b1 = c1 /\ (b2 < c2 \/ b2 = c2 /\ b3 < c3)))
        by (intros X; apply Hbc in X; discriminate X).
      assert (~ (c1 < b1 \/ c1 = b1 /\ (c2 < b2 \/ c2 = b2 /\ c3 < b3)))
        by (intros X; apply Hcb in X; discriminate X).
      lia. }
    destruct (key c <? key a)%float; [|reflexivity].
    exfalso. pose proof (proj1 Hca eq_refl).
    assert (~ (a1 < b1 \/ a1 = b1 /\ (a2 < b2 \/ a2 = b2 /\ a3 < b3)))
      by (intros X; apply Hab in X; discriminate X).
    assert (~ (b1 < a1 \/ b1 = a1 /\ (b2 < a2 \/ b2 = a2 /\ b3 < a3)))
      by (intros X; apply Hba in X; discriminate X).
    assert (~ (b1 < c1 \/ b1 = c1 /\ (b2 < c2 \/ b2 = c2 /\ b3 < c3)))
      by (intros X; apply Hbc in X; discriminate X).
    assert (~ (c1 < b1 \/ c1 = b1 /\ (c2 < b2 \/ c2 = b2 /\ c3 < b3)))
      by (intros X; apply Hcb in X; discriminate X).
    lia.
  - destruct (key a <? key b)%float eqn:E1;
      [|destruct (key b <? key a)%float; discriminate].
    destruct (key b <? key c)%float eqn:E3;
      [|destruct (key c <? key b)%float; discriminate].
    intros _ _.
    pose proof (proj1 Hab eq_refl). pose proof (proj1 Hbc eq_refl).
    rewrite (proj2 Hac) by lia. reflexivity.
  - destruct (key a <? key b)%float eqn:E1; [discriminate|].
    destruct (key b <? key a)%float eqn:E2; [|discriminate].
    destruct (key b <? key c)%float eqn:E3; [discriminate|].
    destruct (key c <? key b)%float eqn:E4; [|discriminate].
    intros _ _.
    pose proof (proj1 Hba eq_refl). pose proof (proj1 Hcb eq_refl).
    rewrite (proj2 Hca) by lia.
    destruct (key a <? key c)%float; [|reflexivity].
    pose proof (proj1 Hac eq_refl). lia.
Qed.

End KeyDifference.

Section Reverse.
Context {A : Type} (comparefn : A -> A -> number).

Lemma SortCompare_opp (a b : A) :
  SortCompare (fun a b => - comparefn a b)%float a b
  = CompOpp (SortCompare comparefn a b).
Proof.
  unfold SortCompare. rewrite opp_ltb_zero, zero_ltb_opp.
  destruct (comparefn a b <? 0)%float eqn:E.
  - rewrite (ltb_irrefl_zero _ E). reflexivity.
  - destruct (0 <? comparefn a b)%float; reflexivity.
Qed.

(** The opposite of a consistent comparison is consistent. *)
Lemma opp_consistent (l : list A) :
  consistentOn comparefn l ->
  consistentOn (fun a b => - comparefn a b)%float l.
Proof.
  intros H a b c Ha Hb Hc.
  destruct (H a b c Ha Hb Hc) as (R & S & TE & TL & TG).
  rewrite !SortCompare_opp.
  destruct (SortCompare comparefn a a); try discriminate R.
  destruct (SortCompare comparefn a b), (SortCompare comparefn b a),
    (SortCompare comparefn b c), (SortCompare comparefn a c);
    cbn [CompOpp]; intuition congruence.
Qed.

End Reverse.

(** A comparison of keys is as consistent as it is on the keys. *)
Lemma key_consistent {A K : Type} (key : A -> K) (cmp : K -> K -> number)
    (l : list A) :
  consistentOn cmp (map key l) ->
  consistentOn (fun a b => cmp (key a) (key b)) l.
Proof.
  intros H a b c Ha Hb Hc.
  exact (H (key a) (key b) (key c) (in_map key l a Ha) (in_map key l b Hb)
           (in_map key l c Hc)).
Qed.

(** The comparison function of the view is consistent wherever its key
    is defined. *)
Lemma compareFn_consistent (localeCompare : string -> string -> number)
    (key : SortKey) (dir : SortDir) (l : list Expense) :
  keyDefined localeCompare key l ->
  consistentOn (compareFn localeCompare key dir) l.
Proof.
  destruct key, dir; cbn [keyDefined]; intros H.
  - exact (difference_consistent
             (fun e => getTime (parseDate (Expense.date e))) l H).
  - exact (opp_consistent _ l
             (difference_consistent
                (fun e => getTime (parseDate (Expense.date e))) l H)).
  - exact (difference_consistent Expense.amount l H).
  - exact (opp_consistent _ l (difference_consistent Expense.amount l H)).
  - exact (key_consistent Expense.category localeCompare l H).
  - exact (opp_consistent _ l
             (key_consistent Expense.category localeCompare l H)).
Qed.

(** * The claims *)

(** ** Adding an expense *)




(** C2, as the component has it.  An entry is turned down, and the whole
    state stays as it is, when the date is empty, or the amount does not
    read as a number or is not above zero, or the category is empty.
    Whether a date that is not empty parses is not looked at: an entry
    whose date does not parse, with an amount above zero and a
    category, is added like any other, its date kept as it was
    written. *)
Theorem addExpense_rejects (newId : string) (st : State) :
  (date st = ""
   \/ isNaN (parseFloat (amount st)) = true
   \/ (parseFloat (amount st) <=? 0)%float = true
   \/ category st = "" ->
   addExpense newId st = st) /\
  (date st <> "" ->
   isNaN (getTime (parseDate (date st))) = true ->
   (0 <? parseFloat (amount st))%float = true ->
   category st <> "" ->
   expenses (addExpense newId st)
   = Expense.mk newId (date st)
       (parseFloat (toFixed (parseFloat (amount st)) 2))
       (category st) (Some (trim (note st))) :: expenses st).
Proof.
  split.
  - unfold addExpense, isEmpty.
    intros [H|[H|[H|H]]]; rewrite H; cbn [orb String.eqb];
      rewrite ?orb_true_r; reflexivity.
  - intros Hdate _ Hpos Hcat. unfold addExpense.
    rewrite (positive_not_nan _ Hpos), (positive_not_le_zero _ Hpos).
    unfold isEmpty.
    destruct (String.eqb_spec (date st) "") as [E|_]; [contradiction|].
    destruct (String.eqb_spec (category st) "") as [E|_]; [contradiction|].
    reflexivity.
Qed.

Lemma addExpense_rejects_witness :
  addExpense "m1x9" negativeForm = negativeForm /\
  (isNaN (getTime (parseDate "tomorrow")) = true /\
   expenses (addExpense "m1x9" badDateForm)
   = Expense.mk "m1x9" "tomorrow" 5%float "Food" (Some "") :: sample).
Proof.
  split.
  - apply (proj1 (addExpense_rejects "m1x9" negativeForm)).
    right. right. left. vm_compute. reflexivity.
  - split; [vm_compute; reflexivity|].
    pose proof (proj2 (addExpense_rejects "m1x9" badDateForm)) as H.
    assert (parseFloat (toFixed (parseFloat (amount badDateForm)) 2) = 5%float) as E
      by (vm_compute; reflexivity).
    rewrite E in H.
    apply H; [discriminate | vm_compute; reflexivity | vm_compute; reflexivity
             | discriminate].
Defined.

(** C2 as stated fails: with a date that does not parse the entry is
    added all the same. *)
Lemma addExpense_unparseable_date :
  isNaN (getTime (parseDate (date badDateForm))) = true /\
  expenses (addExpense "m1x9" badDateForm)
  = Expense.mk "m1x9" "tomorrow" 5%float "Food" (Some "") :: expenses badDateForm /\
  expenses (addExpense "m1x9" badDateForm) <> expenses badDateForm.
Proof.
  split; [vm_compute; reflexivity|]. split; [vm_compute; reflexivity|].
  intros H. apply (f_equal (@length Expense)) in H. vm_compute in H. discriminate.
Qed.

(** ** The filtered and sorted view *)

Lemma filter_full {A} (p : A -> bool) (l : list A) :
  length (List.filter p l) = length l -> List.filter p l = l.
Proof.
  induction l as [|x r IH]; [reflexivity|]. cbn [List.filter].
  destruct (p x); cbn [length]; intros H.
  - f_equal. apply IH. lia.
  - pose proof (List.filter_length_le p r). lia.
Qed.

Section ViewClaims.
Variable localeCompare : string -> string -> number.

(** C3, as the component has it.  Run on the array of expenses, [shown]
    returns a new array and leaves every array there was, the source
    among them, as it was.  The new array holds exactly the expenses
    that satisfy the filters that are switched on (date not before
    [from], date not after [to], category equal to the one selected),
    each as often as the source has it.  Whenever the sort key is
    defined on these expenses (their dates parse, their amounts are
    numbers, the collation is consistent on their categories), they are
    in the order of that key and direction, ties in the order of the
    source.  On the sample records, by amount: 20, 50, 100 ascending,
    and the reverse descending. *)
Theorem shown_filtered_sorted (st : State) (r : JsArray.ref)
  (h : JsArray.Heap Expense) (exps : list Expense) :
  h !! r = Some exps ->
  let r' := fst (shown localeCompare st r h) in
  let h' := snd (shown localeCompare st r h) in
  let matching := List.filter (matches st) exps in
  h !! r' = None /\
  (forall a v, h !! a = Some v -> h' !! a = Some v) /\
  (exists res,
     h' !! r' = Some res /\
     Permutation matching res /\
     (keyDefined localeCompare (sortKey st) matching ->
      stableSortOf (compareFn localeCompare (sortKey st) (sortDir st))
        matching res)) /\
  map Expense.amount (shownList localeCompare (viewOf sample KeyAmount Asc))
    = [20; 50; 100]%float /\
  map Expense.amount (shownList localeCompare (viewOf sample KeyAmount Desc))
    = rev [20; 50; 100]%float.
Proof.
  intros Hr r' h' matching.
  destruct (shown_own localeCompare st r h exps Hr) as (Hnew & Hpre & Hres).
  split; [exact Hnew|]. split; [exact Hpre|]. split.
  - eexists. split; [exact Hres|]. split; [apply sortList_perm|].
    intros Hk. apply sortList_stable, compareFn_consistent, Hk.
  - rewrite !shownList_eq. split; vm_compute; reflexivity.
Qed.

(** C4, as the component has it.  [total] of the view is the sum of its
    amounts taken by double additions from 0 in the order of the view,
    and the view is the filtered expenses in sorted order: the same
    expenses, each as often as it matches. *)
Theorem total_shownList (st : State) :
  total (shownList localeCompare st)
  = floatSum (map Expense.amount (shownList localeCompare st)) /\
  shownList localeCompare st
  = sortList (compareFn localeCompare (sortKey st) (sortDir st))
      (List.filter (matches st) (expenses st)) /\
  Permutation (List.filter (matches st) (expenses st)) (shownList localeCompare st).
Proof.
  split; [|split].
  - unfold total, floatSum. generalize 0%float.
    induction (shownList localeCompare st) as [|e l IH]; intros s; [reflexivity|].
    cbn [map fold_left]. apply IH.
  - apply shownList_eq.
  - rewrite shownList_eq. apply sortList_perm.
Qed.

End ViewClaims.

Lemma sample_dates_parse : keyDefined codeUnitCompare KeyDate sample.
Proof. intros e [<-|[<-|[<-|[]]]]; vm_compute; reflexivity. Qed.

Lemma shown_filtered_sorted_witness :
  let st := viewOf sample KeyDate Desc in
  let h : JsArray.Heap Expense := {[ 7%nat := sample ]} in
  let r' := fst (shown codeUnitCompare st 7%nat h) in
  let h' := snd (shown codeUnitCompare st 7%nat h) in
  h !! 7%nat = Some sample /\
  exists res,
    h' !! r' = Some res /\
    stableSortOf (compareFn codeUnitCompare KeyDate Desc) sample res.
Proof.
  intros st h r' h'.
  assert (h !! 7%nat = Some sample) as Hr by apply lookup_singleton_eq.
  split; [exact Hr|].
  destruct (shown_filtered_sorted codeUnitCompare st 7%nat h sample Hr)
    as (_ & _ & (res & Hres & _ & Hsorted) & _).
  exists res. split; [exact Hres|].
  apply Hsorted. exact sample_dates_parse.
Defined.

(** C3 as stated fails for a collection with a date that does not
    parse: sorting by date leaves a later day before an earlier one, and
    no arrangement of these expenses is both in order and stable. *)
Lemma shown_unparseable_date_unsorted :
  map Expense.date (shownList codeUnitCompare (viewOf undated KeyDate Asc))
  = ["2025-09-02"; "soon"; "2025-09-01"] /\
  ~ (exists res,
       stableSortOf (compareFn codeUnitCompare KeyDate Asc)
         (List.filter (matches (viewOf undated KeyDate Asc)) undated) res).
Proof.
  split; [rewrite shownList_eq; vm_compute; reflexivity|].
  change (List.filter (matches (viewOf undated KeyDate Asc)) undated) with undated.
  intros (res & Hperm & Hsorted & Hties).
  specialize (Hties (Expense.mk "2" "soon" 10%float "Food" None)
                (or_intror (or_introl eq_refl))).
  assert (res = undated) as ->.
  { rewrite <- (filter_full (ties (compareFn codeUnitCompare KeyDate Asc)
                               (Expense.mk "2" "soon" 10%float "Food" None)) res).
    - rewrite Hties. vm_compute. reflexivity.
    - rewrite Hties. rewrite <- (Permutation_length Hperm). vm_compute. reflexivity. }
  apply StronglySorted_inv in Hsorted as [_ Hfirst].
  apply Forall_inv_tail, Forall_inv in Hfirst.
  apply Hfirst. vm_compute. reflexivity.
Qed.

(** C4 as stated fails: with amounts of very different sizes the total
    of the view is not the arithmetic sum of the filtered amounts, and
    it changes with the sort direction though the filtered expenses are
    the same. *)
Lemma total_not_arithmetic_sum :
  valueQ (total (shownList codeUnitCompare (viewOf large KeyAmount Desc)))
  = Some (10000000000000000 # 1) /\
  arithmeticSum
    (map Expense.amount
       (List.filter (matches (viewOf large KeyAmount Desc))
          (expenses (viewOf large KeyAmount Desc))))
  = Some (10000000000000002 # 1) /\
  total (shownList codeUnitCompare (viewOf large KeyAmount Asc))
  <> total (shownList codeUnitCompare (viewOf large KeyAmount Desc)).
Proof.
  rewrite !shownList_eq.
  split; [vm_compute; reflexivity|]. split; [vm_compute; reflexivity|].
  intros H.
  apply (f_equal (fun x => (x =? 10000000000000000)%float)) in H.
  vm_compute in H. discriminate.
Qed.

(** ** The aggregates *)

Lemma grouped_keys key (l : list Expense) :
  map fst (grouped key l) = distinct (map key l).
Proof.
  unfold grouped. rewrite map_map. cbn [fst]. apply map_id.
Qed.

Lemma length_grouped key (l : list Expense) :
  (0 <? length (grouped key l))%nat = (0 <? length l)%nat.
Proof.
  unfold grouped. rewrite length_map. now destruct l.
Qed.

(** C5, as the component has it.  For expenses that are not empty,
    [byCategory] has one entry per distinct category, in the order the
    categories first occur, each with the sum of the amounts of that
    category (double additions in the order of the expenses, a running
    sum that is NaN counting as 0).  For no expenses it is not empty: it
    is the single entry "No data" with value 1.  On the sample: Food
    150, Transport 20. *)
Theorem byCategory_grouped (shown : list Expense) :
  byCategory shown
  = (if (0 <? length shown)%nat
     then map (fun k => Slice.mk k (runningSum (amountsOf Expense.category k shown)))
            (distinct (map Expense.category shown))
     else [Slice.mk "No data" 1%float]) /\
  List.NoDup (map Slice.name (byCategory shown)) /\
  (forall c, In c (map Expense.category shown) ->
             In c (map Slice.name (byCategory shown))) /\
  (shown <> [] ->
   forall c, In c (map Slice.name (byCategory shown)) ->
             In c (map Expense.category shown)) /\
  byCategory sample = [Slice.mk "Food" 150%float; Slice.mk "Transport" 20%float].
Proof.
  assert (byCategory shown
          = (if (0 <? length shown)%nat
             then map (fun k => Slice.mk k (runningSum (amountsOf Expense.category k shown)))
                    (distinct (map Expense.category shown))
             else [Slice.mk "No data" 1%float])) as Heq.
  { unfold byCategory. rewrite groupInto_grouped, length_map, length_grouped.
    destruct (0 <? length shown)%nat; [|reflexivity].
    unfold grouped. now rewrite map_map. }
  split; [exact Heq|].
  assert (shown <> [] ->
          map Slice.name (byCategory shown) = distinct (map Expense.category shown))
    as Hnames.
  { intros Hne. rewrite Heq. destruct shown as [|e l]; [contradiction|].
    cbn [length Nat.ltb Nat.leb]. rewrite map_map. cbn [Slice.name]. apply map_id. }
  split; [|split; [|split]].
  - destruct shown as [|e l].
    + rewrite Heq. cbn. constructor; [intros []|constructor].
    + rewrite Hnames by discriminate. apply distinct_NoDup.
  - intros c Hc. destruct shown as [|e l]; [contradiction|].
    rewrite Hnames by discriminate. exact (proj2 (distinct_In _ _) Hc).
  - intros Hne c Hc. rewrite (Hnames Hne) in Hc. exact (proj1 (distinct_In _ _) Hc).
  - vm_compute. reflexivity.
Qed.

(** C5 as stated fails: for no expenses the result is not empty, and it
    is the result a real category named "No data" with sum 1 gives. *)
Lemma byCategory_empty_placeholder :
  byCategory [] = [Slice.mk "No data" 1%float] /\
  byCategory [] <> [] /\
  byCategory [] = byCategory [Expense.mk "9" "2025-09-01" 1%float "No data" None].
Proof.
  split; [reflexivity|]. split; [discriminate|]. vm_compute. reflexivity.
Qed.

Section MonthClaims.
Variable localeCompare : string -> string -> number.

(** C8, as the component has it.  [byMonth] has one point per distinct
    month key of the expenses (the year and month pieces of the date),
    each with the sum of the amounts of that month rounded to two
    decimals ([toFixed(2)], read back as a number).  The points are the
    result of sorting by [localeCompare] on the key: whenever that
    comparison is consistent on the month keys of the expenses, they
    are in its ascending order.  On the sample: the single point
    2025-09 with 170. *)
Theorem byMonth_grouped (shown : list Expense) :
  monthPoints shown
  = map (fun k => Point.mk k
                    (parseFloat
                       (toFixed
                          (runningSum (amountsOf (fun e => monthKey (Expense.date e)) k shown))
                          2)))
      (distinct (map (fun e => monthKey (Expense.date e)) shown)) /\
  Permutation (monthPoints shown) (byMonth localeCompare shown) /\
  List.NoDup (map Point.month (byMonth localeCompare shown)) /\
  (consistentOn localeCompare (map (fun e => monthKey (Expense.date e)) shown) ->
   stableSortOf (compareMonths localeCompare) (monthPoints shown)
     (byMonth localeCompare shown)) /\
  byMonth localeCompare sample = [Point.mk "2025-09" 170%float].
Proof.
  assert (byMonth localeCompare shown
          = sortList (compareMonths localeCompare) (monthPoints shown)) as Heq.
  { unfold byMonth, monthPoints. now rewrite groupInto_grouped. }
  assert (map Point.month (monthPoints shown)
          = distinct (map (fun e => monthKey (Expense.date e)) shown)) as Hkeys.
  { unfold monthPoints, grouped. rewrite !map_map. cbn [Point.month]. apply map_id. }
  split; [|split; [|split; [|split]]].
  - unfold monthPoints, grouped. now rewrite map_map.
  - rewrite Heq. apply sortList_perm.
  - rewrite Heq.
    apply (Permutation_NoDup (l := map Point.month (monthPoints shown))).
    + apply Permutation_map, sortList_perm.
    + rewrite Hkeys. apply distinct_NoDup.
  - intros Hc. rewrite Heq. apply sortList_stable.
    apply (key_consistent Point.month localeCompare). rewrite Hkeys.
    apply (consistentOn_incl localeCompare _
             (map (fun e => monthKey (Expense.date e)) shown)); [|exact Hc].
    intros k. apply distinct_In.
  - vm_compute. reflexivity.
Qed.

End MonthClaims.

Lemma twoMonths_consistent :
  consistentOn codeUnitCompare
    (map (fun e => monthKey (Expense.date e)) twoMonths).
Proof.
  intros a b c Ha Hb Hc. cbv in Ha, Hb, Hc.
  repeat match goal with
         | H : _ \/ _ |- _ => destruct H as [<-|H]
         | H : False |- _ => destruct H
         end; vm_compute; intuition congruence.
Qed.

Lemma byMonth_grouped_witness :
  stableSortOf (compareMonths codeUnitCompare) (monthPoints twoMonths)
    (byMonth codeUnitCompare twoMonths) /\
  byMonth codeUnitCompare twoMonths
  = [Point.mk "2025-09" 100%float; Point.mk "2025-10" 12.75%float].
Proof.
  destruct (byMonth_grouped codeUnitCompare twoMonths)
    as (_ & _ & _ & Hsorted & _).
  split; [exact (Hsorted twoMonths_consistent)|]. vm_compute. reflexivity.
Defined.

(** C8 as stated fails: the value of a month is the sum rounded to two
    decimals, not the sum.  For one expense of 0.004 the month has 0;
    for expenses of 0.1 and 0.2 it has 0.3, where [total] of the same
    two has 0.30000000000000004. *)
Lemma byMonth_rounds_sum :
  byMonth codeUnitCompare tiny = [Point.mk "2025-09" 0%float] /\
  floatSum (amountsOf (fun e => monthKey (Expense.date e)) "2025-09" tiny)
  = 0.004%float /\
  byMonth codeUnitCompare dimes = [Point.mk "2025-09" 0.3%float] /\
  total dimes = 0.30000000000000004%float /\
  total dimes <> 0.3%float.
Proof.
  repeat split; try (vm_compute; reflexivity).
  intros H. apply (f_equal (fun x => (x =? 0.3)%float)) in H.
  vm_compute in H. discriminate.
Qed.

(** ** Export and import *)

(** C6, as the component has it.  When every amount is a number that
    [JSON.stringify] writes as itself (finite, and not negative zero),
    importing the exported document gives back both collections,
    whatever the state it is imported into, and raises no alert;
    imported into the exporting state it leaves that state as it is. *)
Theorem export_import_round_trip (st : State) (w : Handler.World) :
  List.Forall (fun e => jsonNumber (Expense.amount e) = true) (expenses st) ->
  (exists st',
     importJSON (Document (exportJSON st)) w
     = Handler.Returned tt (Handler.mkWorld st' (Handler.alerts w)) /\
     expenses st' = expenses st /\ categories st' = categories st) /\
  importJSON (Document (exportJSON st)) (Handler.mkWorld st [])
  = Handler.Returned tt (Handler.mkWorld st []).
Proof.
  intros H. split.
  - eexists. split; [apply (importJSON_exportJSON st w H)|]. split; reflexivity.
  - rewrite (importJSON_exportJSON st _ H). cbn [Handler.state Handler.alerts].
    now rewrite set_same.
Qed.

Lemma sample_amounts_json :
  List.Forall (fun e => jsonNumber (Expense.amount e) = true)
    (expenses (viewOf sample KeyDate Desc)).
Proof. repeat constructor. Qed.

Lemma export_import_round_trip_witness :
  (exists st',
     importJSON (Document (exportJSON (viewOf sample KeyDate Desc)))
       (Handler.mkWorld (initialState "2025-09-10") [])
     = Handler.Returned tt (Handler.mkWorld st' []) /\
     expenses st' = sample /\ categories st' = DEFAULT_CATEGORIES) /\
  importJSON (Document (exportJSON (viewOf sample KeyDate Desc)))
    (Handler.mkWorld (viewOf sample KeyDate Desc) [])
  = Handler.Returned tt (Handler.mkWorld (viewOf sample KeyDate Desc) []).
Proof.
  exact (export_import_round_trip (viewOf sample KeyDate Desc)
           (Handler.mkWorld (initialState "2025-09-10") []) sample_amounts_json).
Defined.

(** C6 as stated fails for a state with an amount that is not finite:
    the export writes [null] for it, and what the import then stores is
    not the expense that was exported. *)
Lemma export_import_infinite_amount :
  exportJSON overflowState
  = JObj [("expenses",
           JArr [JObj [("id", JStr "1"); ("date", JStr "2025-09-01");
                       ("amount", JNull); ("category", JStr "Food");
                       ("note", JStr "")]]);
          ("categories", JArr (map JStr DEFAULT_CATEGORIES))] /\
  importJSON (Document (exportJSON overflowState)) (Handler.mkWorld overflowState [])
  = Handler.Untyped /\
  importJSON (Document (exportJSON overflowState)) (Handler.mkWorld overflowState [])
  <> Handler.Returned tt (Handler.mkWorld overflowState []).
Proof.
  assert (importJSON (Document (exportJSON overflowState))
            (Handler.mkWorld overflowState []) = Handler.Untyped) as E
    by (vm_compute; reflexivity).
  split; [vm_compute; reflexivity|]. split; [exact E|].
  rewrite E. discriminate.
Qed.

(** C9.  A file that is not well-formed JSON raises the alert "Invalid
    file" and leaves the state, both collections included, as it was. *)
Theorem importJSON_malformed (w : Handler.World) :
  importJSON Malformed w
  = Handler.Returned tt
      (Handler.mkWorld (Handler.state w) (Handler.alerts w ++ ["Invalid file"])%list) /\
  (forall st', stateOf (importJSON Malformed w) = Some st' ->
     expenses st' = expenses (Handler.state w) /\
     categories st' = categories (Handler.state w)).
Proof.
  assert (importJSON Malformed w
          = Handler.Returned tt
              (Handler.mkWorld (Handler.state w)
                 (Handler.alerts w ++ ["Invalid file"])%list)) as E.
  { unfold importJSON, Handler.tryCatch, Handler.bind. cbn [JSON_parse Handler.throw].
    reflexivity. }
  split; [exact E|].
  intros st'. rewrite E. cbn [stateOf Handler.state]. intros [= <-]. now split.
Qed.

(** ** Identifiers *)

(** C7, as the component has it.  Identifiers stay unique as long as
    each identifier drawn for a new expense is one no stored expense
    has, and each imported file or loaded item holds no identifier
    twice: adding, removing, clearing, adding a category and the inputs
    of the form keep them unique, and an import or a load puts the
    expenses of the file in place as they are. *)
Theorem unique_ids (st : State) :
  reachable freshIds st -> List.NoDup (ids (expenses st)).
Proof.
  induction 1 as [today|st ev st' _ IH Hfresh Hh].
  - constructor.
  - exact (handle_unique ev st st' Hfresh Hh IH).
Qed.

Lemma unique_ids_witness :
  List.NoDup
    (ids (expenses
            (addExpense (uid "0.9" 1757462460000)
               (mkState
                  (expenses (addExpense (uid "0.i" 1757462400000) entryForm))
                  (categories (addExpense (uid "0.i" 1757462400000) entryForm))
                  "2025-09-11" "7" "Bills" "" "" "" "ALL" KeyDate Desc)))).
Proof.
  apply unique_ids.
  apply (reach_step freshIds _ (EvAdd (uid "0.9" 1757462460000)) _
           (reach_step freshIds _
              (EvInput "2025-09-11" "7" "Bills" "" "" "" "ALL" KeyDate Desc) _
              (reach_step freshIds _ (EvAdd (uid "0.i" 1757462400000)) _
                 (reach_step freshIds _ (EvImport (Document (exportJSON entryForm))) _
                    (reach_step freshIds _
                       (EvInput "2025-09-10" "12.345" "Food" " lunch " "" "" "ALL"
                          KeyDate Desc) _
                       (reach_init freshIds "2025-09-10") I eq_refl)
                    ltac:(intros l [= <-]; vm_compute; repeat constructor;
                          cbn; intuition discriminate)
                    ltac:(vm_compute; reflexivity))
                 ltac:(vm_compute; intuition discriminate) eq_refl)
              I eq_refl)
           ltac:(vm_compute; intuition discriminate) eq_refl).
Defined.

(** C7 as stated fails, and each part of the proviso is needed.  With
    no add at all, importing a file that has one identifier on two
    expenses leads to a state with that identifier twice, and so does
    loading a stored item that has.  And with no file and no stored
    item at all, two adds for which [Math.random] and the clock give
    the same leave one identifier on two expenses: neither [uid] nor
    [addExpense] looks at the identifiers that are stored. *)
Lemma duplicate_ids :
  (exists st, reachable freshAdds st /\
              handle (EvImport duplicateFile) (initialState "2025-09-10") = Some st /\
              ids (expenses st) = ["1"; "1"] /\
              ~ List.NoDup (ids (expenses st))) /\
  (exists st, reachable freshAdds st /\
              handle (EvLoad (Some duplicateItem) None) (initialState "2025-09-10")
              = Some st /\
              ids (expenses st) = ["1"; "1"] /\
              ~ List.NoDup (ids (expenses st))) /\
  (exists st, reachable distinctFiles st /\
              ids (expenses st) = [uid "0.i" 1757462400000;
                                   uid "0.i" 1757462400000] /\
              uid "0.i" 1757462400000 = "imfd7qio0" /\
              ~ List.NoDup (ids (expenses st))).
Proof.
  split; [|split].
  - eexists. split; [|split; [|split]].
    + apply (reach_step freshAdds (initialState "2025-09-10") (EvImport duplicateFile) _
               (reach_init freshAdds "2025-09-10") I).
      vm_compute. reflexivity.
    + vm_compute. reflexivity.
    + reflexivity.
    + intros H. apply List.NoDup_cons_iff in H as [H _]. apply H. now left.
  - eexists. split; [|split; [|split]].
    + apply (reach_step freshAdds (initialState "2025-09-10")
               (EvLoad (Some duplicateItem) None) _
               (reach_init freshAdds "2025-09-10") I).
      vm_compute. reflexivity.
    + vm_compute. reflexivity.
    + reflexivity.
    + intros H. apply List.NoDup_cons_iff in H as [H _]. apply H. now left.
  - eexists. split; [|split; [|split]].
    + apply (reach_step distinctFiles _ (EvAdd (uid "0.i" 1757462400000)) _
               (reach_step distinctFiles _
                  (EvInput "2025-09-10" "7" "Bills" "" "" "" "ALL" KeyDate Desc) _
                  (reach_step distinctFiles _
                     (EvAdd (uid "0.i" 1757462400000)) _
                     (reach_step distinctFiles _
                        (EvInput "2025-09-10" "12.345" "Food" " lunch " "" "" "ALL"
                           KeyDate Desc) _
                        (reach_init distinctFiles "2025-09-10") I eq_refl)
                     ltac:(exists "0.i", 1757462400000; repeat split; discriminate)
                     eq_refl)
                  I eq_refl)
               ltac:(exists "0.i", 1757462400000; repeat split; discriminate)
               eq_refl).
    + vm_compute. reflexivity.
    + vm_compute. reflexivity.
    + intros H. vm_compute in H. apply List.NoDup_cons_iff in H as [H _].
      apply H. now left.
Qed.


(** ** Frame *)

(** C10.  Adding, removing and clearing expenses leave the categories
    as they are, and adding a category leaves the expenses as they
    are. *)
Theorem mutators_frame (st : State) (newId id newCat : string) (confirmed : bool) :
  categories (addExpense newId st) = categories st /\
  categories (removeExpense id st) = categories st /\
  categories (clearAll confirmed st) = categories st /\
  expenses (addCategory newCat st) = expenses st.
Proof.
  repeat split.
  - unfold addExpense.
    now destruct (isEmpty (date st) || isNaN (parseFloat (amount st))
                  || (parseFloat (amount st) <=? 0)%float || isEmpty (category st)).
  - now destruct confirmed.
  - apply addCategory_expenses.
Qed.

(** * Further properties of the component *)

(** ** Removing and clearing *)

Lemma setExpenses_same (st : State) : setExpenses (fun _ => expenses st) st = st.
Proof. now destruct st. Qed.

Lemma filter_all {A} (p : A -> bool) (l : list A) :
  (forall x, In x l -> p x = true) -> List.filter p l = l.
Proof.
  induction l as [|x r IH]; intros H; [reflexivity|]. cbn [List.filter].
  rewrite (H x (or_introl eq_refl)). f_equal. apply IH.
  intros y Hy. apply H. now right.
Qed.

Lemma filter_sublist {A} (p : A -> bool) (l : list A) : sublist (List.filter p l) l.
Proof.
  induction l as [|x r IH]; [constructor|]. cbn [List.filter].
  destruct (p x); now constructor.
Qed.

Lemma find_filter_other (id id' : string) (l : list Expense) :
  id' <> id ->
  lookupById id' (List.filter (fun e => negb (Expense.id e =? id)%string) l)
  = lookupById id' l.
Proof.
  intros Hne. unfold lookupById.
  induction l as [|e r IH]; [reflexivity|]. cbn [List.filter find].
  destruct (String.eqb_spec (Expense.id e) id) as [E|E]; cbn [negb find].
  - destruct (String.eqb_spec (Expense.id e) id') as [E'|_]; [congruence|exact IH].
  - destruct (Expense.id e =? id')%string; [reflexivity|exact IH].
Qed.

Section RemoveFacts.
Variable localeCompare : string -> string -> number.

(** X1.  After [removeExpense id] the collection holds the expenses it held
    under other identifiers, in their order, and none under [id]: none
    is found under [id], what is found under another identifier is what
    was found before, and under no filter and sort setting does the view
    show an expense with the identifier [id]. *)
Theorem removeExpense_removes (id : string) (st : State) :
  (forall e, In e (expenses (removeExpense id st))
             <-> In e (expenses st) /\ Expense.id e <> id) /\
  sublist (expenses (removeExpense id st)) (expenses st) /\
  lookupById id (expenses (removeExpense id st)) = None /\
  (forall id', id' <> id ->
     lookupById id' (expenses (removeExpense id st)) = lookupById id' (expenses st)) /\
  (forall st', expenses st' = expenses (removeExpense id st) ->
     forall e, In e (shownList localeCompare st') -> Expense.id e <> id).
Proof.
  assert (forall e, In e (expenses (removeExpense id st))
                    <-> In e (expenses st) /\ Expense.id e <> id) as Hin.
  { intros e. cbn [removeExpense setExpenses expenses].
    rewrite List.filter_In.
    destruct (String.eqb_spec (Expense.id e) id); cbn [negb]; intuition congruence. }
  split; [exact Hin|]. split; [|split; [|split]].
  - cbn [removeExpense setExpenses expenses]. apply filter_sublist.
  - cbn [removeExpense setExpenses expenses]. unfold lookupById.
    destruct (find _ _) as [e|] eqn:E; [|reflexivity].
    apply find_some in E as [E1 E2]. apply List.filter_In in E1 as [_ E1].
    rewrite E2 in E1. discriminate.
  - intros id' Hne. cbn [removeExpense setExpenses expenses].
    now apply find_filter_other.
  - intros st' Hst e He. rewrite shownList_eq in He.
    apply sortList_In in He. apply List.filter_In in He as [He _].
    rewrite Hst in He. now apply Hin in He.
Qed.

End RemoveFacts.

(** X2.  Removing an identifier no expense has changes nothing at all. *)
Theorem removeExpense_absent (id : string) (st : State) :
  ~ In id (ids (expenses st)) -> removeExpense id st = st.
Proof.
  intros Hn. unfold removeExpense.
  rewrite <- (setExpenses_same st) at 2. unfold setExpenses. f_equal.
  apply filter_all. intros e He.
  destruct (String.eqb_spec (Expense.id e) id) as [E|_]; [|reflexivity].
  exfalso. apply Hn. unfold ids. rewrite <- E. now apply in_map.
Qed.

Lemma removeExpense_absent_witness :
  removeExpense "7" (viewOf sample KeyDate Desc) = viewOf sample KeyDate Desc.
Proof.
  apply (removeExpense_absent "7" (viewOf sample KeyDate Desc)).
  vm_compute. intuition discriminate.
Defined.

(** X3.  Adding an entry under an identifier no expense has, and removing
    that identifier again, gives the collection back: the state is the
    one before the entry, with the amount and note fields emptied. *)
Theorem addExpense_removeExpense (newId : string) (st : State) :
  date st <> "" ->
  (0 <? parseFloat (amount st))%float = true ->
  category st <> "" ->
  ~ In newId (ids (expenses st)) ->
  removeExpense newId (addExpense newId st) = setNote "" (setAmount "" st).
Proof.
  intros Hdate Hpos Hcat Hn. unfold addExpense.
  rewrite (positive_not_nan _ Hpos), (positive_not_le_zero _ Hpos).
  unfold isEmpty.
  destruct (String.eqb_spec (date st) "") as [E|_]; [contradiction|].
  destruct (String.eqb_spec (category st) "") as [E|_]; [contradiction|].
  cbn [orb]. unfold removeExpense, setNote, setAmount, setExpenses.
  cbn [expenses categories date amount category note from to catFilter sortKey sortDir].
  cbn [List.filter Expense.id]. rewrite String.eqb_refl. cbn [negb].
  f_equal. apply filter_all. intros e He.
  destruct (String.eqb_spec (Expense.id e) newId) as [E|_]; [|reflexivity].
  exfalso. apply Hn. unfold ids. rewrite <- E. now apply in_map.
Qed.

Lemma addExpense_removeExpense_witness :
  removeExpense "m1x9" (addExpense "m1x9" entryForm)
  = setNote "" (setAmount "" entryForm).
Proof.
  apply (addExpense_removeExpense "m1x9" entryForm).
  - discriminate.
  - vm_compute. reflexivity.
  - discriminate.
  - vm_compute. intuition discriminate.
Defined.

Section ClearFacts.
Variable localeCompare : string -> string -> number.

(** X4.  [clearAll] does nothing when the dialog is declined.  When it is
    accepted the collection is empty and the rest of the state is as it
    was; then, under every filter and sort setting, the view is empty,
    the total is 0, there is no month, and [byCategory] is the
    placeholder entry. *)
Theorem clearAll_empties (st : State) :
  clearAll false st = st /\
  clearAll true st = setExpenses (fun _ => []) st /\
  (forall st', expenses st' = expenses (clearAll true st) ->
     shownList localeCompare st' = [] /\
     total (shownList localeCompare st') = 0%float /\
     byMonth localeCompare (shownList localeCompare st') = [] /\
     byCategory (shownList localeCompare st') = [Slice.mk "No data" 1%float]).
Proof.
  split; [reflexivity|]. split; [reflexivity|].
  intros st' Hst.
  assert (shownList localeCompare st' = []) as ->.
  { rewrite shownList_eq, Hst. reflexivity. }
  repeat split.
Qed.

End ClearFacts.

(** ** Categories *)

Lemma NoDup_snoc {A} (l : list A) (x : A) :
  List.NoDup l -> ~ In x l -> List.NoDup (l ++ [x]).
Proof.
  induction l as [|y r IH]; intros Hnd Hn.
  - cbn. constructor; [intros []|constructor].
  - apply List.NoDup_cons_iff in Hnd as [Hy Hr]. cbn [app].
    constructor.
    + intros [Hin|[->|[]]]%in_app_or; [contradiction|]. apply Hn. now left.
    + apply IH; [exact Hr|]. intros Hin. apply Hn. now right.
Qed.

(** X5.  A name that is blank, or that after trimming is a category already
    (compared exactly, case included), is turned down: the whole state
    stays as it is, the selected category too. *)
Theorem addCategory_rejects (newCat : string) (st : State) :
  trim newCat = "" \/ In (trim newCat) (categories st) ->
  addCategory newCat st = st.
Proof.
  intros [H|H]; unfold addCategory.
  - rewrite H. reflexivity.
  - rewrite (proj2 (includes_In _ _) H). now destruct (isEmpty (trim newCat)).
Qed.

Lemma addCategory_rejects_witness :
  addCategory "  Food " (initialState "2025-09-10") = initialState "2025-09-10".
Proof.
  apply (addCategory_rejects "  Food " (initialState "2025-09-10")).
  right. vm_compute. now left.
Defined.

(** X6.  Any other name is added trimmed, at the end of the list, whose
    earlier categories stay in place, and becomes the category selected
    in the form; nothing else changes; a list without duplicates stays
    without duplicates; and the same name given again is turned down. *)
Theorem addCategory_appends (newCat : string) (st : State) :
  trim newCat <> "" ->
  ~ In (trim newCat) (categories st) ->
  addCategory newCat st
  = setCategory (trim newCat)
      (setCategories (fun prev => (prev ++ [trim newCat])%list) st) /\
  categories (addCategory newCat st) = (categories st ++ [trim newCat])%list /\
  category (addCategory newCat st) = trim newCat /\
  (List.NoDup (categories st) -> List.NoDup (categories (addCategory newCat st))) /\
  addCategory newCat (addCategory newCat st) = addCategory newCat st.
Proof.
  intros Hne Hnin.
  assert (addCategory newCat st
          = setCategory (trim newCat)
              (setCategories (fun prev => (prev ++ [trim newCat])%list) st)) as Heq.
  { unfold addCategory, isEmpty.
    destruct (String.eqb_spec (trim newCat) "") as [E|_]; [contradiction|].
    destruct (includes (categories st) (trim newCat)) eqn:E; [|reflexivity].
    apply includes_In in E. contradiction. }
  split; [exact Heq|]. rewrite Heq.
  cbn [setCategory setCategories categories category].
  split; [reflexivity|]. split; [reflexivity|]. split.
  - intros Hnd. now apply NoDup_snoc.
  - assert (includes (categories st ++ [trim newCat]) (trim newCat) = true) as Hi
      by (apply includes_In, in_or_app; right; now left).
    unfold addCategory. cbn [setCategory setCategories categories].
    rewrite Hi. now destruct (isEmpty (trim newCat)).
Qed.

Lemma addCategory_appends_witness :
  categories (addCategory " Pets " (initialState "2025-09-10"))
  = (DEFAULT_CATEGORIES ++ ["Pets"])%list /\
  category (addCategory " Pets " (initialState "2025-09-10")) = "Pets".
Proof.
  destruct (addCategory_appends " Pets " (initialState "2025-09-10"))
    as (_ & Hc & Hs & _).
  - vm_compute. discriminate.
  - vm_compute. intuition discriminate.
  - split; [exact Hc | exact Hs].
Defined.

(** ** What the entry checks keep *)

Lemma initial_wellKept (today : string) : wellKept (initialState today).
Proof.
  split; [intros e []|]. split; [exists []; reflexivity|]. split.
  - cbn [initialState categories]. unfold DEFAULT_CATEGORIES.
    repeat (apply List.NoDup_cons; [cbn; intuition discriminate|]).
    apply List.NoDup_nil.
  - cbn. intuition discriminate.
Qed.

Lemma handle_wellKept (ev : Event) (st st' : State) :
  byHand ev st -> handle ev st = Some st' -> wellKept st -> wellKept st'.
Proof.
  intros Hby Hh K. pose proof K as (He & (added & Hc) & Hnd & Hne).
  destruct ev; cbn [handle byHand] in *; try contradiction; injection Hh as <-.
  - unfold addExpense.
    destruct (isEmpty (date st)) eqn:Ed; [exact K|].
    destruct (isNaN (parseFloat (amount st))); [exact K|].
    destruct (parseFloat (amount st) <=? 0)%float; [exact K|].
    destruct (isEmpty (category st)) eqn:Ec; [exact K|].
    cbn [orb]. unfold isEmpty in Ed, Ec.
    apply String.eqb_neq in Ed, Ec.
    split; [|split; [now exists added|split; assumption]].
    intros e [<-|Hin]; [|now apply He].
    cbn. repeat split; [exact Ed|exact Ec|discriminate].
  - split; [|split; [now exists added|split; assumption]].
    intros e Hin. cbn [removeExpense setExpenses expenses] in Hin.
    apply List.filter_In in Hin as [Hin _]. now apply He.
  - destruct confirmed; [|exact K].
    split; [intros e []|split; [now exists added|split; assumption]].
  - unfold addCategory, isEmpty.
    destruct (String.eqb_spec (trim newCat) "") as [E|E]; [exact K|].
    destruct (includes (categories st) (trim newCat)) eqn:Ei; [exact K|].
    apply includes_false in Ei.
    unfold wellKept. cbn [setCategory setCategories categories expenses].
    split; [exact He|]. split; [|split].
    + exists (added ++ [trim newCat])%list. rewrite Hc. symmetry. apply app_assoc.
    + apply NoDup_snoc; [exact Hnd|]. intros Hin. now apply Ei.
    + intros [Hin|[Hin|[]]]%in_app_or; [now apply Hne|]. now apply E.
  - split; [exact He|]. split; [now exists added|]. split; assumption.
Qed.

(** X7.  Whatever the user does at the form, the filter bar and the list
    (entries, removals, clearing, new categories, inputs), every stored
    expense has a date and a category that are not empty and has a note
    (a string, possibly empty), and the category list is the eight
    default categories followed by the added ones, with no name twice
    and no empty name. *)
Theorem byHand_wellKept (st : State) : reachable byHand st -> wellKept st.
Proof.
  induction 1 as [today|st ev st' _ IH Hby Hh].
  - apply initial_wellKept.
  - exact (handle_wellKept ev st st' Hby Hh IH).
Qed.

Lemma byHand_wellKept_witness :
  wellKept
    (addCategory " Pets "
       (addExpense "a1"
          (mkState [] DEFAULT_CATEGORIES "2025-09-10" "12.345" "Food" " lunch "
             "" "" "ALL" KeyDate Desc))).
Proof.
  apply byHand_wellKept.
  apply (reach_step byHand _ (EvAddCategory " Pets ") _
           (reach_step byHand _ (EvAdd "a1") _
              (reach_step byHand _
                 (EvInput "2025-09-10" "12.345" "Food" " lunch " "" "" "ALL"
                    KeyDate Desc) _
                 (reach_init byHand "2025-09-10") I eq_refl)
              I eq_refl)
           I eq_refl).
Defined.

(** ** Dates that do not parse *)

Lemma is_nan_spec (x : float) : is_nan x = true -> Prim2SF x = S754_nan.
Proof. intros H. unfold Prim2SF. now rewrite H. Qed.

Lemma leb_nan_l (x y : float) : is_nan x = true -> (x <=? y)%float = false.
Proof.
  intros H. rewrite leb_spec, (is_nan_spec x H). reflexivity.
Qed.

Lemma leb_nan_r (x y : float) : is_nan y = true -> (x <=? y)%float = false.
Proof.
  intros H. rewrite leb_spec, (is_nan_spec y H).
  now destruct (Prim2SF x) as [[]|[]| |[] m e].
Qed.

Lemma leb_not_nan (x y : float) :
  (x <=? y)%float = true -> is_nan x = false /\ is_nan y = false.
Proof.
  intros H. split.
  - destruct (is_nan x) eqn:E; [|reflexivity]. now rewrite (leb_nan_l x y E) in H.
  - destruct (is_nan y) eqn:E; [|reflexivity]. now rewrite (leb_nan_r x y E) in H.
Qed.

(** [x <= y] on doubles that are numbers, read on their keys. *)
Lemma leb_key (x y : float) :
  is_nan x = false -> is_nan y = false ->
  (x <=? y)%float = true
  <-> lex3 (orderKey (Prim2SF x)) (orderKey (Prim2SF y)) <> Gt.
Proof.
  intros Hx Hy. rewrite leb_spec. unfold SFleb.
  rewrite (SFcompare_key _ _ (not_nan_spec x Hx) (not_nan_spec y Hy)).
  destruct (lex3 _ _); split; congruence.
Qed.

Lemma leb_trans (x y z : float) :
  (x <=? y)%float = true -> (y <=? z)%float = true -> (x <=? z)%float = true.
Proof.
  intros Hxy Hyz.
  destruct (leb_not_nan _ _ Hxy) as [Nx Ny].
  destruct (leb_not_nan _ _ Hyz) as [_ Nz].
  apply (leb_key _ _ Nx Ny) in Hxy. apply (leb_key _ _ Ny Nz) in Hyz.
  apply (leb_key _ _ Nx Nz).
  destruct (orderKey (Prim2SF x)) as [[a1 a2] a3].
  destruct (orderKey (Prim2SF y)) as [[b1 b2] b3].
  destruct (orderKey (Prim2SF z)) as [[c1 c2] c3].
  intros Hxz. apply lex3_Gt in Hxz.
  assert (~ (b1 < a1 \/ a1 = b1 /\ (b2 < a2 \/ a2 = b2 /\ b3 < a3)))
    by (intros X; apply lex3_Gt in X; contradiction).
  assert (~ (c1 < b1 \/ b1 = c1 /\ (c2 < b2 \/ b2 = c2 /\ c3 < b3)))
    by (intros X; apply lex3_Gt in X; contradiction).
  lia.
Qed.

Lemma length_split (sep : ascii) (s : string) :
  length (split sep s) = S (occurrences sep s).
Proof.
  induction s as [|c r IH]; [reflexivity|]. cbn [split occurrences].
  destruct (Ascii.eqb c sep); cbn [length Nat.add].
  - now rewrite IH.
  - destruct (split sep r) as [|p ps]; [discriminate IH|exact IH].
Qed.

Lemma newDate_nan_day (y m : number) : newDate y m nan = nan.
Proof.
  unfold newDate. change (truncate nan) with (@None Z).
  destruct (truncate y), (truncate m); reflexivity.
Qed.

(** X8.  A date string with fewer than two hyphens is an invalid date: the
    day piece is missing, whatever the other pieces are. *)
Theorem parseDate_too_short (d : string) :
  (occurrences "-" d < 2)%nat -> isNaN (getTime (parseDate d)) = true.
Proof.
  intros H. unfold parseDate.
  rewrite (nth_overflow (map Number (split "-" d)) (n := 2)).
  - unfold undefinedNumber. rewrite newDate_nan_day. reflexivity.
  - rewrite length_map, length_split. lia.
Qed.

Lemma parseDate_too_short_witness : isNaN (getTime (parseDate "2025-09")) = true.
Proof. apply (parseDate_too_short "2025-09"). vm_compute. lia. Defined.

Lemma filter_none {A} (p : A -> bool) (l : list A) :
  (forall x, In x l -> p x = false) -> List.filter p l = [].
Proof.
  induction l as [|x r IH]; intros H; [reflexivity|]. cbn [List.filter].
  rewrite (H x (or_introl eq_refl)). apply IH. intros y Hy. apply H. now right.
Qed.

Lemma sortList_nil {A} (cmp : A -> A -> number) (l : list A) :
  l = [] -> sortList cmp l = [].
Proof. now intros ->. Qed.

Section WindowFacts.
Variable localeCompare : string -> string -> number.

(** X9.  A bound of the date filter that is set but does not parse hides
    every expense. *)
Theorem shown_unparseable_bound (st : State) :
  (from st <> "" /\ isNaN (getTime (parseDate (from st))) = true)
  \/ (to st <> "" /\ isNaN (getTime (parseDate (to st))) = true) ->
  shownList localeCompare st = [].
Proof.
  intros H. rewrite shownList_eq. apply sortList_nil, filter_none.
  intros e _. unfold matches, isEmpty, isNaN, getTime in *.
  destruct H as [[Hs Hn]|[Hs Hn]].
  - apply String.eqb_neq in Hs. rewrite Hs, (leb_nan_l _ _ Hn). reflexivity.
  - apply String.eqb_neq in Hs. rewrite Hs, (leb_nan_r _ _ Hn).
    cbn [orb]. now rewrite andb_false_r.
Qed.

(** X10.  As soon as a bound of the date filter is set, the view shows no
    expense whose date does not parse. *)
Theorem shown_hides_undated (st : State) (e : Expense) :
  from st <> "" \/ to st <> "" ->
  In e (shownList localeCompare st) ->
  isNaN (getTime (parseDate (Expense.date e))) = false.
Proof.
  intros H He. rewrite shownList_eq in He. apply sortList_In in He.
  apply List.filter_In in He as [_ Hm].
  unfold matches, isEmpty in Hm.
  apply andb_prop in Hm as [Hm _]. apply andb_prop in Hm as [Hf Ht].
  unfold isNaN, getTime.
  destruct H as [Hs|Hs]; apply String.eqb_neq in Hs.
  - rewrite Hs in Hf. cbn [orb] in Hf. now apply leb_not_nan in Hf.
  - rewrite Hs in Ht. cbn [orb] in Ht. now apply leb_not_nan in Ht.
Qed.

(** X11.  When both bounds are set and the first is not on or before the
    second (it is a later day, or one of them does not parse), the view
    is empty. *)
Theorem shown_empty_window (st : State) :
  from st <> "" -> to st <> "" ->
  (parseDate (from st) <=? parseDate (to st))%float = false ->
  shownList localeCompare st = [].
Proof.
  intros Hf Ht Hw. rewrite shownList_eq. apply sortList_nil, filter_none.
  intros e _. destruct (matches st e) eqn:Hm; [|reflexivity].
  unfold matches, isEmpty in Hm.
  apply String.eqb_neq in Hf, Ht. rewrite Hf, Ht in Hm. cbn [orb] in Hm.
  apply andb_prop in Hm as [Hm _]. apply andb_prop in Hm as [H1 H2].
  now rewrite (leb_trans _ _ _ H1 H2) in Hw.
Qed.

End WindowFacts.

Lemma shown_unparseable_bound_witness :
  shownList codeUnitCompare
    (mkState sample DEFAULT_CATEGORIES "2025-09-10" "" "Food" "" "2025" "" "ALL"
       KeyDate Desc) = [].
Proof.
  apply shown_unparseable_bound. left. split; [discriminate|].
  vm_compute. reflexivity.
Defined.

Lemma shown_hides_undated_witness :
  isNaN (getTime (parseDate "2025-09-01")) = false.
Proof.
  apply (shown_hides_undated codeUnitCompare
           (mkState sample DEFAULT_CATEGORIES "2025-09-10" "" "Food" ""
              "2025-09-01" "" "ALL" KeyDate Desc)
           (Expense.mk "1" "2025-09-01" 100%float "Food" None)).
  - left. discriminate.
  - rewrite shownList_eq. vm_compute. right. right. now left.
Defined.

Lemma shown_empty_window_witness :
  shownList codeUnitCompare
    (mkState sample DEFAULT_CATEGORIES "2025-09-10" "" "Food" ""
       "2025-09-02" "2025-09-01" "ALL" KeyDate Desc) = [].
Proof.
  apply shown_empty_window; [discriminate|discriminate|].
  vm_compute. reflexivity.
Defined.

(** ** The view under the filter bar *)

Section Reversal.
Context {A : Type} (cmp1 cmp2 : A -> A -> number).
Hypothesis opposite :
  forall a b, SortCompare cmp2 a b = CompOpp (SortCompare cmp1 a b).

Lemma StronglySorted_snoc (R : A -> A -> Prop) (l : list A) (x : A) :
  StronglySorted R l -> List.Forall (fun y => R y x) l ->
  StronglySorted R (l ++ [x]).
Proof.
  induction 1 as [|y r Hs IH Hy]; intros Hx; cbn [app].
  - constructor; constructor.
  - apply List.Forall_cons_iff in Hx as [Hyx Hx]. constructor; [now apply IH|].
    apply List.Forall_app. split; [exact Hy|]. now constructor.
Qed.

Lemma sorted_rev (d r : list A) :
  consistentOn cmp1 d -> incl r d ->
  StronglySorted (notAfter cmp1) r -> StronglySorted (notAfter cmp2) (rev r).
Proof.
  intros Hc Hi Hs. induction Hs as [|x r Hs IH Hx]; [constructor|].
  cbn [rev]. apply StronglySorted_snoc.
  - apply IH. intros y Hy. apply Hi. now right.
  - apply List.Forall_forall. intros y Hy. apply in_rev in Hy.
    unfold notAfter. rewrite opposite.
    pose proof (proj1 (List.Forall_forall _ _) Hx y Hy) as Hxy.
    destruct (SortCompare cmp1 y x) eqn:E; cbn [CompOpp]; try discriminate.
    exfalso. apply Hxy.
    apply (cmp_lt_gt cmp1 d Hc y x); [apply Hi; now right|apply Hi; now left|exact E].
Qed.

Lemma sorted_unique (d r1 r2 : list A) :
  consistentOn cmp2 d ->
  (forall a b, In a d -> In b d -> SortCompare cmp2 a b = Eq -> a = b) ->
  incl r1 d -> Permutation r1 r2 ->
  StronglySorted (notAfter cmp2) r1 -> StronglySorted (notAfter cmp2) r2 ->
  r1 = r2.
Proof.
  intros Hc Hties. revert r2.
  induction r1 as [|x r1 IH]; intros r2 Hi Hp H1 H2.
  - now apply Permutation_nil in Hp.
  - destruct r2 as [|y r2]; [now apply Permutation_sym, Permutation_nil in Hp|].
    apply StronglySorted_inv in H1 as [H1 Hx].
    apply StronglySorted_inv in H2 as [H2 Hy].
    assert (In x d) as Hxd by (apply Hi; now left).
    assert (In y d) as Hyd.
    { apply Hi. apply (Permutation_in y (Permutation_sym Hp)). now left. }
    assert (x = y) as <-.
    { assert (In x (y :: r2)) as [->|Hin] by (apply (Permutation_in x Hp); now left);
        [reflexivity|].
      assert (In y (x :: r1)) as [->|Hin']
          by (apply (Permutation_in y (Permutation_sym Hp)); now left);
        [reflexivity|].
      pose proof (proj1 (List.Forall_forall _ _) Hy x Hin) as Hyx.
      pose proof (proj1 (List.Forall_forall _ _) Hx y Hin') as Hxy.
      apply (Hties x y Hxd Hyd).
      destruct (SortCompare cmp2 x y) eqn:E; [reflexivity| |contradiction].
      exfalso. apply Hyx. now apply (cmp_lt_gt cmp2 d Hc x y). }
    f_equal. apply IH; [|now apply Permutation_cons_inv in Hp|exact H1|exact H2].
    intros z Hz. apply Hi. now right.
Qed.

(** Sorting by the opposite comparison gives the reverse, when the
    comparisons are consistent and nothing ties. *)
Lemma sortList_opposite (l : list A) :
  consistentOn cmp1 l -> consistentOn cmp2 l ->
  (forall a b, In a l -> In b l -> SortCompare cmp2 a b = Eq -> a = b) ->
  sortList cmp2 l = rev (sortList cmp1 l).
Proof.
  intros Hc1 Hc2 Hties.
  apply (sorted_unique l); [exact Hc2|exact Hties| | | |].
  - intros x Hx. now apply sortList_In in Hx.
  - apply Permutation_trans with l; [apply Permutation_sym, sortList_perm|].
    apply Permutation_trans with (sortList cmp1 l); [apply sortList_perm|].
    apply Permutation_rev.
  - apply (sortList_sorted cmp2 l Hc2). now intros x.
  - apply (sorted_rev l); [exact Hc1| |].
    + intros x Hx. now apply sortList_In in Hx.
    + apply (sortList_sorted cmp1 l Hc1). now intros x.
Qed.

End Reversal.

Lemma matches_all (st : State) :
  from st = "" -> to st = "" -> catFilter st = "ALL" ->
  forall e, matches st e = true.
Proof. intros Hf Ht Hc e. unfold matches. rewrite Hf, Ht, Hc. reflexivity. Qed.

Section FilterBar.
Variable localeCompare : string -> string -> number.

(** X12.  The button that clears the filters empties both date bounds and
    selects every category, and leaves the rest of the state as it is:
    the view is then the whole collection in the sort order, every
    expense as often as the collection has it. *)
Theorem clearFilters_shows_all (st : State) :
  shownList localeCompare (clearFilters st)
  = sortList (compareFn localeCompare (sortKey st) (sortDir st)) (expenses st) /\
  Permutation (expenses st) (shownList localeCompare (clearFilters st)) /\
  clearFilters st
  = mkState (expenses st) (categories st) (date st) (amount st) (category st)
      (note st) "" "" "ALL" (sortKey st) (sortDir st).
Proof.
  assert (shownList localeCompare (clearFilters st)
          = sortList (compareFn localeCompare (sortKey st) (sortDir st))
              (expenses st)) as Heq.
  { rewrite shownList_eq.
    cbn [clearFilters setCatFilter setTo setFrom expenses sortKey sortDir].
    f_equal. apply filter_all. intros e _. now apply matches_all. }
  split; [exact Heq|]. split; [|reflexivity].
  rewrite Heq. apply sortList_perm.
Qed.

(** X13.  The direction button turns the view round exactly, when the sort
    key is defined on the expenses that pass the filters and no two of
    them tie on it; pressed twice it gives the state back. *)
Theorem toggleSortDir_reverses (st : State) :
  keyDefined localeCompare (sortKey st) (List.filter (matches st) (expenses st)) ->
  noTies (compareFn localeCompare (sortKey st) (sortDir st))
    (List.filter (matches st) (expenses st)) ->
  shownList localeCompare (toggleSortDir st) = rev (shownList localeCompare st) /\
  toggleSortDir (toggleSortDir st) = st.
Proof.
  intros Hk Hties. split; [|now destruct st as [? ? ? ? ? ? ? ? ? ? []]].
  rewrite !shownList_eq.
  change (List.filter (matches (toggleSortDir st)) (expenses (toggleSortDir st)))
    with (List.filter (matches st) (expenses st)).
  cbn [toggleSortDir setSortDir sortKey sortDir].
  set (l := List.filter (matches st) (expenses st)) in *.
  assert (forall a b,
            SortCompare (compareFn localeCompare (sortKey st) Desc) a b
            = CompOpp (SortCompare (compareFn localeCompare (sortKey st) Asc) a b))
    as Hopp.
  { intros a b.
    exact (SortCompare_opp (compareFn localeCompare (sortKey st) Asc) a b). }
  destruct (sortDir st).
  - apply sortList_opposite; [exact Hopp| | |].
    + now apply compareFn_consistent.
    + now apply compareFn_consistent.
    + intros a b Ha Hb E. apply (Hties a b Ha Hb).
      rewrite Hopp in E. now destruct (SortCompare _ a b).
  - apply sortList_opposite.
    + intros a b. rewrite Hopp. now destruct (SortCompare _ a b).
    + now apply compareFn_consistent.
    + now apply compareFn_consistent.
    + intros a b Ha Hb E. apply (Hties a b Ha Hb).
      rewrite Hopp. now rewrite E.
Qed.

(** X14.  An entry that is accepted shows in the view exactly when it passes
    the filters that are set; with no filter set it always does. *)
Theorem addExpense_shown (newId : string) (st : State) :
  date st <> "" ->
  (0 <? parseFloat (amount st))%float = true ->
  category st <> "" ->
  let e := Expense.mk newId (date st)
             (parseFloat (toFixed (parseFloat (amount st)) 2))
             (category st) (Some (trim (note st))) in
  (In e (shownList localeCompare (addExpense newId st)) <-> matches st e = true) /\
  (from st = "" -> to st = "" -> catFilter st = "ALL" ->
   In e (shownList localeCompare (addExpense newId st))).
Proof.
  intros Hdate Hpos Hcat e.
  assert (addExpense newId st
          = setNote "" (setAmount "" (setExpenses (fun prev => e :: prev) st))) as Hadd.
  { unfold addExpense.
    rewrite (positive_not_nan _ Hpos), (positive_not_le_zero _ Hpos).
    unfold isEmpty.
    destruct (String.eqb_spec (date st) "") as [E|_]; [contradiction|].
    destruct (String.eqb_spec (category st) "") as [E|_]; [contradiction|].
    reflexivity. }
  assert (In e (shownList localeCompare (addExpense newId st))
          <-> matches st e = true) as Hiff.
  { rewrite shownList_eq, sortList_In, List.filter_In, Hadd.
    cbn [setNote setAmount setExpenses expenses].
    change (matches _ e) with (matches st e).
    split; [now intros [_ H]|]. intros H. split; [now left|exact H]. }
  split; [exact Hiff|].
  intros Hf Ht Hc. apply Hiff. now apply matches_all.
Qed.

End FilterBar.

Lemma sample_amounts_defined :
  keyDefined codeUnitCompare KeyAmount sample.
Proof. intros e [<-|[<-|[<-|[]]]]; vm_compute; reflexivity. Qed.

Lemma sample_amounts_noTies :
  noTies (compareFn codeUnitCompare KeyAmount Asc) sample.
Proof.
  intros a b [<-|[<-|[<-|[]]]] [<-|[<-|[<-|[]]]]; vm_compute;
    intros E; try reflexivity; discriminate E.
Qed.

Lemma toggleSortDir_reverses_witness :
  shownList codeUnitCompare (toggleSortDir (viewOf sample KeyAmount Asc))
  = rev (shownList codeUnitCompare (viewOf sample KeyAmount Asc)).
Proof.
  apply (toggleSortDir_reverses codeUnitCompare (viewOf sample KeyAmount Asc)).
  - exact sample_amounts_defined.
  - exact sample_amounts_noTies.
Defined.

Lemma addExpense_shown_witness :
  In (Expense.mk "m1x9" "2025-09-10" 12.35%float "Food" (Some "lunch"))
    (shownList codeUnitCompare (addExpense "m1x9" entryForm)).
Proof.
  pose proof (addExpense_shown codeUnitCompare "m1x9" entryForm) as H.
  cbv zeta in H.
  assert (parseFloat (toFixed (parseFloat (amount entryForm)) 2) = 12.35%float) as E
    by (vm_compute; reflexivity).
  rewrite E in H.
  destruct H as [_ H];
    [discriminate | vm_compute; reflexivity | discriminate | ].
  now apply H.
Defined.

(** ** Import and the stored items *)

Lemma setCategories_same (st : State) :
  setCategories (fun _ => categories st) st = st.
Proof. now destruct st. Qed.

Lemma whenArray_replacedBy {A} (elem : json -> option A) (v : option json)
    (store : list A -> State -> State) (old : list A) (w : Handler.World) :
  store old (Handler.state w) = Handler.state w ->
  whenArray v elem store w
  = match replacedBy elem v old with
    | Some l => Handler.Returned tt
                  (Handler.mkWorld (store l (Handler.state w)) (Handler.alerts w))
    | None => Handler.Untyped
    end.
Proof.
  intros Hold. destruct w as [st al]. cbn [Handler.state Handler.alerts] in *.
  destruct v as [[| | | |items|]|]; cbn [whenArray replacedBy Handler.ret];
    rewrite ?Hold; try reflexivity.
  unfold Handler.bind, Handler.typed. now destruct (allOf elem items).
Qed.

(** X15.  An import of a file that holds a JSON object takes the two fields
    one by one: the expenses are replaced when [expenses] is an array
    and are kept when it is anything else or is missing, and the same
    for the categories; nothing else in the state changes and there is
    no alert. *)
Theorem importJSON_fields (fields : list (string * json)) (w : Handler.World) :
  importJSON (Document (JObj fields)) w
  = match replacedBy asExpense (lookupField fields "expenses")
            (expenses (Handler.state w)),
          replacedBy asString (lookupField fields "categories")
            (categories (Handler.state w)) with
    | Some l, Some c =>
        Handler.Returned tt
          (Handler.mkWorld
             (setCategories (fun _ => c)
                (setExpenses (fun _ => l) (Handler.state w)))
             (Handler.alerts w))
    | _, _ => Handler.Untyped
    end.
Proof.
  unfold importJSON, Handler.tryCatch, Handler.bind.
  cbn [JSON_parse Handler.ret getProperty].
  rewrite (whenArray_replacedBy asExpense _ _ (expenses (Handler.state w)))
    by apply setExpenses_same.
  destruct (replacedBy asExpense _ _) as [l|]; [|reflexivity].
  rewrite (whenArray_replacedBy asString _ _ (categories (Handler.state w)))
    by (cbn [Handler.state]; now destruct (Handler.state w)).
  cbn [Handler.state Handler.alerts setExpenses categories].
  now destruct (replacedBy asString _ _).
Qed.

(** X16.  A file that holds [null] is answered like a malformed one, with the
    alert and no change; a file that holds any other value that is not
    an object (a boolean, a number, a string, an array) is passed over
    in silence: no change and no alert. *)
Theorem importJSON_not_an_object (w : Handler.World) :
  importJSON (Document JNull) w
  = Handler.Returned tt
      (Handler.mkWorld (Handler.state w) (Handler.alerts w ++ ["Invalid file"])%list) /\
  (forall b, importJSON (Document (JBool b)) w = Handler.Returned tt w) /\
  (forall n, importJSON (Document (JNum n)) w = Handler.Returned tt w) /\
  (forall s, importJSON (Document (JStr s)) w = Handler.Returned tt w) /\
  (forall items, importJSON (Document (JArr items)) w = Handler.Returned tt w).
Proof. repeat split. Qed.

(** X17.  No exception leaves the import handler, and whenever it alerts it
    has changed nothing: a change of the state and the alert never come
    together. *)
Theorem importJSON_alert_or_change (file : FileContent) (w : Handler.World) :
  match importJSON file w with
  | Handler.Returned _ w' =>
      Handler.alerts w' = Handler.alerts w
      \/ (Handler.state w' = Handler.state w /\
          Handler.alerts w' = (Handler.alerts w ++ ["Invalid file"])%list)
  | Handler.Thrown _ => False
  | Handler.Untyped => True
  end.
Proof.
  destruct file as [|j]; [right; now split|].
  destruct j as [| | | |items|fields]; try (now left); [right; now split|].
  unfold importJSON, Handler.tryCatch, Handler.bind.
  cbn [JSON_parse Handler.ret getProperty].
  rewrite (whenArray_replacedBy asExpense _ _ (expenses (Handler.state w)))
    by apply setExpenses_same.
  destruct (replacedBy asExpense _ _) as [l|]; [|exact I].
  rewrite (whenArray_replacedBy asString _ _ (categories (Handler.state w)))
    by (cbn [Handler.state]; now destruct (Handler.state w)).
  destruct (replacedBy asString _ _); [|exact I].
  now left.
Qed.

(** X18.  The load on mount never alerts and lets no exception out.  Items
    that are missing leave the state as it is.  A stored expenses item
    that is malformed stops the load before the categories are read:
    nothing is loaded, whatever the categories item holds.  A malformed
    categories item leaves the expenses loaded and the categories as
    they were. *)
Theorem loadStorage_swallows (w : Handler.World) :
  (forall raw cats,
     match loadStorage raw cats w with
     | Handler.Returned _ w' => Handler.alerts w' = Handler.alerts w
     | Handler.Thrown _ => False
     | Handler.Untyped => True
     end) /\
  loadStorage None None w = Handler.Returned tt w /\
  (forall cats, loadStorage (Some Malformed) cats w = Handler.Returned tt w) /\
  (forall items l,
     allOf asExpense items = Some l ->
     loadStorage (Some (Document (JArr items))) (Some Malformed) w
     = Handler.Returned tt
         (Handler.mkWorld (setExpenses (fun _ => l) (Handler.state w))
            (Handler.alerts w))).
Proof.
  split; [|split; [reflexivity|split; [reflexivity|]]].
  - intros raw cats. unfold loadStorage, Handler.tryCatch, Handler.bind.
    assert (forall A (elem : json -> option A) store r w0,
              match whenStored r elem store w0 with
              | Handler.Returned _ w' => Handler.alerts w' = Handler.alerts w0
              | Handler.Thrown w' => Handler.alerts w' = Handler.alerts w0
              | Handler.Untyped => True
              end) as Hw.
    { intros A elem store [[|j]|] w0; cbn; auto.
      destruct j as [| | | |items|]; cbn; auto.
      unfold Handler.bind, Handler.typed. destruct (allOf elem items); cbn; auto. }
    pose proof (Hw _ asExpense (fun l => setExpenses (fun _ => l)) raw w) as H1.
    destruct (whenStored raw asExpense _ w) as [[] w1|w1|]; [|exact H1|exact I].
    pose proof (Hw _ asString (fun l => setCategories (fun _ => l)) cats w1) as H2.
    destruct (whenStored cats asString _ w1) as [[] w2|w2|]; cbn; congruence.
  - intros items l Hl. unfold loadStorage, Handler.tryCatch, Handler.bind.
    unfold whenStored, JSON_parse, Handler.bind, Handler.typed, Handler.ret.
    rewrite Hl. reflexivity.
Qed.

Lemma keys_differ : STORAGE_KEY <> CAT_STORAGE_KEY.
Proof. discriminate. Qed.

(** X19.  What the two saving effects store is what the load on mount reads
    back: loaded into any state, the two items written for [st] put the
    expenses and the categories of [st] in place, when each amount is a
    number JSON can write.  The effects write their own two keys and no
    other, and a store that is full is left as it was. *)
Theorem storage_round_trip (st : State) (s : Storage) (w : Handler.World) :
  List.Forall (fun e => jsonNumber (Expense.amount e) = true) (expenses st) ->
  loadFrom (saveCategories false st (saveExpenses false st s)) w
  = Handler.Returned tt
      (Handler.mkWorld
         (setCategories (fun _ => categories st)
            (setExpenses (fun _ => expenses st) (Handler.state w)))
         (Handler.alerts w)) /\
  (forall k, k <> STORAGE_KEY -> k <> CAT_STORAGE_KEY ->
     getItem (saveCategories false st (saveExpenses false st s)) k = getItem s k) /\
  saveCategories true st (saveExpenses true st s) = s.
Proof.
  intros H. split; [|split; [|reflexivity]].
  - unfold loadFrom, getItem, saveCategories, saveExpenses, setItem.
    cbv beta iota.
    rewrite (lookup_insert_ne _ CAT_STORAGE_KEY STORAGE_KEY)
      by (intros E; now apply keys_differ).
    rewrite !lookup_insert_eq.
    unfold loadStorage, Handler.tryCatch, Handler.bind.
    unfold whenStored, JSON_parse, Handler.bind, Handler.typed, Handler.ret.
    rewrite (allOf_expenses _ H).
    cbn [Handler.update Handler.state Handler.alerts].
    rewrite allOf_strings. reflexivity.
  - intros k H1 H2. unfold getItem, saveCategories, saveExpenses, setItem.
    cbv beta iota. rewrite !lookup_insert_ne by congruence. reflexivity.
Qed.

Lemma storage_round_trip_witness :
  loadFrom (saveCategories false entryForm (saveExpenses false entryForm ∅))
    (Handler.mkWorld (initialState "2025-09-11") [])
  = Handler.Returned tt
      (Handler.mkWorld
         (mkState sample DEFAULT_CATEGORIES "2025-09-11" "" "Food" "" "" "" "ALL"
            KeyDate Desc) []).
Proof.
  destruct (storage_round_trip entryForm ∅
              (Handler.mkWorld (initialState "2025-09-11") [])) as [H _].
  - repeat constructor.
  - exact H.
Defined.

(** ** Month keys, small amounts, pie cells *)

Lemma split_piece (sep : ascii) (a b : string) :
  occurrences sep a = O -> split sep (a +:+ String sep b) = a :: split sep b.
Proof.
  induction a as [|c r IH]; intros H.
  - change ("" +:+ String sep b) with (String sep b). cbn [split].
    now rewrite Ascii.eqb_refl.
  - rewrite append_cons. cbn [split occurrences] in *.
    destruct (Ascii.eqb c sep); [discriminate H|].
    rewrite IH by exact H. reflexivity.
Qed.

Lemma split_whole (sep : ascii) (a : string) :
  occurrences sep a = O -> split sep a = [a].
Proof.
  induction a as [|c r IH]; intros H; [reflexivity|].
  cbn [split occurrences] in *.
  destruct (Ascii.eqb c sep); [discriminate H|]. now rewrite IH.
Qed.

(** X20.  [monthKey] gives the text up to the second hyphen: of a date of
    three pieces or more the first two joined by a hyphen, whatever the
    pieces are.  Of a text with no hyphen it gives the text followed by
    "-undefined". *)
Theorem monthKey_pieces (y m rest : string) :
  occurrences "-" y = O -> occurrences "-" m = O ->
  monthKey (y +:+ "-" +:+ m +:+ "-" +:+ rest) = y +:+ "-" +:+ m /\
  monthKey (y +:+ "-" +:+ m) = y +:+ "-" +:+ m /\
  monthKey y = y +:+ "-undefined".
Proof.
  intros Hy Hm. unfold monthKey.
  change ("-" +:+ m +:+ "-" +:+ rest) with (String "-" (m +:+ String "-" rest)).
  change ("-" +:+ m) with (String "-" m).
  rewrite !(split_piece "-" y) by exact Hy.
  rewrite (split_piece "-" m) by exact Hm.
  rewrite (split_whole "-" m) by exact Hm.
  rewrite (split_whole "-" y) by exact Hy.
  repeat split.
Qed.

Lemma monthKey_pieces_witness :
  monthKey "2025-09-10" = "2025-09" /\ monthKey "soon" = "soon-undefined".
Proof.
  destruct (monthKey_pieces "2025" "09" "10") as (H1 & _ & _);
    [reflexivity|reflexivity|].
  destruct (monthKey_pieces "soon" "" "") as (_ & _ & H2);
    [reflexivity|reflexivity|].
  split; [exact H1|exact H2].
Defined.

(** X21.  An amount above zero and below half a hundredth passes the checks
    of [addExpense] and is stored as 0. *)
Theorem addExpense_below_half_cent (newId : string) (st : State) (v : Q) :
  date st <> "" -> category st <> "" ->
  valueQ (parseFloat (amount st)) = Some v ->
  (0 < v)%Q -> (v < 5 # 1000)%Q ->
  expenses (addExpense newId st)
  = Expense.mk newId (date st) 0%float (category st) (Some (trim (note st)))
    :: expenses st.
Proof.
  intros Hdate Hcat Hv Hpos Hsmall.
  set (amt := parseFloat (amount st)) in *.
  unfold valueQ in Hv.
  destruct (Prim2SF amt) as [s|s| |s m e] eqn:P; try discriminate Hv.
  { injection Hv as <-. now apply Qlt_irrefl in Hpos. }
  assert (0 < 2 ^ (- e) -> Zpos (Z.to_pos (2 ^ (- e))) = 2 ^ (- e)) as Hp
    by (intros; now apply Z2Pos.id).
  destruct (Z.leb_spec 0 e) as [He|He].
  { exfalso. injection Hv as <-.
    assert (0 < 2 ^ e) by (apply Z.pow_pos_nonneg; lia).
    destruct s; unfold Qlt in *; cbn in *; nia. }
  assert (0 < 2 ^ (- e)) as H2 by (apply Z.pow_pos_nonneg; lia).
  destruct s.
  { exfalso. injection Hv as <-. unfold Qlt in Hpos. cbn in Hpos. lia. }
  injection Hv as <-. unfold Qlt in Hsmall. cbn in Hsmall.
  rewrite (Hp H2) in Hsmall.
  assert ((0 <? amt)%float = true) as Hgt.
  { rewrite ltb_spec, P. reflexivity. }
  assert ((1e21 <=? abs amt)%float = false) as Hlt.
  { rewrite leb_spec, abs_spec, P.
    set (c := Prim2SF 1e21). vm_compute in c. subst c.
    unfold SFleb, SFabs, SFcompare.
    destruct (Z.compare_spec 17 e); try lia; reflexivity. }
  unfold addExpense. fold amt.
  rewrite (positive_not_nan _ Hgt), (positive_not_le_zero _ Hgt).
  unfold isEmpty.
  destruct (String.eqb_spec (date st) "") as [E|_]; [contradiction|].
  destruct (String.eqb_spec (category st) "") as [E|_]; [contradiction|].
  cbn [orb setNote setAmount setExpenses expenses]. f_equal. f_equal.
  rewrite (parseFloat_toFixed _ Hlt). unfold roundedTo. rewrite P.
  assert (scaledNearest 2 m e = 0) as ->.
  { unfold scaledNearest. destruct (Z.leb_spec 0 e); [lia|].
    apply Z.div_small.
    replace (1 - e) with (Z.succ (- e)) by lia.
    rewrite Z.pow_succ_r by lia.
    change (10 ^ Z.of_nat 2) with 100. lia. }
  vm_compute. reflexivity.
Qed.

Lemma addExpense_below_half_cent_witness :
  expenses
    (addExpense "m1x9"
       (mkState sample DEFAULT_CATEGORIES "2025-09-10" "0.004" "Food" ""
          "" "" "ALL" KeyDate Desc))
  = Expense.mk "m1x9" "2025-09-10" 0%float "Food" (Some "") :: sample.
Proof.
  set (st := mkState sample DEFAULT_CATEGORIES "2025-09-10" "0.004" "Food" ""
               "" "" "ALL" KeyDate Desc).
  assert (exists v, valueQ (parseFloat (amount st)) = Some v
                    /\ (0 < v)%Q /\ (v < 5 # 1000)%Q) as (v & Hv & H0 & H1).
  { eexists. split; [vm_compute; reflexivity|]. split; reflexivity. }
  exact (addExpense_below_half_cent "m1x9" st v
           ltac:(discriminate) ltac:(discriminate) Hv H0 H1).
Defined.

(** X22.  Every cell of the pie has a fill, one of the eight colours, however
    many entries there are: the colours come round again after eight. *)
Theorem cellFill_defined (i : nat) (slices : list Slice.t) :
  (exists c, cellFill i = Some c /\ In c PIE_COLORS) /\
  cellFill (i + 8) = cellFill i /\
  length (pieFills slices) = length slices /\
  ~ In None (pieFills slices).
Proof.
  assert (forall j, exists c, cellFill j = Some c /\ In c PIE_COLORS) as Hdef.
  { intros j. unfold cellFill.
    destruct (nth_error PIE_COLORS (j mod length PIE_COLORS)) as [c|] eqn:E.
    - exists c. split; [reflexivity|]. now apply nth_error_In in E.
    - apply nth_error_None in E.
      pose proof (Nat.mod_upper_bound j (length PIE_COLORS)) as Hb.
      cbn [length PIE_COLORS] in *. lia. }
  split; [apply Hdef|]. split; [|split].
  - unfold cellFill. cbn [length PIE_COLORS].
    replace (i + 8)%nat with (i + 1 * 8)%nat by lia.
    now rewrite Nat.Div0.mod_add.
  - unfold pieFills. now rewrite length_map, length_seq.
  - unfold pieFills. intros Hin. apply in_map_iff in Hin as (j & Hj & _).
    destruct (Hdef j) as (c & Hc & _). congruence.
Qed.

(** ** The view after an entry and after a removal *)

Lemma Permutation_filter' {A} (p : A -> bool) (l l' : list A) :
  Permutation l l' -> Permutation (List.filter p l) (List.filter p l').
Proof.
  induction 1 as [|x l l' _ IH|x y l|l l' l'' _ IH1 _ IH2]; cbn [List.filter].
  - constructor.
  - destruct (p x); [now constructor|exact IH].
  - destruct (p x), (p y); try apply Permutation_refl; constructor.
  - now apply Permutation_trans with (List.filter p l').
Qed.

Lemma StronglySorted_filter' {A} (R : A -> A -> Prop) (p : A -> bool) (l : list A) :
  StronglySorted R l -> StronglySorted R (List.filter p l).
Proof.
  induction 1 as [|x l _ IH Hx]; cbn [List.filter]; [constructor|].
  destruct (p x); [|exact IH]. constructor; [exact IH|].
  apply List.Forall_forall. intros y Hy. apply List.filter_In in Hy as [Hy _].
  exact (proj1 (List.Forall_forall _ _) Hx y Hy).
Qed.

Lemma filter_comm {A} (p q : A -> bool) (l : list A) :
  List.filter p (List.filter q l) = List.filter q (List.filter p l).
Proof.
  rewrite !filter_filter. apply filter_ext. intros x. apply andb_comm.
Qed.

Section StableFacts.
Context {A : Type} (cmp : A -> A -> number).
Variable d : list A.
Hypothesis Hcons : consistentOn cmp d.

(** Two sorted arrangements of the same values in which the values that
    tie keep one order are the same. *)
Lemma stable_unique (r1 r2 : list A) :
  incl r1 d -> Permutation r1 r2 ->
  StronglySorted (notAfter cmp) r1 -> StronglySorted (notAfter cmp) r2 ->
  (forall x, In x r1 ->
     List.filter (ties cmp x) r1 = List.filter (ties cmp x) r2) ->
  r1 = r2.
Proof.
  revert r2. induction r1 as [|x r1 IH]; intros r2 Hi Hp H1 H2 Ht.
  - now apply Permutation_nil in Hp.
  - destruct r2 as [|y r2]; [now apply Permutation_sym, Permutation_nil in Hp|].
    apply StronglySorted_inv in H1 as [H1 Hx].
    apply StronglySorted_inv in H2 as [H2 Hy].
    assert (In x d) as Hxd by (apply Hi; now left).
    assert (In y d) as Hyd.
    { apply Hi. apply (Permutation_in y (Permutation_sym Hp)). now left. }
    assert (x = y) as <-.
    { pose proof (Ht x (or_introl eq_refl)) as Hxx. cbn [List.filter] in Hxx.
      unfold ties at 1 in Hxx. rewrite (cmp_refl cmp d Hcons x Hxd) in Hxx.
      destruct (ties cmp x y) eqn:Exy; [now injection Hxx|].
      exfalso.
      assert (In x (y :: r2)) as [->|Hin] by (apply (Permutation_in x Hp); now left).
      { unfold ties in Exy. now rewrite (cmp_refl cmp d Hcons x Hxd) in Exy. }
      assert (In y (x :: r1)) as [->|Hin']
          by (apply (Permutation_in y (Permutation_sym Hp)); now left).
      { unfold ties in Exy. now rewrite (cmp_refl cmp d Hcons y Hyd) in Exy. }
      pose proof (proj1 (List.Forall_forall _ _) Hy x Hin) as Hyx.
      pose proof (proj1 (List.Forall_forall _ _) Hx y Hin') as Hxy.
      unfold ties in Exy. unfold notAfter in Hyx, Hxy.
      destruct (SortCompare cmp x y) eqn:E; [discriminate| |contradiction].
      apply Hyx. now apply (cmp_lt_gt cmp d Hcons x y). }
    f_equal. apply IH; [|now apply Permutation_cons_inv in Hp|exact H1|exact H2|].
    + intros z Hz. apply Hi. now right.
    + intros z Hz. pose proof (Ht z (or_intror Hz)) as Hzz.
      cbn [List.filter] in Hzz. destruct (ties cmp z x); [now injection Hzz|exact Hzz].
Qed.

(** Sorting what passes a test gives what passes the test of the sorted
    list. *)
Lemma sortList_filter (p : A -> bool) (l : list A) :
  incl l d -> sortList cmp (List.filter p l) = List.filter p (sortList cmp l).
Proof.
  intros Hl.
  assert (incl (List.filter p l) d) as Hfl.
  { intros x Hx. apply Hl. now apply List.filter_In in Hx. }
  apply stable_unique.
  - intros x Hx. apply Hfl. now apply sortList_In in Hx.
  - apply Permutation_trans with (List.filter p l);
      [apply Permutation_sym, sortList_perm|].
    apply Permutation_filter', sortList_perm.
  - now apply (sortList_sorted cmp d Hcons).
  - apply StronglySorted_filter'. now apply (sortList_sorted cmp d Hcons).
  - intros x Hx. apply sortList_In in Hx.
    rewrite (sortList_ties cmp d Hcons x _ (Hfl x Hx) Hfl).
    rewrite (filter_comm (ties cmp x) p (sortList cmp l)).
    rewrite (sortList_ties cmp d Hcons x _ (Hfl x Hx) Hl).
    apply filter_comm.
Qed.

End StableFacts.

Lemma insertSorted_split {A} (cmp : A -> A -> number) (x : A) (l : list A) :
  exists l1 l2,
    l = (l1 ++ l2)%list /\
    insertSorted cmp x l = (l1 ++ x :: l2)%list /\
    List.Forall (fun y => SortCompare cmp x y = Gt) l1 /\
    match l2 with
    | [] => True
    | y :: _ => SortCompare cmp x y <> Gt
    end.
Proof.
  induction l as [|y r (l1 & l2 & Hl & Hi & H1 & H2)].
  - exists [], []. repeat split. constructor.
  - cbn [insertSorted]. destruct (SortCompare cmp x y) eqn:E.
    + exists [], (y :: r). repeat split; [constructor|now rewrite E].
    + exists [], (y :: r). repeat split; [constructor|now rewrite E].
    + exists (y :: l1), l2. rewrite Hi, Hl. repeat split; [|exact H2].
      now constructor.
Qed.

Lemma StronglySorted_app_r {A} (R : A -> A -> Prop) (l1 l2 : list A) :
  StronglySorted R (l1 ++ l2) -> StronglySorted R l2.
Proof.
  induction l1 as [|x l1 IH]; [trivial|]. cbn [app]. intros H.
  apply StronglySorted_inv in H as [H _]. now apply IH.
Qed.

Section ViewSteps.
Variable localeCompare : string -> string -> number.

(** X23.  Removing an expense takes it out of the view and leaves the others
    in the order they were shown in, when the sort key is defined on
    the expenses that pass the filters. *)
Theorem removeExpense_view (id : string) (st : State) :
  keyDefined localeCompare (sortKey st) (List.filter (matches st) (expenses st)) ->
  shownList localeCompare (removeExpense id st)
  = List.filter (fun e => negb (Expense.id e =? id)%string)
      (shownList localeCompare st).
Proof.
  intros Hk. rewrite !shownList_eq.
  cbn [removeExpense setExpenses expenses sortKey sortDir].
  change (matches (mkState _ _ _ _ _ _ _ _ _ _ _)) with (matches st).
  rewrite filter_comm.
  apply (sortList_filter _ (List.filter (matches st) (expenses st))).
  - now apply compareFn_consistent.
  - now intros x.
Qed.

(** X24.  An entry that is accepted and passes the filters is put into the
    view behind the expenses shown that it comes after and in front of
    all the others, those it ties with included, and the expenses shown
    before stay in their order; an entry that does not pass the filters
    leaves the view as it is.  The sort key is taken to be defined on
    the entry and on the expenses that pass the filters. *)
Theorem addExpense_view (newId : string) (st : State) :
  date st <> "" ->
  (0 <? parseFloat (amount st))%float = true ->
  category st <> "" ->
  let e := Expense.mk newId (date st)
             (parseFloat (toFixed (parseFloat (amount st)) 2))
             (category st) (Some (trim (note st))) in
  let cmp := compareFn localeCompare (sortKey st) (sortDir st) in
  keyDefined localeCompare (sortKey st)
    (List.filter (matches st) (e :: expenses st)) ->
  if matches st e
  then exists l1 l2,
         shownList localeCompare st = (l1 ++ l2)%list /\
         shownList localeCompare (addExpense newId st) = (l1 ++ e :: l2)%list /\
         List.Forall (fun y => SortCompare cmp e y = Gt) l1 /\
         List.Forall (fun y => SortCompare cmp e y <> Gt) l2
  else shownList localeCompare (addExpense newId st) = shownList localeCompare st.
Proof.
  intros Hdate Hpos Hcat e cmp Hk.
  assert (addExpense newId st
          = setNote "" (setAmount "" (setExpenses (fun prev => e :: prev) st))) as Hadd.
  { unfold addExpense.
    rewrite (positive_not_nan _ Hpos), (positive_not_le_zero _ Hpos).
    unfold isEmpty.
    destruct (String.eqb_spec (date st) "") as [E|_]; [contradiction|].
    destruct (String.eqb_spec (category st) "") as [E|_]; [contradiction|].
    reflexivity. }
  rewrite !shownList_eq, Hadd.
  change (matches (setNote _ (setAmount _ (setExpenses _ st)))) with (matches st).
  cbn [setNote setAmount setExpenses expenses sortKey sortDir].
  cbn [List.filter] in Hk |- *. fold cmp.
  destruct (matches st e); [|reflexivity].
  apply compareFn_consistent with (dir := sortDir st) in Hk. fold cmp in Hk.
  cbn [sortList].
  set (d := e :: List.filter (matches st) (expenses st)) in Hk.
  set (l := sortList cmp (List.filter (matches st) (expenses st))).
  assert (incl l d) as Hl.
  { intros x Hx. right. now apply sortList_In in Hx. }
  assert (StronglySorted (notAfter cmp) l) as Hs.
  { apply (sortList_sorted cmp d Hk). intros x Hx. now right. }
  destruct (insertSorted_split cmp e l) as (l1 & l2 & El & Ei & H1 & H2).
  exists l1, l2. split; [exact El|]. split; [exact Ei|]. split; [exact H1|].
  destruct l2 as [|y r]; [constructor|].
  rewrite El in Hs, Hl. apply StronglySorted_app_r in Hs.
  apply StronglySorted_inv in Hs as [_ Hy].
  assert (In y d) as Hyd by (apply Hl, in_or_app; right; now left).
  constructor; [exact H2|].
  rewrite List.Forall_forall in Hy |- *. intros z Hz.
  apply (notAfter_trans cmp d Hk e y z); [now left|exact Hyd| |exact H2|now apply Hy].
  apply Hl, in_or_app. right. now right.
Qed.


End ViewSteps.

Lemma removeExpense_view_witness :
  shownList codeUnitCompare (removeExpense "2" (viewOf sample KeyDate Desc))
  = List.filter (fun e => negb (Expense.id e =? "2")%string)
      (shownList codeUnitCompare (viewOf sample KeyDate Desc)).
Proof.
  apply (removeExpense_view codeUnitCompare "2" (viewOf sample KeyDate Desc)).
  exact sample_dates_parse.
Defined.

Lemma addExpense_view_witness :
  let e := Expense.mk "m1x9" "2025-09-10" 12.35%float "Food" (Some "lunch") in
  exists l1 l2,
    shownList codeUnitCompare entryForm = (l1 ++ l2)%list /\
    shownList codeUnitCompare (addExpense "m1x9" entryForm) = (l1 ++ e :: l2)%list /\
    List.Forall
      (fun y => SortCompare (compareFn codeUnitCompare KeyDate Desc) e y = Gt) l1 /\
    List.Forall
      (fun y => SortCompare (compareFn codeUnitCompare KeyDate Desc) e y <> Gt) l2.
Proof.
  pose proof (addExpense_view codeUnitCompare "m1x9" entryForm
                ltac:(discriminate) ltac:(vm_compute; reflexivity)
                ltac:(discriminate)) as H.
  cbv zeta in H.
  assert (parseFloat (toFixed (parseFloat (amount entryForm)) 2) = 12.35%float) as E
    by (vm_compute; reflexivity).
  rewrite E in H.
  assert (matches entryForm
            (Expense.mk "m1x9" (date entryForm) 12.35%float (category entryForm)
               (Some (trim (note entryForm)))) = true) as M
    by (vm_compute; reflexivity).
  rewrite M in H. apply H.
  intros x Hx. vm_compute in Hx.
  destruct Hx as [<-|[<-|[<-|[<-|[]]]]]; vm_compute; reflexivity.
Defined.


(** ** Saving twice *)

(** X25.  Saving a second time without a new amount adds nothing: an entry
    that is accepted empties the amount field, and an empty amount is
    turned down; an entry that is turned down has left the state as it
    was. *)
Theorem addExpense_twice (id1 id2 : string) (st : State) :
  addExpense id2 (addExpense id1 st) = addExpense id1 st.
Proof.
  destruct (isEmpty (date st) || isNaN (parseFloat (amount st))
            || (parseFloat (amount st) <=? 0)%float || isEmpty (category st)) eqn:E.
  - assert (addExpense id1 st = st) as -> by (unfold addExpense; now rewrite E).
    unfold addExpense. now rewrite E.
  - assert (amount (addExpense id1 st) = "") as H
      by (unfold addExpense; now rewrite E).
    generalize dependent (addExpense id1 st). intros st1 H.
    unfold addExpense. rewrite H.
    change (isNaN (parseFloat "")) with true.
    rewrite orb_true_r. reflexivity.
Qed.

(** ** Integers as doubles *)

Lemma shifted_bounds (p : positive) :
  Zpos p < 2 ^ 53 ->
  let d := Zpos (digits2_pos p) in
  0 < d <= 53 /\
  2 ^ 52 <= Zpos p * 2 ^ (53 - d) < 2 ^ 53.
Proof.
  intros Hp d. pose proof (digits2_pos_bounds p) as [Hlo Hhi]. fold d in Hlo, Hhi.
  assert (0 < d) as Hd by (subst d; lia).
  assert (d <= 53) as Hd'.
  { destruct (Z.le_gt_cases d 53) as [H|H]; [exact H|].
    assert (2 ^ 53 <= 2 ^ (d - 1)) by (apply Z.pow_le_mono_r; lia). lia. }
  split; [lia|].
  assert (0 < 2 ^ (53 - d)) as Hs by (apply Z.pow_pos_nonneg; lia).
  assert (2 ^ 52 = 2 ^ (d - 1) * 2 ^ (53 - d)) as ->
    by (rewrite <- Z.pow_add_r by lia; f_equal; lia).
  assert (2 ^ 53 = 2 ^ d * 2 ^ (53 - d)) as ->
    by (rewrite <- Z.pow_add_r by lia; f_equal; lia).
  split; [apply Z.mul_le_mono_nonneg_r; lia|apply Z.mul_lt_mono_pos_r; lia].
Qed.

(** Rounding an integer of at most 53 digits changes nothing. *)
Lemma binary_normalize_integer (p : positive) :
  Zpos p < 2 ^ 53 ->
  binary_normalize prec emax (2 * (Zpos p * 2 ^ 1200)) (-1201) false
  = integerDouble (Zpos p).
Proof.
  intros Hp. destruct (shifted_bounds p Hp) as [[Hd Hd'] [Klo Khi]].
  set (d := Zpos (digits2_pos p)) in *.
  set (k := Zpos p * 2 ^ (53 - d)) in *.
  assert (0 < 2 ^ (53 - d)) as Hs by (apply Z.pow_pos_nonneg; lia).
  assert (0 < 2 ^ (d + 1148)) as Hq by (apply Z.pow_pos_nonneg; lia).
  assert (2 * (Zpos p * 2 ^ 1200) = k * 2 ^ (d + 1148)) as HM.
  { unfold k. rewrite <- Z.mul_assoc, <- Z.pow_add_r by lia.
    replace (53 - d + (d + 1148)) with (Z.succ 1200) by lia.
    rewrite Z.pow_succ_r by lia. lia. }
  assert (0 < k) as Hk by lia.
  destruct (2 * (Zpos p * 2 ^ 1200)) as [|M|M] eqn:EM; try lia.
  cbn [binary_normalize integerDouble]. fold d. fold k.
  assert (Zpos (digits2_pos M) = d + 1201) as HdM.
  { apply digits2_pos_unique. rewrite HM.
    replace (d + 1201 - 1) with (52 + (d + 1148)) by lia.
    replace (d + 1201) with (53 + (d + 1148)) by lia.
    rewrite !Z.pow_add_r by lia.
    split; [apply Z.mul_le_mono_nonneg_r; lia|apply Z.mul_lt_mono_pos_r; lia]. }
  assert (fexp prec emax d = d - 53) as Hf
    by (unfold fexp, SpecFloat.emin, prec, emax; lia).
  unfold binary_round, shl_align.
  rewrite HdM. replace (d + 1201 + -1201) with d by lia. rewrite Hf.
  destruct (d - 53 - -1201) as [|q|q] eqn:Eq; try lia.
  unfold binary_round_aux, shr_fexp, shr. cbn [Zdigits2 shr_record_of_loc].
  rewrite HdM. replace (d + 1201 + -1201) with d by lia. rewrite Hf, Eq.
  rewrite iter_pos_nat.
  assert (Zpos M = k * 2 ^ Z.of_nat (Pos.to_nat q)) as ->.
  { rewrite positive_nat_Z, HM. f_equal. f_equal. lia. }
  rewrite iter_shr_1_exact by lia.
  cbn [shr_m loc_of_shr_record shr_r shr_s round_nearest_even].
  destruct k as [|K|K] eqn:EK; try lia.
  cbn [Zdigits2].
  assert (Zpos (digits2_pos K) = 53) as HdK
    by (apply digits2_pos_unique; change (53 - 1) with 52; lia).
  rewrite HdK. replace (-1201 + Zpos q) with (d - 53) by lia.
  replace (53 + (d - 53)) with d by lia. rewrite Hf, Z.sub_diag.
  cbn [shr_m]. cbn [Z.to_pos].
  destruct (Z.leb_spec (d - 53) (emax - prec)) as [_|H];
    [reflexivity|unfold emax, prec in H; lia].
Qed.

Lemma integerDouble_valid (z : Z) :
  Z.abs z < 2 ^ 53 -> valid_binary (integerDouble z) = true.
Proof.
  intros Hz. destruct z as [|p|p]; cbn [integerDouble]; [reflexivity| |].
  all: destruct (shifted_bounds p Hz) as [[Hd Hd'] [Klo Khi]].
  all: set (d := Zpos (digits2_pos p)) in *.
  all: destruct (Zpos p * 2 ^ (53 - d)) as [|K|K] eqn:EK; try lia.
  all: cbn [valid_binary Z.to_pos]; unfold bounded, canonical_mantissa.
  all: rewrite (digits2_pos_unique K 53) by (change (53 - 1) with 52; lia).
  all: unfold fexp, SpecFloat.emin, prec, emax.
  all: apply andb_true_intro; split; [apply Z.eqb_eq|apply Z.leb_le]; lia.
Qed.

Lemma nearestDouble_integer (v : Z) :
  0 <= v < 2 ^ 53 -> Prim2SF (nearestDouble v 1) = integerDouble v.
Proof.
  intros [H0 H1]. unfold nearestDouble.
  rewrite Z.div_1_r, Z.mod_1_r. cbn [Z.eqb]. rewrite Z.add_0_r.
  destruct v as [|p|p]; [reflexivity| |lia].
  rewrite binary_normalize_integer by exact H1.
  apply Prim2SF_SF2Prim, integerDouble_valid. cbn [Z.abs]. exact H1.
Qed.

(** [ofZ] is exact on integers of at most 53 binary digits. *)
Lemma ofZ_integer (z : Z) :
  Z.abs z < 2 ^ 53 -> Prim2SF (ofZ z) = integerDouble z.
Proof.
  intros Hz. unfold ofZ, withSign. destruct z as [|p|p].
  - reflexivity.
  - cbn [Z.ltb Z.compare Z.abs]. apply nearestDouble_integer. cbn [Z.abs] in Hz. lia.
  - cbn [Z.ltb Z.compare Z.abs]. rewrite opp_spec.
    rewrite nearestDouble_integer by (cbn [Z.abs] in Hz; lia). reflexivity.
Qed.

Lemma truncate_ofZ (z : Z) : Z.abs z < 2 ^ 53 -> truncate (ofZ z) = Some z.
Proof.
  intros Hz. unfold truncate. rewrite (ofZ_integer z Hz).
  destruct z as [|p|p]; cbn [integerDouble]; [reflexivity| |].
  all: destruct (shifted_bounds p Hz) as [[Hd Hd'] [Klo Khi]].
  all: set (d := Zpos (digits2_pos p)) in *.
  all: assert (0 < 2 ^ (53 - d)) as Hs by (apply Z.pow_pos_nonneg; lia).
  all: rewrite Z2Pos.id by lia.
  all: destruct (Z.leb_spec 0 (d - 53)) as [He|He].
  all: try (replace (d - 53) with 0 by lia; replace (53 - d) with 0 by lia;
            rewrite !Z.mul_1_r; reflexivity).
  all: replace (- (d - 53)) with (53 - d) by lia; rewrite Z.div_mul by lia;
       reflexivity.
Qed.

Lemma isNaN_ofZ (z : Z) : Z.abs z < 2 ^ 53 -> isNaN (ofZ z) = false.
Proof.
  intros Hz. unfold isNaN. destruct (is_nan (ofZ z)) eqn:E; [|reflexivity].
  apply is_nan_spec in E. rewrite (ofZ_integer z Hz) in E.
  destruct z; discriminate E.
Qed.

Lemma compare_shifted (pa pb : positive) :
  Zpos pa < 2 ^ 53 -> Zpos pb < 2 ^ 53 ->
  let da := Zpos (digits2_pos pa) in
  let db := Zpos (digits2_pos pb) in
  match da - 53 ?= db - 53 with
  | Eq => Pos.compare_cont Eq (Z.to_pos (Zpos pa * 2 ^ (53 - da)))
            (Z.to_pos (Zpos pb * 2 ^ (53 - db)))
  | Lt => Lt
  | Gt => Gt
  end = (Zpos pa ?= Zpos pb).
Proof.
  intros Ha Hb da db.
  destruct (shifted_bounds pa Ha) as [[Hda Hda'] [Kalo Kahi]].
  destruct (shifted_bounds pb Hb) as [[Hdb Hdb'] [Kblo Kbhi]].
  pose proof (digits2_pos_bounds pa) as [Alo Ahi].
  pose proof (digits2_pos_bounds pb) as [Blo Bhi].
  fold da in Hda, Hda', Kalo, Kahi, Alo, Ahi.
  fold db in Hdb, Hdb', Kblo, Kbhi, Blo, Bhi.
  destruct (Z.compare_spec (da - 53) (db - 53)) as [E|E|E].
  - assert (da = db) as Hd by lia. rewrite <- Hd in *.
    assert (0 < 2 ^ (53 - da)) as Hs by (apply Z.pow_pos_nonneg; lia).
    change (Pos.compare_cont Eq ?x ?y) with (Pos.compare x y).
    rewrite <- Z2Pos.inj_compare by lia.
    destruct (Z.compare_spec (Zpos pa) (Zpos pb));
      [apply Z.compare_eq_iff|apply Z.compare_lt_iff|apply Z.compare_gt_iff]; nia.
  - symmetry. apply Z.compare_lt_iff.
    assert (2 ^ da <= 2 ^ (db - 1)) by (apply Z.pow_le_mono_r; lia). lia.
  - symmetry. apply Z.compare_gt_iff.
    assert (2 ^ db <= 2 ^ (da - 1)) by (apply Z.pow_le_mono_r; lia). lia.
Qed.

(** Doubles of integers compare as the integers do. *)
Lemma SFcompare_integer (a b : Z) :
  Z.abs a < 2 ^ 53 -> Z.abs b < 2 ^ 53 ->
  SFcompare (integerDouble a) (integerDouble b) = Some (a ?= b).
Proof.
  intros Ha Hb.
  destruct a as [|pa|pa], b as [|pb|pb]; try reflexivity;
    cbn [integerDouble SFcompare]; f_equal.
  - now apply compare_shifted.
  - pose proof (compare_shifted pa pb Ha Hb) as H. cbv zeta in H.
    change (Zneg pa ?= Zneg pb) with (CompOpp (Zpos pa ?= Zpos pb)).
    rewrite <- H.
    now destruct (Zpos (digits2_pos pa) - 53 ?= Zpos (digits2_pos pb) - 53).
Qed.

Lemma ofZ_leb (a b : Z) :
  Z.abs a < 2 ^ 53 -> Z.abs b < 2 ^ 53 -> (ofZ a <=? ofZ b)%float = (a <=? b).
Proof.
  intros Ha Hb. rewrite leb_spec, (ofZ_integer a Ha), (ofZ_integer b Hb).
  unfold SFleb. rewrite (SFcompare_integer a b Ha Hb).
  unfold Z.leb. now destruct (a ?= b).
Qed.

Lemma ofZ_ltb (a b : Z) :
  Z.abs a < 2 ^ 53 -> Z.abs b < 2 ^ 53 -> (ofZ a <? ofZ b)%float = (a <? b).
Proof.
  intros Ha Hb. rewrite ltb_spec, (ofZ_integer a Ha), (ofZ_integer b Hb).
  unfold SFltb. rewrite (SFcompare_integer a b Ha Hb).
  unfold Z.ltb. now destruct (a ?= b).
Qed.

(** ** Dates in digits *)

(** The lemmas of this part work out the time values of dates written
    in digits, with the offset of the local time zone at zero as in
    [newDate].  The numbered properties take from them only what stays
    true whatever that offset is: that such a date is valid, that two
    writings of one day are one date, and that a day that is not later
    in the calendar is not later as a date. *)

Lemma digit_plain (c : ascii) :
  isDigit c = true ->
  isWhiteSpace c = false /\ Ascii.eqb c "-" = false /\
  Ascii.eqb "x" c = false /\ Ascii.eqb "X" c = false /\
  Ascii.eqb "o" c = false /\ Ascii.eqb "O" c = false /\
  Ascii.eqb "b" c = false /\ Ascii.eqb "B" c = false /\
  0 <= digitValue c <= 9.
Proof.
  destruct c as [[] [] [] [] [] [] [] []]; try discriminate; intros _;
    repeat split; try reflexivity; cbv; discriminate.
Qed.

Lemma trimEnd_digits (s : string) : allDigits s = true -> trimEnd s = s.
Proof.
  induction s as [|c r IH]; [reflexivity|]. cbn [allDigits trimEnd]. intros H.
  apply andb_prop in H as [Hc Hr]. rewrite (IH Hr).
  destruct r; [|reflexivity].
  now rewrite (proj1 (digit_plain c Hc)).
Qed.

Lemma trim_digits (s : string) : allDigits s = true -> trim s = s.
Proof.
  intros H. unfold trim. destruct s as [|c r]; [reflexivity|].
  pose proof H as H'. cbn [allDigits] in H'. apply andb_prop in H' as [Hc _].
  rewrite (proj1 (digit_first c r Hc)). now apply trimEnd_digits.
Qed.

Lemma digits_not_radix (s : string) :
  allDigits s = true ->
  startsWith "0x" s || startsWith "0X" s = false /\
  startsWith "0o" s || startsWith "0O" s = false /\
  startsWith "0b" s || startsWith "0B" s = false.
Proof.
  intros H. destruct s as [|c1 [|c2 r]]; cbn [startsWith].
  - repeat split.
  - rewrite !andb_false_r. repeat split.
  - cbn [allDigits] in H. apply andb_prop in H as [_ H].
    apply andb_prop in H as [H2 _].
    destruct (digit_plain c2 H2) as (_ & _ & -> & -> & -> & -> & -> & -> & _).
    cbn [andb]. rewrite !andb_false_r. repeat split.
Qed.

Lemma valueFrom_bounds (s : string) (acc : Z) :
  allDigits s = true -> 0 <= acc ->
  0 <= valueFrom acc s < (acc + 1) * 10 ^ Z.of_nat (String.length s).
Proof.
  revert acc. induction s as [|c r IH]; intros acc H Hacc.
  - cbn [valueFrom String.length]. change (10 ^ Z.of_nat 0) with 1. lia.
  - cbn [allDigits] in H. apply andb_prop in H as [Hc Hr].
    destruct (digit_plain c Hc) as (_ & _ & _ & _ & _ & _ & _ & _ & Hd).
    cbn [valueFrom String.length].
    specialize (IH (10 * acc + digitValue c) Hr ltac:(lia)).
    rewrite Nat2Z.inj_succ, Z.pow_succ_r by lia.
    assert (0 < 10 ^ Z.of_nat (String.length r)) by (apply Z.pow_pos_nonneg; lia).
    nia.
Qed.

(** [Number] of a string of digits is the number the digits write. *)
Lemma Number_digits (s : string) :
  allDigits s = true -> s <> "" ->
  Number s = nearestDouble (valueFrom 0 s) 1.
Proof.
  intros H Hne. unfold Number. rewrite (trim_digits s H).
  destruct (digits_not_radix s H) as (-> & -> & ->).
  destruct s as [|c r]; [contradiction|].
  pose proof H as H'. cbn [allDigits] in H'. apply andb_prop in H' as [Hc _].
  destruct (digit_first c r Hc) as (_ & Hsign & Hinf).
  unfold scanDecimal. rewrite Hsign. unfold scanUnsigned. rewrite Hinf.
  rewrite <- (append_nil_r (String c r)) at 1.
  rewrite (scanDigits_digits 0 0 (String c r) "" H).
  cbn [scanDigits Nat.add String.length scanExponent].
  cbn [literalValue withSign Z.leb Z.compare Z.sub Z.opp Z.add].
  change (0 <=? 0 - Z.of_nat 0) with true. cbv iota.
  change (0 - Z.of_nat 0) with 0. change (10 ^ 0) with 1.
  now rewrite Z.mul_1_r.
Qed.

Lemma digits_no_hyphen (s : string) :
  allDigits s = true -> occurrences "-" s = O.
Proof.
  induction s as [|c r IH]; [reflexivity|]. cbn [allDigits occurrences]. intros H.
  apply andb_prop in H as [Hc Hr].
  destruct (digit_plain c Hc) as (_ & -> & _). now rewrite (IH Hr).
Qed.

Lemma minus_one (n : Z) :
  0 <= n < 100 -> truncate (nearestDouble n 1 - 1)%float = Some (n - 1).
Proof.
  intros Hn.
  assert (forallb
            (fun k => match truncate (nearestDouble (Z.of_nat k) 1 - 1)%float with
                      | Some z => z =? Z.of_nat k - 1
                      | None => false
                      end) (seq 0 100) = true) as Hall by (vm_compute; reflexivity).
  pose proof (proj1 (forallb_forall _ _) Hall (Z.to_nat n)
                (proj2 (in_seq 100 0 (Z.to_nat n)) ltac:(lia))) as Hk.
  cbv beta in Hk. rewrite !Z2Nat.id in Hk by lia.
  destruct (truncate _) as [z|]; [|discriminate Hk].
  apply Z.eqb_eq in Hk. now rewrite Hk.
Qed.

Lemma ofZ_nonneg (v : Z) : 0 <= v -> ofZ v = nearestDouble v 1.
Proof.
  intros H. unfold ofZ. destruct (Z.ltb_spec v 0) as [Hn|_]; [lia|].
  cbn [withSign]. now rewrite Z.abs_eq.
Qed.

Lemma split_date (y m d : string) :
  isoDate y m d -> split "-" (writeDate y m d) = [y; m; d].
Proof.
  intros (Hy & _ & Hm & _ & Hd & _). unfold writeDate.
  change ("-" +:+ m +:+ "-" +:+ d) with (String "-" (m +:+ String "-" d)).
  rewrite (split_piece "-" y) by now apply digits_no_hyphen.
  rewrite (split_piece "-" m) by now apply digits_no_hyphen.
  rewrite (split_whole "-" d) by now apply digits_no_hyphen.
  reflexivity.
Qed.

Lemma monthStart_bounds (leap : bool) (mn : Z) :
  0 <= mn < 12 -> 0 <= monthStart leap mn <= 335.
Proof.
  intros H.
  assert (mn = 0 \/ mn = 1 \/ mn = 2 \/ mn = 3 \/ mn = 4 \/ mn = 5 \/ mn = 6
          \/ mn = 7 \/ mn = 8 \/ mn = 9 \/ mn = 10 \/ mn = 11)
    as [->|[->|[->|[->|[->|[->|[->|[->|[->|[->|[->| ->]]]]]]]]]]] by lia;
    destruct leap; cbv; split; discriminate.
Qed.

Lemma DayFromYear_bounds (y : Z) :
  0 <= y <= 10100 -> -720000 <= DayFromYear y <= 2970000.
Proof. intros H. unfold DayFromYear. Z.div_mod_to_equations. lia. Qed.

Lemma dayTime_bounds (y m d : Z) :
  0 <= y < 10000 -> 0 <= m < 100 -> 0 <= d < 100 ->
  Z.abs (dayTime y m d) < 2 ^ 53 /\
  (8640000000000000 <? Z.abs (dayTime y m d)) = false.
Proof.
  intros Hy Hm Hd. unfold dayTime, MakeDay, msPerDay.
  set (yr := if (0 <=? y) && (y <=? 99) then 1900 + y else y).
  assert (100 <= yr < 10000) as Hyr.
  { subst yr. destruct (Z.leb_spec 0 y), (Z.leb_spec y 99); cbn [andb]; lia. }
  assert (-1 <= (m - 1) / 12 <= 8) as Hq by (Z.div_mod_to_equations; lia).
  assert (0 <= (m - 1) mod 12 < 12) as Hr by (apply Z.mod_pos_bound; lia).
  pose proof (monthStart_bounds (InLeapYear (yr + (m - 1) / 12)) _ Hr) as Hs.
  pose proof (DayFromYear_bounds (yr + (m - 1) / 12) ltac:(lia)) as Hdy.
  change (2 ^ 53) with 9007199254740992.
  split; [|apply Z.ltb_ge]; lia.
Qed.

(** A date in digits parses to the time value of its year, month and
    day numbers. *)
Lemma parseDate_ofZ (y m d : string) :
  isoDate y m d ->
  parseDate (writeDate y m d)
  = ofZ (dayTime (valueFrom 0 y) (valueFrom 0 m) (valueFrom 0 d)).
Proof.
  intros H. pose proof H as (Hy & Ly & Hm & Lm & Hd & Ld).
  pose proof (valueFrom_bounds y 0 Hy ltac:(lia)) as By.
  pose proof (valueFrom_bounds m 0 Hm ltac:(lia)) as Bm.
  pose proof (valueFrom_bounds d 0 Hd ltac:(lia)) as Bd.
  rewrite Ly in By. rewrite Lm in Bm. rewrite Ld in Bd.
  change ((0 + 1) * 10 ^ Z.of_nat 4) with 10000 in By.
  change ((0 + 1) * 10 ^ Z.of_nat 2) with 100 in Bm, Bd.
  unfold parseDate. rewrite (split_date y m d H). cbn [map nth].
  rewrite !Number_digits
    by (assumption || (intros E; rewrite E in *; discriminate)).
  unfold newDate.
  rewrite <- (ofZ_nonneg (valueFrom 0 y)) by lia.
  rewrite <- (ofZ_nonneg (valueFrom 0 d)) by lia.
  rewrite !truncate_ofZ by (change (2 ^ 53) with 9007199254740992; lia).
  rewrite (minus_one (valueFrom 0 m) Bm).
  unfold TimeClip.
  fold (dayTime (valueFrom 0 y) (valueFrom 0 m) (valueFrom 0 d)).
  now rewrite (proj2 (dayTime_bounds _ _ _ By Bm Bd)).
Qed.

Lemma DayFromYear_next (y : Z) :
  DayFromYear (y + 1) = DayFromYear y + 365 + (if InLeapYear y then 1 else 0).
Proof.
  unfold DayFromYear, InLeapYear.
  destruct (Z.eqb_spec (y mod 4) 0), (Z.eqb_spec (y mod 100) 0),
    (Z.eqb_spec (y mod 400) 0); cbn [andb orb negb];
    Z.div_mod_to_equations; lia.
Qed.

Lemma DayFromYear_mono (y y' : Z) : y <= y' -> DayFromYear y <= DayFromYear y'.
Proof. intros H. unfold DayFromYear. Z.div_mod_to_equations. lia. Qed.

Ltac evalMonthStart :=
  repeat match goal with
         | |- context [monthStart ?l ?n] =>
             let v := eval vm_compute in (monthStart l n) in
             change (monthStart l n) with v
         end.

(** The day of the year of a calendar date, counted from 0. *)
Lemma dayOfYear_bounds (y m d : Z) :
  calendarDate y m d ->
  0 <= monthStart (InLeapYear y) (m - 1) + d - 1
    < 365 + (if InLeapYear y then 1 else 0).
Proof.
  intros (_ & Hm & Hd). unfold daysInMonth in Hd.
  assert (m = 1 \/ m = 2 \/ m = 3 \/ m = 4 \/ m = 5 \/ m = 6 \/ m = 7
          \/ m = 8 \/ m = 9 \/ m = 10 \/ m = 11 \/ m = 12)
    as [->|[->|[->|[->|[->|[->|[->|[->|[->|[->|[->| ->]]]]]]]]]]] by lia;
    destruct (InLeapYear y); cbn in Hd; evalMonthStart; lia.
Qed.

Lemma dayOfYear_order (y m1 d1 m2 d2 : Z) :
  calendarDate y m1 d1 -> calendarDate y m2 d2 ->
  m1 < m2 ->
  monthStart (InLeapYear y) (m1 - 1) + d1 < monthStart (InLeapYear y) (m2 - 1) + d2.
Proof.
  intros (_ & Hm1 & Hd1) (_ & Hm2 & Hd2) Hlt. unfold daysInMonth in Hd1, Hd2.
  assert (m1 = 1 \/ m1 = 2 \/ m1 = 3 \/ m1 = 4 \/ m1 = 5 \/ m1 = 6 \/ m1 = 7
          \/ m1 = 8 \/ m1 = 9 \/ m1 = 10 \/ m1 = 11 \/ m1 = 12)
    as [->|[->|[->|[->|[->|[->|[->|[->|[->|[->|[->| ->]]]]]]]]]]] by lia;
  assert (m2 = 1 \/ m2 = 2 \/ m2 = 3 \/ m2 = 4 \/ m2 = 5 \/ m2 = 6 \/ m2 = 7
          \/ m2 = 8 \/ m2 = 9 \/ m2 = 10 \/ m2 = 11 \/ m2 = 12)
    as [->|[->|[->|[->|[->|[->|[->|[->|[->|[->|[->| ->]]]]]]]]]]] by lia;
    try lia; destruct (InLeapYear y); cbn in Hd1, Hd2; evalMonthStart; lia.
Qed.

Lemma dayTime_calendar_eq (y m d : Z) :
  calendarDate y m d ->
  dayTime y m d
  = (DayFromYear y + monthStart (InLeapYear y) (m - 1) + d - 1) * msPerDay.
Proof.
  intros (Hy & Hm & _). unfold dayTime, MakeDay.
  destruct (Z.leb_spec y 99) as [H|_]; [lia|]. rewrite andb_false_r.
  assert ((m - 1) / 12 = 0) as -> by (apply Z.div_small; lia).
  assert ((m - 1) mod 12 = m - 1) as -> by (apply Z.mod_small; lia).
  now rewrite Z.add_0_r.
Qed.

(** On the days of the calendar the time values are in the order of
    year, month and day. *)
Lemma dayTime_calendar (y1 m1 d1 y2 m2 d2 : Z) :
  calendarDate y1 m1 d1 -> calendarDate y2 m2 d2 ->
  (dayTime y1 m1 d1 ?= dayTime y2 m2 d2) = lex3 (y1, m1, d1) (y2, m2, d2).
Proof.
  intros H1 H2.
  rewrite (dayTime_calendar_eq _ _ _ H1), (dayTime_calendar_eq _ _ _ H2).
  pose proof (dayOfYear_bounds _ _ _ H1) as B1.
  pose proof (dayOfYear_bounds _ _ _ H2) as B2.
  unfold msPerDay.
  assert (forall a b c, (a ?= b) = c -> (a * 86400000 ?= b * 86400000) = c) as Hs.
  { intros a b c <-. destruct (Z.compare_spec a b);
      [apply Z.compare_eq_iff|apply Z.compare_lt_iff|apply Z.compare_gt_iff]; lia. }
  apply Hs. clear Hs.
  destruct (lex3 (y1, m1, d1) (y2, m2, d2)) eqn:E.
  - apply lex3_Eq in E as (-> & -> & ->). apply Z.compare_refl.
  - apply lex3_Lt in E. apply Z.compare_lt_iff.
    destruct E as [Hy|[-> [Hm|[-> Hd]]]].
    + pose proof (DayFromYear_next y1) as Hn.
      pose proof (DayFromYear_mono (y1 + 1) y2 ltac:(lia)). lia.
    + pose proof (dayOfYear_order y2 m1 d1 m2 d2 H1 H2 Hm). lia.
    + lia.
  - apply lex3_Gt in E. apply Z.compare_gt_iff.
    destruct E as [Hy|[-> [Hm|[-> Hd]]]].
    + pose proof (DayFromYear_next y2) as Hn.
      pose proof (DayFromYear_mono (y2 + 1) y1 ltac:(lia)). lia.
    + pose proof (dayOfYear_order y2 m2 d2 m1 d1 H2 H1 Hm). lia.
    + lia.
Qed.

(** A day number past the end of the month counts on into the month
    that follows. *)
Lemma dayTime_carry (y m k : Z) :
  100 <= y -> 1 <= m <= 11 ->
  dayTime y m (daysInMonth y m + k) = dayTime y (m + 1) k.
Proof.
  intros Hy Hm. unfold dayTime, MakeDay.
  destruct (Z.leb_spec y 99) as [H|_]; [lia|]. rewrite andb_false_r.
  replace (m + 1 - 1) with m by lia.
  assert ((m - 1) / 12 = 0) as -> by (apply Z.div_small; lia).
  assert (m / 12 = 0) as -> by (apply Z.div_small; lia).
  assert ((m - 1) mod 12 = m - 1) as -> by (apply Z.mod_small; lia).
  assert (m mod 12 = m) as -> by (apply Z.mod_small; lia).
  rewrite Z.add_0_r. f_equal. unfold daysInMonth.
  assert (m = 1 \/ m = 2 \/ m = 3 \/ m = 4 \/ m = 5 \/ m = 6 \/ m = 7
          \/ m = 8 \/ m = 9 \/ m = 10 \/ m = 11)
    as [->|[->|[->|[->|[->|[->|[->|[->|[->|[->| ->]]]]]]]]]] by lia;
    destruct (InLeapYear y); evalMonthStart; cbn; lia.
Qed.

Lemma isoDate_values (y m d : string) :
  isoDate y m d ->
  0 <= valueFrom 0 y < 10000 /\ 0 <= valueFrom 0 m < 100 /\
  0 <= valueFrom 0 d < 100.
Proof.
  intros (Hy & Ly & Hm & Lm & Hd & Ld).
  pose proof (valueFrom_bounds y 0 Hy ltac:(lia)) as By.
  pose proof (valueFrom_bounds m 0 Hm ltac:(lia)) as Bm.
  pose proof (valueFrom_bounds d 0 Hd ltac:(lia)) as Bd.
  rewrite Ly in By. rewrite Lm in Bm. rewrite Ld in Bd.
  change ((0 + 1) * 10 ^ Z.of_nat 4) with 10000 in By.
  change ((0 + 1) * 10 ^ Z.of_nat 2) with 100 in Bm, Bd.
  auto.
Qed.

Lemma isNaN_parseDate_iso (y m d : string) :
  isoDate y m d -> isNaN (getTime (parseDate (writeDate y m d))) = false.
Proof.
  intros H. unfold getTime. rewrite (parseDate_ofZ y m d H).
  destruct (isoDate_values y m d H) as (By & Bm & Bd).
  apply isNaN_ofZ. exact (proj1 (dayTime_bounds _ _ _ By Bm Bd)).
Qed.

(** X26.  A date written in digits, four for the year and two each for the
    month and the day, always parses, whatever the numbers are: there
    is no month number and no day number that [parseDate] turns down.
    An expense dated so is on or after its own date and on or before
    it, so a filter from and to that date lets it through. *)
Theorem parseDate_iso (y m d : string) :
  isoDate y m d ->
  isNaN (getTime (parseDate (writeDate y m d))) = false /\
  (parseDate (writeDate y m d) <=? parseDate (writeDate y m d))%float = true.
Proof.
  intros H. unfold getTime. rewrite (parseDate_ofZ y m d H).
  destruct (isoDate_values y m d H) as (By & Bm & Bd).
  destruct (dayTime_bounds _ _ _ By Bm Bd) as [Hb _].
  split; [now apply isNaN_ofZ|].
  rewrite ofZ_leb by assumption. apply Z.leb_refl.
Qed.

Lemma parseDate_iso_witness :
  isNaN (getTime (parseDate "2025-13-45")) = false /\
  (parseDate "2025-13-45" <=? parseDate "2025-13-45")%float = true.
Proof.
  apply (parseDate_iso "2025" "13" "45"). repeat split.
Defined.


Section CalendarOrder.
Variable localeCompare : string -> string -> number.

(** X27.  On days of the calendar written in digits, the date filter and the
    sort by date do not go against the calendar: a date whose year,
    month and day are not the greater ones, in that order, is on or
    before the other for the filter, does not come after it in the
    ascending sort and does not come before it in the descending
    one. *)
Theorem parseDate_calendar_order (y1 m1 d1 y2 m2 d2 : string) (a b : Expense) :
  isoDate y1 m1 d1 -> isoDate y2 m2 d2 ->
  calendarDate (valueFrom 0 y1) (valueFrom 0 m1) (valueFrom 0 d1) ->
  calendarDate (valueFrom 0 y2) (valueFrom 0 m2) (valueFrom 0 d2) ->
  Expense.date a = writeDate y1 m1 d1 ->
  Expense.date b = writeDate y2 m2 d2 ->
  lex3 (valueFrom 0 y1, valueFrom 0 m1, valueFrom 0 d1)
    (valueFrom 0 y2, valueFrom 0 m2, valueFrom 0 d2) <> Gt ->
  (parseDate (Expense.date a) <=? parseDate (Expense.date b))%float = true /\
  SortCompare (compareFn localeCompare KeyDate Asc) a b <> Gt /\
  SortCompare (compareFn localeCompare KeyDate Desc) a b <> Lt.
Proof.
  intros H1 H2 C1 C2 Ha Hb Ho.
  destruct (isoDate_values _ _ _ H1) as (By1 & Bm1 & Bd1).
  destruct (isoDate_values _ _ _ H2) as (By2 & Bm2 & Bd2).
  destruct (dayTime_bounds _ _ _ By1 Bm1 Bd1) as [T1 _].
  destruct (dayTime_bounds _ _ _ By2 Bm2 Bd2) as [T2 _].
  pose proof (dayTime_calendar _ _ _ _ _ _ C1 C2) as Hc.
  set (order := lex3 _ _) in Ho, Hc.
  assert (SortCompare (compareFn localeCompare KeyDate Asc) a b = order) as Hs.
  { change (compareFn localeCompare KeyDate Asc)
      with (fun a b : Expense =>
              (getTime (parseDate (Expense.date a))
               - getTime (parseDate (Expense.date b)))%float).
    rewrite (SortCompare_difference (fun e => getTime (parseDate (Expense.date e)))).
    unfold getTime. rewrite Ha, Hb, !parseDate_ofZ by assumption.
    rewrite !ofZ_ltb by assumption. rewrite <- Hc, Z.ltb_antisym, (Z.ltb_antisym (dayTime _ _ _)).
    unfold Z.leb. rewrite (Z.compare_antisym (dayTime (valueFrom 0 y1) _ _)).
    now destruct (dayTime (valueFrom 0 y1) _ _ ?= dayTime (valueFrom 0 y2) _ _). }
  split; [|split].
  - rewrite Ha, Hb, !parseDate_ofZ by assumption.
    rewrite ofZ_leb by assumption. unfold Z.leb. rewrite Hc.
    now destruct order.
  - now rewrite Hs.
  - pose proof (SortCompare_opp (compareFn localeCompare KeyDate Asc) a b) as Hd.
    change (SortCompare (compareFn localeCompare KeyDate Desc) a b
            = CompOpp (SortCompare (compareFn localeCompare KeyDate Asc) a b)) in Hd.
    rewrite Hd, Hs. destruct order; [discriminate|discriminate|contradiction].
Qed.


(** X28.  When every date of the collection is written in digits, the sort by
    date is defined: the view is in the order of the dates, in the
    direction chosen, expenses of one date in the order of the
    collection. *)
Theorem shown_sorted_iso (st : State) :
  (forall e, In e (expenses st) ->
     exists y m d, isoDate y m d /\ Expense.date e = writeDate y m d) ->
  sortKey st = KeyDate ->
  stableSortOf (compareFn localeCompare KeyDate (sortDir st))
    (List.filter (matches st) (expenses st)) (shownList localeCompare st).
Proof.
  intros Hiso Hkey. rewrite shownList_eq, Hkey.
  apply sortList_stable, compareFn_consistent. cbn [keyDefined].
  intros e He. apply List.filter_In in He as [He _].
  destruct (Hiso e He) as (y & m & d & H & ->).
  now apply isNaN_parseDate_iso.
Qed.

End CalendarOrder.

(** X29.  [parseDate] does not hold the day against the month: a day number
    past the end of the month gives the date that many days into the
    month that follows. *)
Theorem parseDate_carry (y m d m' d' : string) :
  isoDate y m d -> isoDate y m' d' ->
  100 <= valueFrom 0 y ->
  1 <= valueFrom 0 m <= 11 ->
  valueFrom 0 m' = valueFrom 0 m + 1 ->
  valueFrom 0 d = daysInMonth (valueFrom 0 y) (valueFrom 0 m) + valueFrom 0 d' ->
  parseDate (writeDate y m d) = parseDate (writeDate y m' d').
Proof.
  intros H H' Hy Hm Hm' Hd.
  rewrite !parseDate_ofZ by assumption. f_equal.
  rewrite Hm', Hd. now apply dayTime_carry.
Qed.

Lemma parseDate_carry_witness : parseDate "2025-02-31" = parseDate "2025-03-03".
Proof.
  apply (parseDate_carry "2025" "02" "31" "03" "03").
  - repeat split.
  - repeat split.
  - vm_compute. discriminate.
  - vm_compute. split; discriminate.
  - reflexivity.
  - reflexivity.
Defined.

Lemma parseDate_calendar_order_witness :
  SortCompare (compareFn codeUnitCompare KeyDate Asc)
    (Expense.mk "1" "2025-09-01" 100%float "Food" None)
    (Expense.mk "2" "2025-09-02" 50%float "Food" None) <> Gt.
Proof.
  destruct (parseDate_calendar_order codeUnitCompare "2025" "09" "01" "2025" "09" "02"
              (Expense.mk "1" "2025-09-01" 100%float "Food" None)
              (Expense.mk "2" "2025-09-02" 50%float "Food" None))
    as (_ & H & _).
  - repeat split.
  - repeat split.
  - vm_compute. repeat split; discriminate.
  - vm_compute. repeat split; discriminate.
  - reflexivity.
  - reflexivity.
  - vm_compute. discriminate.
  - exact H.
Defined.


Lemma sample_iso (e : Expense) :
  In e sample -> exists y m d, isoDate y m d /\ Expense.date e = writeDate y m d.
Proof.
  intros [<-|[<-|[<-|[]]]].
  - exists "2025", "09", "01". repeat split.
  - exists "2025", "09", "02". repeat split.
  - exists "2025", "09", "02". repeat split.
Qed.

Lemma shown_sorted_iso_witness :
  stableSortOf (compareFn codeUnitCompare KeyDate Desc) sample
    (shownList codeUnitCompare (viewOf sample KeyDate Desc)).
Proof.
  exact (shown_sorted_iso codeUnitCompare (viewOf sample KeyDate Desc)
           sample_iso eq_refl).
Defined.

Lemma writeDate_not_empty (y m d : string) :
  isoDate y m d -> isEmpty (writeDate y m d) = false.
Proof.
  intros (_ & Ly & _). destruct y as [|c r]; [discriminate Ly|].
  unfold writeDate. rewrite append_cons. reflexivity.
Qed.

Lemma parseDate_leb_calendar (y1 m1 d1 y2 m2 d2 : string) :
  isoDate y1 m1 d1 -> isoDate y2 m2 d2 ->
  calendarDate (valueFrom 0 y1) (valueFrom 0 m1) (valueFrom 0 d1) ->
  calendarDate (valueFrom 0 y2) (valueFrom 0 m2) (valueFrom 0 d2) ->
  (parseDate (writeDate y1 m1 d1) <=? parseDate (writeDate y2 m2 d2))%float = true
  <-> lex3 (valueFrom 0 y1, valueFrom 0 m1, valueFrom 0 d1)
        (valueFrom 0 y2, valueFrom 0 m2, valueFrom 0 d2) <> Gt.
Proof.
  intros H1 H2 C1 C2.
  destruct (isoDate_values _ _ _ H1) as (By1 & Bm1 & Bd1).
  destruct (isoDate_values _ _ _ H2) as (By2 & Bm2 & Bd2).
  destruct (dayTime_bounds _ _ _ By1 Bm1 Bd1) as [T1 _].
  destruct (dayTime_bounds _ _ _ By2 Bm2 Bd2) as [T2 _].
  rewrite !parseDate_ofZ by assumption.
  rewrite ofZ_leb by assumption.
  rewrite <- (dayTime_calendar _ _ _ _ _ _ C1 C2). unfold Z.leb.
  destruct (dayTime _ _ _ ?= dayTime _ _ _); split; congruence.
Qed.

Section DateRange.
Variable localeCompare : string -> string -> number.

(** X30.  With both bounds of the date filter set to days of the calendar,
    an expense of the collection dated on a day of the calendar that is
    not before the first bound and not after the second, both bounds
    included, is shown, when its category is the one selected, if one
    is. *)
Theorem shown_date_range (st : State) (e : Expense)
    (yf mf df yt mt dt y m d : string) :
  from st = writeDate yf mf df -> to st = writeDate yt mt dt ->
  Expense.date e = writeDate y m d ->
  isoDate yf mf df -> isoDate yt mt dt -> isoDate y m d ->
  calendarDate (valueFrom 0 yf) (valueFrom 0 mf) (valueFrom 0 df) ->
  calendarDate (valueFrom 0 yt) (valueFrom 0 mt) (valueFrom 0 dt) ->
  calendarDate (valueFrom 0 y) (valueFrom 0 m) (valueFrom 0 d) ->
  let day := (valueFrom 0 y, valueFrom 0 m, valueFrom 0 d) in
  In e (expenses st) ->
  lex3 (valueFrom 0 yf, valueFrom 0 mf, valueFrom 0 df) day <> Gt ->
  lex3 day (valueFrom 0 yt, valueFrom 0 mt, valueFrom 0 dt) <> Gt ->
  catFilter st = "ALL" \/ Expense.category e = catFilter st ->
  In e (shownList localeCompare st).
Proof.
  intros Hf Ht He If It Ie Cf Ct Ce day Hin Hlo Hhi Hcat.
  rewrite shownList_eq, sortList_In, List.filter_In.
  split; [exact Hin|].
  unfold matches. rewrite Hf, Ht, He.
  rewrite !writeDate_not_empty by assumption. cbn [orb].
  rewrite !andb_true_iff, orb_true_iff.
  rewrite (parseDate_leb_calendar yf mf df y m d If Ie Cf Ce).
  rewrite (parseDate_leb_calendar y m d yt mt dt Ie It Ce Ct).
  rewrite !String.eqb_eq. fold day. tauto.
Qed.


End DateRange.

Lemma shown_date_range_witness :
  let st := mkState sample DEFAULT_CATEGORIES "2025-09-10" "" "Food" ""
              "2025-09-01" "2025-09-01" "ALL" KeyDate Desc in
  In (Expense.mk "1" "2025-09-01" 100%float "Food" None)
    (shownList codeUnitCompare st).
Proof.
  intros st.
  apply (shown_date_range codeUnitCompare st
           (Expense.mk "1" "2025-09-01" 100%float "Food" None)
           "2025" "09" "01" "2025" "09" "01" "2025" "09" "01");
    try reflexivity; try (repeat split; fail);
    try (vm_compute; repeat split; discriminate).
  - now left.
  - now left.
Defined.
